(** * The chat widget of [scripts.js]: request dispatcher and transcript renderer

    A shallow embedding of the non-cosmetic part of [scripts.js]:
    the session identifier set up when the script loads, [fetchWithRetry],
    [sendMessage], [addMessage], [setLoadingState] and the handlers that
    touch the [#chat-messages] element; then the listeners of the input
    and the send button, the theme toggle, the section navigation and
    [scrollToChat].

    Conventions.
    - A JavaScript string is its sequence of UTF-16 code units, [list N].
    - [async] functions are run to completion against an oracle that says
      how the n-th [fetch] of the run settles; the event log keeps the
      order of the observable effects.
    - An abrupt completion ([throw]) is a value of [completion].
    - What the HTML parser of the browser makes of a reply given to
      [innerHTML] is an oracle as well, as far as the script can see
      it: how many elements with the id [typing-indicator] the markup
      brings. *)

From Stdlib Require Import List NArith Lia Bool Arith.
From Stdlib Require Import Strings.String Strings.Ascii.
From Stdlib Require Import DecimalString DecimalPos DecimalN.
From stdpp Require Import base option list gmap.

Import ListNotations.
Set Warnings "-register-all".
Local Open Scope N_scope.
Local Open Scope list_scope.

(* ===================================================================== *)
(** * JavaScript strings *)
(* ===================================================================== *)

Module JsString.

Abbreviation jsstring := (list N).

(** An ASCII literal of the source as code units. *)
Definition str (s : String.string) : jsstring :=
  map N_of_ascii (list_ascii_of_string s).
Arguments str : simpl never.

Definition LF : N := 10.
Definition CR : N := 13.

(** ECMAScript [LineTerminator]: LF, CR, LS, PS. *)
Definition is_line_terminator (c : N) : bool :=
  (c =? 10) || (c =? 13) || (c =? 8232) || (c =? 8233).

(** ECMAScript [WhiteSpace] and [LineTerminator], the set used by the
    regular expression class [\s] and by [String.prototype.trim]. *)
Definition is_whitespace (c : N) : bool :=
  (c =? 9) || (c =? 10) || (c =? 11) || (c =? 12) || (c =? 13) ||
  (c =? 32) || (c =? 160) || (c =? 5760) ||
  ((8192 <=? c) && (c <=? 8202)) ||
  (c =? 8232) || (c =? 8233) || (c =? 8239) || (c =? 8287) ||
  (c =? 12288) || (c =? 65279).

Definition jseqb (a b : jsstring) : bool := bool_decide (a = b).

(** [s.startsWith(p)] on the remaining input. *)
Fixpoint starts_with (p s : jsstring) : bool :=
  match p, s with
  | [], _ => true
  | _ :: _, [] => false
  | a :: p', b :: s' => (a =? b) && starts_with p' s'
  end.

(** [s.includes(p)]. *)
Fixpoint includes (p s : jsstring) : bool :=
  starts_with p s ||
  match s with
  | [] => false
  | _ :: s' => includes p s'
  end.

(** [s.trim()]: white space and line terminators removed at both ends. *)
Fixpoint trim_start (s : jsstring) : jsstring :=
  match s with
  | c :: s' => if is_whitespace c then trim_start s' else s
  | [] => []
  end.

Definition trim_end (s : jsstring) : jsstring :=
  rev (trim_start (rev s)).

Definition trim (s : jsstring) : jsstring := trim_end (trim_start s).

(** [s.split(sep)] for a non-empty separator: the pieces between the
    successive, non-overlapping occurrences of [sep], left to right.
    [skip] counts the code units of a separator that was just found and
    is still to be passed over; [cur] is the piece being read, reversed. *)
Fixpoint split_loop (sep : jsstring) (skip : nat) (cur s : jsstring)
  : list jsstring :=
  match s with
  | [] => [rev cur]
  | c :: s' =>
      match skip with
      | S n => split_loop sep n cur s'
      | O =>
          if starts_with sep s
          then rev cur :: split_loop sep (Nat.pred (length sep)) [] s'
          else split_loop sep O (c :: cur) s'
      end
  end.

Definition split (sep s : jsstring) : list jsstring :=
  split_loop sep O [] s.

(** [pieces.join(sep)]. *)
Fixpoint join (sep : jsstring) (pieces : list jsstring) : jsstring :=
  match pieces with
  | [] => []
  | [p] => p
  | p :: rest => p ++ sep ++ join sep rest
  end.

End JsString.
Import JsString.

(* ===================================================================== *)
(** * Regular expressions of the formatter *)
(* ===================================================================== *)

Module Regex.

(** The fragment of ECMAScript patterns that [addMessage] uses: single
    code units, classes, the assertions [^] and [$], one capturing
    group, sequencing, and the quantifiers [+] (greedy) and [*?]
    (lazy) over a class. *)
Inductive regex : Type :=
| RChar (c : N)
| RSet (p : N -> bool)
| RBol
| REol
| RSeq (a b : regex)
| RGroup (a : regex)
| RPlus (p : N -> bool)
| RStarLazy (p : N -> bool).

(** Where the matcher stands: the code unit before the current position
    (none at the start of the input), the input still to read, and the
    text of capture 1. *)
Record mstate : Type := MState {
  m_prev : option N;
  m_rest : jsstring;
  m_cap : option jsstring
}.

Definition at_line_start (multiline : bool) (prev : option N) : bool :=
  match prev with
  | None => true
  | Some c => multiline && is_line_terminator c
  end.

Definition at_line_end (multiline : bool) (rest : jsstring) : bool :=
  match rest with
  | [] => true
  | c :: _ => multiline && is_line_terminator c
  end.

(** [X+]: one [X], then as many more as possible, giving them back one
    at a time while the rest of the pattern [k] fails. *)
Fixpoint plus_greedy (p : N -> bool) (k : mstate -> option mstate)
    (cap : option jsstring) (rest : jsstring) : option mstate :=
  match rest with
  | [] => None
  | x :: xs =>
      if p x then
        match plus_greedy p k cap xs with
        | Some r => Some r
        | None => k (MState (Some x) xs cap)
        end
      else None
  end.

(** [X*?]: try the rest of the pattern first, take one more [X] only
    when it fails. *)
Fixpoint star_lazy (p : N -> bool) (k : mstate -> option mstate)
    (cap : option jsstring) (prev : option N) (rest : jsstring)
  : option mstate :=
  match k (MState prev rest cap) with
  | Some r => Some r
  | None =>
      match rest with
      | [] => None
      | x :: xs => if p x then star_lazy p k cap (Some x) xs else None
      end
  end.

(** Backtracking matcher in continuation-passing style: [k] is the rest
    of the pattern. *)
Fixpoint rmatch (multiline : bool) (r : regex)
    (k : mstate -> option mstate) (st : mstate) : option mstate :=
  match r with
  | RChar c =>
      match m_rest st with
      | x :: xs => if x =? c then k (MState (Some x) xs (m_cap st)) else None
      | [] => None
      end
  | RSet p =>
      match m_rest st with
      | x :: xs => if p x then k (MState (Some x) xs (m_cap st)) else None
      | [] => None
      end
  | RBol => if at_line_start multiline (m_prev st) then k st else None
  | REol => if at_line_end multiline (m_rest st) then k st else None
  | RSeq a b => rmatch multiline a (rmatch multiline b k) st
  | RGroup a =>
      rmatch multiline a
        (fun st' =>
           k (MState (m_prev st') (m_rest st')
                (Some (take (length (m_rest st) - length (m_rest st'))%nat
                         (m_rest st)))))
        st
  | RPlus p => plus_greedy p k (m_cap st) (m_rest st)
  | RStarLazy p => star_lazy p k (m_cap st) (m_prev st) (m_rest st)
  end.

(** A match attempt at one position: the text of capture 1 and the
    number of code units matched. *)
Definition exec_at (multiline : bool) (r : regex) (prev : option N)
    (s : jsstring) : option (option jsstring * nat) :=
  match rmatch multiline r Some (MState prev s None) with
  | Some st => Some (m_cap st, (length s - length (m_rest st))%nat)
  | None => None
  end.

(** Replacement templates: literal text and [$1]. *)
Inductive tpiece : Type :=
| TLit (s : jsstring)
| TCap1.

Definition expand_piece (cap : option jsstring) (t : tpiece) : jsstring :=
  match t with
  | TLit s => s
  | TCap1 => default [] cap
  end.

Definition expand (tmpl : list tpiece) (cap : option jsstring) : jsstring :=
  concat (map (expand_piece cap) tmpl).

(** [s.replace(/r/g, tmpl)]: the matches are looked for left to right,
    each search starting where the previous match ended (one code unit
    further after an empty match). [skip] counts the code units of the
    last match still to be passed over. *)
Fixpoint replace_loop (multiline : bool) (r : regex) (tmpl : list tpiece)
    (skip : nat) (prev : option N) (s : jsstring) : jsstring :=
  match s with
  | [] =>
      match skip with
      | O =>
          match exec_at multiline r prev [] with
          | Some (cap, _) => expand tmpl cap
          | None => []
          end
      | S _ => []
      end
  | c :: s' =>
      match skip with
      | S n => replace_loop multiline r tmpl n (Some c) s'
      | O =>
          match exec_at multiline r prev s with
          | Some (cap, O) =>
              expand tmpl cap ++ c :: replace_loop multiline r tmpl O (Some c) s'
          | Some (cap, S n) =>
              expand tmpl cap ++ replace_loop multiline r tmpl n (Some c) s'
          | None => c :: replace_loop multiline r tmpl O (Some c) s'
          end
      end
  end.

Definition replace_global (multiline : bool) (r : regex)
    (tmpl : list tpiece) (s : jsstring) : jsstring :=
  replace_loop multiline r tmpl O None s.

(** The classes of the three patterns. *)
Definition cls_space : N -> bool := is_whitespace.
Definition cls_dot (c : N) : bool := negb (is_line_terminator c).

End Regex.
Import Regex.

(* ===================================================================== *)
(** * Values that cross the network boundary *)
(* ===================================================================== *)

Module Js.

(** An error object, by the two properties the script reads. *)
Record js_error : Type := JsError {
  err_name : jsstring;
  err_message : jsstring
}.

Inductive completion (A : Type) : Type :=
| Normal (a : A)
| Throw (e : js_error).
Arguments Normal {A} a.
Arguments Throw {A} e.

(** A Number that came out of [JSON.parse], by what the script can
    observe of it: whether it is zero (the only falsy number JSON can
    produce) and the text [ToString] gives for it. *)
Record jsnumber : Type := JsNumber {
  num_is_zero : bool;
  num_text : jsstring
}.

(** What [response.json()] can resolve to. An object is the list of its
    own properties, each key once. *)
Inductive json : Type :=
| JNull
| JBool (b : bool)
| JNum (n : jsnumber)
| JStr (s : jsstring)
| JArr (items : list json)
| JObj (props : list (jsstring * json)).

Definition TypeError (msg : String.string) : js_error :=
  JsError (str "TypeError") (str msg).

Fixpoint own_prop (key : jsstring) (props : list (jsstring * json))
  : option json :=
  match props with
  | [] => None
  | (k, v) :: rest => if jseqb k key then Some v else own_prop key rest
  end.

(** [v.key] for the keys the script reads ([error], [response]), which
    no prototype defines: [None] is [undefined]; reading a property of
    [null] throws. *)
Definition get_prop (key : String.string) (v : json)
  : completion (option json) :=
  match v with
  | JNull => Throw (TypeError "Cannot read properties of null")
  | JObj props => Normal (own_prop (str key) props)
  | _ => Normal None
  end.

(** [ToBoolean]. *)
Definition truthy (v : option json) : bool :=
  match v with
  | None => false
  | Some JNull => false
  | Some (JBool b) => b
  | Some (JNum n) => negb (num_is_zero n)
  | Some (JStr s) => negb (jseqb s [])
  | Some (JArr _) => true
  | Some (JObj _) => true
  end.

(** [ToString]. An array joins its elements with a comma, [null]
    counting as the empty string. A parsed object has only data
    properties: with an own [toString] the conversion finds nothing
    callable and throws ([None]); without, it is [[object Object]]. *)
Fixpoint to_string (v : json) : option jsstring :=
  match v with
  | JNull => Some (str "null")
  | JBool true => Some (str "true")
  | JBool false => Some (str "false")
  | JNum n => Some (num_text n)
  | JStr s => Some s
  | JArr items =>
      let fix elems (l : list json) : option (list jsstring) :=
        match l with
        | [] => Some []
        | x :: l' =>
            match (match x with JNull => Some [] | _ => to_string x end),
                  elems l' with
            | Some a, Some b => Some (a :: b)
            | _, _ => None
            end
        end in
      match elems items with
      | Some pieces => Some (join (str ",") pieces)
      | None => None
      end
  | JObj props =>
      match own_prop (str "toString") props with
      | Some _ => None
      | None => Some (str "[object Object]")
      end
  end.

(** Decimal text of a non-negative integer (status codes, [Date.now()]). *)
Definition decimal (n : N) : jsstring :=
  str (DecimalString.NilZero.string_of_uint (N.to_uint n)).

(** A [Response], by what the script reads of it. *)
Record response : Type := Response {
  status : N;
  json_body : completion json     (* how [response.json()] settles *)
}.

(** [response.ok]: the status is in the range 200-299. *)
Definition ok (r : response) : bool :=
  (200 <=? status r) && (status r <=? 299).

(** How one [fetch] settles. *)
Inductive fetch_result : Type :=
| Resolved (r : response)
| Rejected (e : js_error).

(** The [options] of a request: [headers] is a JavaScript object used
    as a map. *)
Record options : Type := Options {
  opt_method : jsstring;
  opt_headers : gmap jsstring jsstring;
  opt_body : json                 (* the value given to [JSON.stringify] *)
}.

End Js.
Import Js.

(* ===================================================================== *)
(** * The page: elements, timers, log of effects *)
(* ===================================================================== *)

Module Dom.

(** The [sender] argument of [addMessage]: the literals ['user'],
    ['bot'] (the assistant) and ['error'] of its call sites. *)
Inductive sender : Type := User | Bot | Error.

(** How the text got into an element: parsed as markup ([innerHTML])
    or set as plain text ([textContent]). [Stripped markup k] is what
    is left of the elements parsed from [markup] once [k] elements with
    the id [typing-indicator] were found in them and removed. *)
Inductive rendering : Type :=
| InnerHTML (markup : jsstring)
| TextContent (text : jsstring)
| Stripped (markup : jsstring) (removed : nat).

(** A child of [#chat-messages]. *)
Inductive node : Type :=
| MessageDiv (s : sender) (body : rendering) (time : jsstring)
    (* built by [addMessage] *)
| TypingDiv (dotInterval : nat)
    (* [#typing-indicator], with the handle of its animation timer *)
| UIMessageDiv (isUser : bool) (content : jsstring) (time : jsstring)
    (* built by [addUIMessage] *)
| GreetingDiv (text : jsstring).
    (* the greeting markup of the clear-chat and new-chat buttons *)

Definition is_typing (n : node) : bool :=
  match n with
  | TypingDiv _ => true
  | _ => false
  end.

(** A request as [fetch] receives it; the health probe passes no
    options. *)
Record request : Type := Request {
  req_url : jsstring;
  req_options : option options
}.

Inductive event : Type :=
| EvFetch (r : request)
| EvDelay (ms : N)
| EvAppend (n : node)
| EvRemove (n : node)
| EvReplaceChildren (ns : list node)
| EvSetInterval (h : nat) (ms : N)
| EvClearInterval (h : nat)
| EvTakeOut (entry : node)
    (* an element with the id [typing-indicator] removed from [entry] *)
| EvSetTimeout (ms : N).
    (* the one-shot timer of the form listener *)

(** The mutable state the script works on. The page is taken to provide
    [#chat-messages], [#user-input] and the send button, and to have no
    element with the id [typing-indicator] outside [#chat-messages]. *)
Record world : Type := World {
  children : list node;        (* children of [#chat-messages], in order *)
  input_value : jsstring;      (* [userInput.value] *)
  input_disabled : bool;
  button_disabled : bool;
  button_content : rendering;
  button_opacity : jsstring;
  intervals : gset nat;        (* handles of the running interval timers *)
  next_handle : nat;           (* timers created so far *)
  fetches : nat;               (* [fetch] calls so far *)
  dates : nat;                 (* [new Date()] evaluations so far *)
  log : list event;            (* effects so far, oldest first *)
  pending_timeouts : list N
    (* delays of the one-shot timers that the form listener set and
       that have not fired, oldest first *)
}.

(** What the script reads from outside. *)
Record env : Type := Env {
  sessionId : jsstring;               (* the module variable [sessionId] *)
  origin : jsstring;                  (* [window.location.origin] *)
  net : nat -> fetch_result;          (* how the n-th [fetch] settles *)
  clock : nat -> jsstring;            (* text of the n-th time stamp *)
  onLine : bool;                      (* [navigator.onLine] when read *)
  indicator_ids : jsstring -> nat
    (* the HTML parser of the browser, by what the script can see of
       it: for a markup given to [innerHTML], how many times in a row
       [getElementById('typing-indicator')] finds an element among
       those parsed from it when each one found is removed *)
}.

(** The entries on the page: the children of [#chat-messages] other
    than typing indicators, as they are now. *)
Definition entries (w : world) : list node :=
  List.filter (fun n => negb (is_typing n)) (children w).

(** An entry as it was when it was appended: elements removed from it
    since are put back. *)
Definition as_appended (n : node) : node :=
  match n with
  | MessageDiv s (Stripped markup _) time => MessageDiv s (InnerHTML markup) time
  | _ => n
  end.

(** The transcript: the entries in the order of the page, each as it
    was appended; the transient typing indicator is left out. *)
Definition transcript (w : world) : list node :=
  map as_appended (entries w).

End Dom.
Import Dom.

(* ===================================================================== *)
(** * Computations: state and abrupt completion *)
(* ===================================================================== *)

Module Run.

Definition M (A : Type) : Type := world -> completion A * world.

Definition ret {A} (a : A) : M A := fun w => (Normal a, w).

Definition throw {A} (e : js_error) : M A := fun w => (Throw e, w).

Definition bind {A B} (m : M A) (f : A -> M B) : M B :=
  fun w =>
    match m w with
    | (Normal a, w') => f a w'
    | (Throw e, w') => (Throw e, w')
    end.

Definition lift {A} (c : completion A) : M A := fun w => (c, w).

Definition modify (f : world -> world) : M unit :=
  fun w => (Normal tt, f w).

Definition gets {A} (f : world -> A) : M A :=
  fun w => (Normal (f w), w).

(** [try { body } catch (error) { handler }]. *)
Definition try_catch {A} (body : M A) (handler : js_error -> M A) : M A :=
  fun w =>
    match body w with
    | (Normal a, w') => (Normal a, w')
    | (Throw e, w') => handler e w'
    end.

(** [try { body } finally { fin }]: [fin] runs however [body] completes;
    an abrupt completion of [fin] replaces that of [body]. *)
Definition try_finally {A} (body : M A) (fin : M unit) : M A :=
  fun w =>
    match body w with
    | (c, w') =>
        match fin w' with
        | (Normal _, w'') => (c, w'')
        | (Throw e, w'') => (Throw e, w'')
        end
    end.

Definition emit (e : event) : M unit :=
  modify (fun w =>
    World (children w) (input_value w) (input_disabled w)
      (button_disabled w) (button_content w) (button_opacity w)
      (intervals w) (next_handle w) (fetches w) (dates w)
      (log w ++ [e]) (pending_timeouts w)).

End Run.
Import Run.

Declare Scope run_scope.
Delimit Scope run_scope with run.
Notation "'let*' x := m 'in' k" := (bind m (fun x => k))
  (at level 10, x name, m at level 100, k at level 200, only parsing)
  : run_scope.
Notation "m ;; k" := (bind m (fun _ => k))
  (at level 100, k at level 200, right associativity, only parsing)
  : run_scope.

(* ===================================================================== *)
(** * Field updates of the page state *)
(* ===================================================================== *)

Module Upd.

Definition set_children (v : list node) (w : world) : world :=
  World v (input_value w) (input_disabled w) (button_disabled w)
    (button_content w) (button_opacity w) (intervals w) (next_handle w)
    (fetches w) (dates w) (log w) (pending_timeouts w).

Definition set_input_value (v : jsstring) (w : world) : world :=
  World (children w) v (input_disabled w) (button_disabled w)
    (button_content w) (button_opacity w) (intervals w) (next_handle w)
    (fetches w) (dates w) (log w) (pending_timeouts w).

Definition set_disabled (v : bool) (w : world) : world :=
  World (children w) (input_value w) v v
    (button_content w) (button_opacity w) (intervals w) (next_handle w)
    (fetches w) (dates w) (log w) (pending_timeouts w).

Definition set_button (c : rendering) (o : jsstring) (w : world) : world :=
  World (children w) (input_value w) (input_disabled w) (button_disabled w)
    c o (intervals w) (next_handle w) (fetches w) (dates w) (log w)
    (pending_timeouts w).

Definition set_timers (v : gset nat) (n : nat) (w : world) : world :=
  World (children w) (input_value w) (input_disabled w) (button_disabled w)
    (button_content w) (button_opacity w) v n (fetches w) (dates w) (log w)
    (pending_timeouts w).

Definition set_fetches (v : nat) (w : world) : world :=
  World (children w) (input_value w) (input_disabled w) (button_disabled w)
    (button_content w) (button_opacity w) (intervals w) (next_handle w)
    v (dates w) (log w) (pending_timeouts w).

Definition set_dates (v : nat) (w : world) : world :=
  World (children w) (input_value w) (input_disabled w) (button_disabled w)
    (button_content w) (button_opacity w) (intervals w) (next_handle w)
    (fetches w) v (log w) (pending_timeouts w).

Definition set_pending_timeouts (v : list N) (w : world) : world :=
  World (children w) (input_value w) (input_disabled w) (button_disabled w)
    (button_content w) (button_opacity w) (intervals w) (next_handle w)
    (fetches w) (dates w) (log w) v.

End Upd.
Import Upd.

(* ===================================================================== *)
(** * The script *)
(* ===================================================================== *)

Module Widget.

Local Open Scope run_scope.

Definition MAX_RETRIES : nat := 3.
Definition RETRY_DELAY : N := 2000.

(** ** The formatter of [addMessage] *)

(** [/^#\s+(.+)$/gm] *)
Definition header_re : regex :=
  RSeq RBol (RSeq (RChar 35) (RSeq (RPlus cls_space)
    (RSeq (RGroup (RPlus cls_dot)) REol))).

(** [/\*\*(.*?)\*\*/g] *)
Definition bold_re : regex :=
  RSeq (RChar 42) (RSeq (RChar 42) (RSeq (RGroup (RStarLazy cls_dot))
    (RSeq (RChar 42) (RChar 42)))).

(** [/^-\s+(.+)$/gm] *)
Definition bullet_re : regex :=
  RSeq RBol (RSeq (RChar 45) (RSeq (RPlus cls_space)
    (RSeq (RGroup (RPlus cls_dot)) REol))).

(** ['<strong>$1</strong>'] *)
Definition strong_tmpl : list tpiece :=
  [TLit (str "<strong>"); TCap1; TLit (str "</strong>")].

(** The bullet glyph U+2022, a space, ['$1']. *)
Definition BULLET : N := 8226.
Definition bullet_tmpl : list tpiece := [TLit [BULLET; 32]; TCap1].

Definition format_headers : jsstring -> jsstring :=
  replace_global true header_re strong_tmpl.
Definition format_bold : jsstring -> jsstring :=
  replace_global false bold_re strong_tmpl.
Definition format_bullets : jsstring -> jsstring :=
  replace_global true bullet_re bullet_tmpl.
Definition format_paragraphs (s : jsstring) : jsstring :=
  join (str "</p><p>") (split [LF; LF] s).
Definition format_breaks (s : jsstring) : jsstring :=
  join (str "<br>") (split [LF] s).

(** [formattedText]: the chain of calls on [text], in source order. *)
Definition formattedText (text : jsstring) : jsstring :=
  format_breaks
    (format_paragraphs
       (format_bullets (format_bold (format_headers text)))).

(** The markup given to [messageText.innerHTML]. *)
Definition bot_markup (text : jsstring) : jsstring :=
  str "<p>" ++ formattedText text ++ str "</p>".

(** What assigning a value to [textContent] stores. *)
Definition text_content_of (v : json) : option jsstring :=
  match v with
  | JNull => Some []
  | _ => to_string v
  end.

(** ** Failure messages of [sendMessage] *)

Definition MSG_DEFAULT : jsstring :=
  str "I apologize, but I'm having trouble responding right now.".
Definition MSG_OFFLINE : jsstring :=
  str "Network connection lost. Please check your internet connection and try again.".
Definition MSG_UNREACHABLE : jsstring :=
  str "Unable to connect to the AI service. Please make sure the server is running on localhost:3001.".
Definition MSG_WARMING : jsstring :=
  str "The AI model is starting up. Please wait a moment and try again.".
Definition MSG_RATE : jsstring :=
  str "Too many requests. Please wait a moment before sending another message.".
Definition MSG_FALLBACK : jsstring :=
  str "I received your message but couldn't generate a proper response. Please try again.".

(** The [catch] block's choice of [errorMessage]. *)
Definition errorMessage (online : bool) (error : js_error) : jsstring :=
  if negb online then MSG_OFFLINE
  else if includes (str "Failed to fetch") (err_message error)
          || jseqb (err_name error) (str "TypeError")
  then MSG_UNREACHABLE
  else if includes (str "loading") (err_message error) then MSG_WARMING
  else if includes (str "rate limit") (err_message error) then MSG_RATE
  else if negb (jseqb (err_message error) [])
  then str "Error: " ++ err_message error
  else MSG_DEFAULT.

Section WithEnv.

Variable E : env.

(** [new Date().toLocaleTimeString(...)] *)
Definition time_stamp : M jsstring :=
  fun w => (Normal (clock E (dates w)), set_dates (S (dates w)) w).

(** [chatMessages.appendChild(n)] *)
Definition appendChild (n : node) : M unit :=
  modify (fun w => set_children (children w ++ [n]) w) ;;
  emit (EvAppend n).

(** [setInterval(callback, ms)]: a fresh handle, greater than zero. *)
Definition setInterval (ms : N) : M nat :=
  let* h := gets (fun w => S (next_handle w)) in
  modify (fun w => set_timers ({[h]} ∪ intervals w) h w) ;;
  emit (EvSetInterval h ms) ;;
  ret h.

Definition clearInterval (h : nat) : M unit :=
  modify (fun w => set_timers (intervals w ∖ {[h]}) (next_handle w) w) ;;
  emit (EvClearInterval h).

(** [addMessage(text, sender)]. The scrolling it schedules is not
    modelled. *)
Definition addMessage (text : json) (s : sender) : M unit :=
  let* timestamp := time_stamp in
  let* body :=
    match s with
    | Bot =>
        match text with
        | JStr t => ret (InnerHTML (bot_markup t))
        | _ => throw (TypeError "text.replace is not a function")
        end
    | _ =>
        match text_content_of text with
        | Some t => ret (TextContent t)
        | None => throw (TypeError "Cannot convert object to primitive value")
        end
    end in
  appendChild (MessageDiv s body timestamp).

Definition LOADING_MARKUP : jsstring :=
  str "<span class=" ++ [34] ++ str "loading" ++ [34] ++ str ">"
    ++ [9679; 9679; 9679] ++ str "</span>".

(** Whether [n] is, or holds, an element with the id
    [typing-indicator]: the indicator itself, or an entry whose markup
    brought such an element that has not been removed since. The
    markup of the indicator and of the greetings is fixed and has none
    inside; text set through [textContent] makes no element. *)
Definition holds_indicator_id (n : node) : bool :=
  match n with
  | TypingDiv _ => true
  | MessageDiv _ (InnerHTML markup) _ => (0 <? indicator_ids E markup)%nat
  | MessageDiv _ (Stripped markup k) _ => (k <? indicator_ids E markup)%nat
  | _ => false
  end.

(** [document.getElementById('typing-indicator')]: the first element
    with that id in document order, given by the child of
    [#chat-messages] that is it or holds it. *)
Definition typing_indicator (w : world) : option node :=
  List.find holds_indicator_id (children w).

(** An entry with one more such element taken out of it. *)
Definition strip (n : node) : node :=
  match n with
  | MessageDiv s (InnerHTML markup) time => MessageDiv s (Stripped markup 1) time
  | MessageDiv s (Stripped markup k) time =>
      MessageDiv s (Stripped markup (S k)) time
  | _ => n
  end.

(** [typingIndicator.remove()] for the element found above: the
    indicator leaves the children; an element inside an entry leaves
    that entry. *)
Fixpoint remove_indicator (ns : list node) : list node :=
  match ns with
  | [] => []
  | n :: rest =>
      if holds_indicator_id n
      then (if is_typing n then rest else strip n :: rest)
      else n :: remove_indicator rest
  end.

(** [setLoadingState(isLoading)]. The handle of the timer is stored on
    the indicator after it is appended; the node carries it from the
    start. The callback of the timer only rewrites the dots. An
    element that came with a reply has no [dotInterval] of the script:
    what it gives under that name is no handle of a timer, and
    [clearInterval] of it clears nothing. *)
Definition setLoadingState (isLoading : bool) : M unit :=
  modify (set_disabled isLoading) ;;
  if isLoading then
    modify (set_button (InnerHTML LOADING_MARKUP) (str "0.7")) ;;
    let* h := gets (fun w => S (next_handle w)) in
    appendChild (TypingDiv h) ;;
    let* dotInterval := setInterval 500 in
    ret tt
  else
    modify (set_button (TextContent (str "Send")) (str "1")) ;;
    let* typingIndicator := gets typing_indicator in
    match typingIndicator with
    | Some (TypingDiv dotInterval as n) =>
        (if negb (dotInterval =? 0)%nat then clearInterval dotInterval
         else ret tt) ;;
        modify (fun w => set_children (remove_indicator (children w)) w) ;;
        emit (EvRemove n)
    | Some n =>
        modify (fun w => set_children (remove_indicator (children w)) w) ;;
        emit (EvTakeOut n)
    | None => ret tt
    end.

(** ** The dispatcher *)

(** [fetch(r)]: one network call, settled by the oracle. *)
Definition fetch (r : request) : M response :=
  fun w =>
    let w' := set_fetches (S (fetches w)) w in
    match emit (EvFetch r) w' with
    | (_, w'') =>
        match net E (fetches w) with
        | Resolved resp => (Normal resp, w'')
        | Rejected e => (Throw e, w'')
        end
    end.

(** [await new Promise(resolve => setTimeout(resolve, ms))] *)
Definition delay (ms : N) : M unit := emit (EvDelay ms).

(** [{...options, headers: {...options.headers, 'X-Session-ID': sessionId}}] *)
Definition with_session (o : options) : options :=
  Options (opt_method o)
    (<[str "X-Session-ID" := sessionId E]> (opt_headers o))
    (opt_body o).

(** How one turn of the [for] loop ends. *)
Inductive turn : Type :=
| Continue
| Return (r : response).

(** The body of the loop of [fetchWithRetry] at index [i]. *)
Definition attempt (url : jsstring) (o : options) (retries i : nat)
  : M turn :=
  try_catch
    (let* response := fetch (Request url (Some (with_session o))) in
     if ok response
        || ((400 <=? status response) && (status response <? 500))
     then ret (Return response)
     else if (i <? retries - 1)%nat
     then delay RETRY_DELAY ;; ret Continue
     else ret (Return response))
    (fun error =>
       if (i <? retries - 1)%nat
          && negb (jseqb (err_name error) (str "AbortError"))
       then delay RETRY_DELAY ;; ret Continue
       else throw error).

(** [for (let i = ...; i < retries; i++)], with [remaining] the number
    of turns left, [retries - i]. Falling out of the loop returns
    [undefined], here [None]. *)
Fixpoint retry_loop (url : jsstring) (o : options) (retries : nat)
    (remaining i : nat) : M (option response) :=
  match remaining with
  | O => ret None
  | S remaining' =>
      let* t := attempt url o retries i in
      match t with
      | Return r => ret (Some r)
      | Continue => retry_loop url o retries remaining' (S i)
      end
  end.

Definition fetchWithRetry (url : jsstring) (o : options) (retries : nat)
  : M (option response) :=
  retry_loop url o retries retries O.

(** The [options] of the chat request. *)
Definition chat_options (message : jsstring) : options :=
  Options (str "POST")
    {[ str "Content-Type" := str "application/json" ]}
    (JObj [(str "message", JStr message)]).

(** The [try] block of [sendMessage]. *)
Definition dispatch (message : jsstring) : M unit :=
  let* fetched :=
    fetchWithRetry (origin E ++ str "/api/chat") (chat_options message)
      MAX_RETRIES in
  match fetched with
  | None => throw (TypeError "Cannot read properties of undefined")
  | Some response =>
      let* responseData := lift (json_body response) in
      if negb (ok response) then
        let* error := lift (get_prop "error" responseData) in
        if truthy error then
          match to_string (default JNull error) with
          | Some text => throw (JsError (str "Error") text)
          | None =>
              throw (TypeError "Cannot convert object to primitive value")
          end
        else
          throw (JsError (str "Error")
                   (str "Server error: " ++ decimal (status response)))
      else
        let* reply := lift (get_prop "response" responseData) in
        if truthy reply
        then addMessage (default JNull reply) Bot
        else addMessage (JStr MSG_FALLBACK) Bot
  end.

(** [sendMessage()] *)
Definition sendMessage : M unit :=
  let* message := gets (fun w => trim (input_value w)) in
  if jseqb message [] then ret tt
  else
    addMessage (JStr message) User ;;
    modify (set_input_value []) ;;
    setLoadingState true ;;
    try_finally
      (try_catch
         (dispatch message)
         (fun error =>
            addMessage (JStr (errorMessage (onLine E) error)) Error))
      (setLoadingState false).

(** ** The other code that touches [#chat-messages] *)

(** [checkServerHealth()]: one [fetch], no session header, no retry. *)
Definition checkServerHealth : M bool :=
  try_catch
    (let* response := fetch (Request (origin E ++ str "/api/health") None) in
     if ok response
     then let* data := lift (json_body response) in ret true
     else ret false)
    (fun error => ret false).

Definition MSG_HEALTH : jsstring :=
  [9888; 65039]
    ++ str " Unable to connect to AI service. Please make sure the server is running on localhost:3001".

(** The part of the [DOMContentLoaded] listener that concerns the chat. *)
Definition onDOMContentLoaded : M unit :=
  let* isServerHealthy := checkServerHealth in
  if negb isServerHealthy
  then addMessage (JStr MSG_HEALTH) Error
  else ret tt.

(** [addUIMessage(content, isUser)] *)
Definition addUIMessage (content : jsstring) (isUser : bool) : M unit :=
  let* time := time_stamp in
  appendChild (UIMessageDiv isUser content time).

Definition responses : list jsstring :=
  [ str "I'm analyzing your question...";
    str "That's an interesting point. Here's what I think...";
    str "Thanks for your message. Let me help with that...";
    str "I understand what you're asking. Here's the information...";
    str "Great question! Here's what I found..." ].

(** [setTimeout(callback, ms)] as the form listener calls it. *)
Definition setTimeout (ms : N) : M unit :=
  modify (fun w => set_pending_timeouts (pending_timeouts w ++ [ms]) w) ;;
  emit (EvSetTimeout ms).

(** The [submit] listener of [#chat-form]. The callback of its timer is
    [onSimulatedReply] below. *)
Definition onFormSubmit : M unit :=
  let* message := gets (fun w => trim (input_value w)) in
  if negb (jseqb message [])
  then
    addUIMessage message true ;;
    modify (set_input_value []) ;;
    setTimeout 1000
  else ret tt.

(** The callback of that timer; [pick] is
    [Math.floor(Math.random() * responses.length)]. *)
Definition onSimulatedReply (pick : nat) : M unit :=
  addUIMessage (nth (pick mod length responses) responses []) false.

(** The browser runs the callback of the oldest pending timer of the
    form listener, when there is one. *)
Definition fireTimeout (pick : nat) : M unit :=
  let* pending := gets pending_timeouts in
  match pending with
  | [] => ret tt
  | _ :: rest => modify (set_pending_timeouts rest) ;; onSimulatedReply pick
  end.

(** The text of the greeting the two buttons put back. *)
Definition WAVE : jsstring := [55357; 56395].
Definition GREETING_CLEAR : jsstring :=
  WAVE ++ str " Hello! I'm Botlynx. How can I help you today?".
Definition GREETING_NEW : jsstring :=
  WAVE ++ str " Hello! I'm Botlynx. What would you like to talk about today?".

(** [chatMessages.innerHTML = ...]: every child is dropped and the
    markup of one greeting takes their place. *)
Definition replaceChildren (ns : list node) : M unit :=
  modify (set_children ns) ;; emit (EvReplaceChildren ns).

Definition onClearChat : M unit := replaceChildren [GreetingDiv GREETING_CLEAR].
Definition onNewChat : M unit := replaceChildren [GreetingDiv GREETING_NEW].



End WithEnv.

(** ** Reading the log *)

Definition is_fetch (e : event) : bool :=
  match e with EvFetch _ => true | _ => false end.

Definition is_delay (e : event) : bool :=
  match e with EvDelay _ => true | _ => false end.

(** Network attempts recorded in a log. *)
Definition attempts (l : list event) : nat :=
  length (List.filter is_fetch l).

(** The network side of a log: each attempt, each delay with its length. *)
Inductive net_event : Type :=
| Attempt
| Wait (ms : N).

Fixpoint net_trace (l : list event) : list net_event :=
  match l with
  | [] => []
  | EvFetch _ :: l' => Attempt :: net_trace l'
  | EvDelay ms :: l' => Wait ms :: net_trace l'
  | _ :: l' => net_trace l'
  end.

(** The page side of a log. *)
Inductive dom_event : Type :=
| Appended (n : node)
| Removed (n : node)
| Replaced (ns : list node)
| TimerSet (h : nat)
| TimerCleared (h : nat)
| TakenOut (entry : node).

Fixpoint dom_trace (l : list event) : list dom_event :=
  match l with
  | [] => []
  | EvAppend n :: l' => Appended n :: dom_trace l'
  | EvRemove n :: l' => Removed n :: dom_trace l'
  | EvReplaceChildren ns :: l' => Replaced ns :: dom_trace l'
  | EvSetInterval h _ :: l' => TimerSet h :: dom_trace l'
  | EvClearInterval h :: l' => TimerCleared h :: dom_trace l'
  | EvTakeOut n :: l' => TakenOut n :: dom_trace l'
  | _ :: l' => dom_trace l'
  end.

End Widget.
Import Widget.

(* ===================================================================== *)
(** * The session identifier *)
(* ===================================================================== *)

Module Session.

(** [sessionStorage] of a tab: its items, and the errors a browser
    raises when storage is not available: on any access to the storage
    object, or on writing. *)
Record storage : Type := Storage {
  items : gmap jsstring jsstring;
  access_error : option js_error;
  write_error : option js_error
}.

Definition KEY : jsstring := str "chatSessionId".

(** [sessionStorage.getItem(key)]: [None] is [null]. *)
Definition getItem (key : jsstring) (st : storage)
  : completion (option jsstring) :=
  match access_error st with
  | Some e => Throw e
  | None => Normal (items st !! key)
  end.

(** [sessionStorage.setItem(key, value)] *)
Definition setItem (key value : jsstring) (st : storage)
  : completion unit * storage :=
  match access_error st, write_error st with
  | Some e, _ => (Throw e, st)
  | None, Some e => (Throw e, st)
  | None, None =>
      (Normal tt,
       Storage (<[key := value]> (items st)) (access_error st) (write_error st))
  end.

(** [generateSessionId()]. [fragment] is
    [Math.random().toString(36).substr(2, 9)], at most nine base-36
    digits, and [now] is [Date.now()]. *)
Definition generateSessionId (fragment : jsstring) (now : N) : jsstring :=
  str "session_" ++ fragment ++ str "_" ++ decimal now.

(** [!sessionId] for what [getItem] returned: [null] and the empty
    string are falsy. *)
Definition absent (stored : option jsstring) : bool :=
  match stored with
  | None => true
  | Some s => jseqb s []
  end.

(** Lines 46-50, run when the script loads: the value the variable
    [sessionId] gets, or the error that ends the script there. *)
Definition initSessionId (fragment : jsstring) (now : N) (st : storage)
  : completion jsstring * storage :=
  match getItem KEY st with
  | Throw e => (Throw e, st)
  | Normal stored =>
      if absent stored then
        let sessionId := generateSessionId fragment now in
        match setItem KEY sessionId st with
        | (Throw e, st') => (Throw e, st')
        | (Normal _, st') => (Normal sessionId, st')
        end
      else (Normal (default [] stored), st)
  end.

(** A base-36 digit, as [toString(36)] writes it. *)
Definition is_base36 (c : N) : bool :=
  ((48 <=? c) && (c <=? 57)) || ((97 <=? c) && (c <=? 122)).

End Session.
Import Session.

(* ===================================================================== *)
(** * Vocabulary for the retry loop *)
(* ===================================================================== *)

Module RetrySpec.

(** A settled [fetch] after which the loop stops whatever the index: a
  response that is [ok] or has a 4xx status, or a rejection whose
  error is named [AbortError]. *)
Definition settles (fr : fetch_result) : bool :=
match fr with
| Resolved r => ok r || ((400 <=? status r) && (status r <? 500))
| Rejected e => jseqb (err_name e) (str "AbortError")
end.

(** What [fetchWithRetry] hands back when it stops on [fr]. *)
Definition outcome (fr : fetch_result) : completion (option response) :=
match fr with
| Resolved r => Normal (Some r)
| Rejected e => Throw e
end.

(** [n] attempts with the fixed delay between consecutive ones. *)
Fixpoint retry_trace (n : nat) : list net_event :=
match n with
| O => []
| S O => [Attempt]
| S m => Attempt :: Wait RETRY_DELAY :: retry_trace m
end.

(** The state after [n] more network calls that logged [evs]; nothing
  of the page changes. *)
Definition advance (evs : list event) (n : nat) (w : world) : world :=
World (children w) (input_value w) (input_disabled w) (button_disabled w)
  (button_content w) (button_opacity w) (intervals w) (next_handle w)
  (n + fetches w) (dates w) (log w ++ evs) (pending_timeouts w).

Definition is_attempt (e : net_event) : bool :=
match e with Attempt => true | Wait _ => false end.

(** A settled [fetch] that the loop answers with another attempt when the
  cap allows: a response in the 5xx range, or a rejection that is not
  an [AbortError]. *)
Definition transient (fr : fetch_result) : Prop :=
match fr with
| Resolved r => 500 <= status r <= 599
| Rejected e => err_name e <> str "AbortError"
end.

(** The request that every attempt of a dispatch sends. *)
Definition sent_request (E : env) (url : jsstring) (o : options) : request :=
  Request url (Some (with_session E o)).

End RetrySpec.
Import RetrySpec.

(* ===================================================================== *)
(** * Vocabulary for the page *)
(* ===================================================================== *)

Module PageSpec.

(** One more [new Date()]. *)
Definition tick (w : world) : world := set_dates (S (dates w)) w.

(** [d] more of them. *)
Definition ticks (d : nat) (w : world) : world :=
set_dates (d + dates w) w.

(** [n] appended to [#chat-messages]. *)
Definition append_node (n : node) (w : world) : world :=
World (children w ++ [n]) (input_value w) (input_disabled w)
  (button_disabled w) (button_content w) (button_opacity w)
  (intervals w) (next_handle w) (fetches w) (dates w)
  (log w ++ [EvAppend n]) (pending_timeouts w).

(** The page after [setLoadingState(true)]. *)
Definition loading_on (w : world) : world :=
let h := S (next_handle w) in
World (children w ++ [TypingDiv h]) (input_value w) true true
  (InnerHTML LOADING_MARKUP) (str "0.7")
  ({[h]} ∪ intervals w) h (fetches w) (dates w)
  (log w ++ [EvAppend (TypingDiv h); EvSetInterval h 500]) (pending_timeouts w).

(** What [setLoadingState(false)] logs: the element found under the id
  [typing-indicator] is removed, the timer of an indicator cleared
  just before. *)
Definition off_events (E : env) (w : world) : list event :=
match typing_indicator E w with
| Some (TypingDiv h as n) =>
    (if negb (h =? 0)%nat then [EvClearInterval h] else []) ++ [EvRemove n]
| Some n => [EvTakeOut n]
| None => []
end.

Definition off_intervals (E : env) (w : world) : gset nat :=
match typing_indicator E w with
| Some (TypingDiv h) =>
    if negb (h =? 0)%nat then intervals w ∖ {[h]} else intervals w
| _ => intervals w
end.

(** The page after [setLoadingState(false)]. *)
Definition loading_off (E : env) (w : world) : world :=
World (remove_indicator E (children w)) (input_value w) false false
  (TextContent (str "Send")) (str "1")
  (off_intervals E w) (next_handle w) (fetches w) (dates w)
  (log w ++ off_events E w) (pending_timeouts w).

(** How [addMessage] renders a string for a sender. *)
Definition render (s : sender) (text : jsstring) : rendering :=
match s with
| Bot => InnerHTML (bot_markup text)
| _ => TextContent text
end.

(** The user's entry, as [sendMessage] appends it. *)
Definition user_entry (E : env) (w : world) : node :=
MessageDiv User (TextContent (trim (input_value w))) (clock E (dates w)).

(** The page when the request is about to go out. *)
Definition begun (E : env) (w : world) : world :=
loading_on (set_input_value [] (append_node (user_entry E w) (tick w))).



(** The entries a log appended: the nodes given to [appendChild], the
  typing indicator left out. *)
Definition appended_entries (l : list event) : list node :=
omap (fun e => match e with
               | EvAppend n => if is_typing n then None else Some n
               | _ => None
               end) l.

(** An entry that reports how a dispatch ended. *)
Definition outcome_entry (n : node) : bool :=
match n with
| MessageDiv Bot _ _ | MessageDiv Error _ _ => true
| _ => false
end.


(** The tests of the [catch] block, in source order. *)
Definition transport_failure (error : js_error) : bool :=
includes (str "Failed to fetch") (err_message error)
|| jseqb (err_name error) (str "TypeError").

Definition says_loading (error : js_error) : bool :=
includes (str "loading") (err_message error).

Definition says_rate_limit (error : js_error) : bool :=
includes (str "rate limit") (err_message error).

(** How the entry for an outcome is rendered: a text of the assistant
    as markup, or the message chosen for an error as plain text. *)
Definition rendered_outcome (E : env) (s : sender) (body : rendering) : Prop :=
  (s = Bot /\ exists text, body = InnerHTML (bot_markup text)) \/
  (s = Error /\ exists e, body = TextContent (errorMessage (onLine E) e)).

End PageSpec.
Import PageSpec.

(* ===================================================================== *)
(** * Vocabulary for the formatter *)
(* ===================================================================== *)

Module FormatSpec.

(** The shape shared by the header and the bullet patterns:
  [/^M\s+(.+)$/gm] for a mark [M]. *)
Definition line_re (mark : N) : regex :=
RSeq RBol (RSeq (RChar mark) (RSeq (RPlus cls_space)
  (RSeq (RGroup (RPlus cls_dot)) REol))).

Definition no_line_feed (s : jsstring) : Prop :=
forallb (fun c => negb (c =? LF)) s = true.

(** A match of [/^M\s+(.+)$/gm] laid out: the mark stands at the start
    of the text or right after a line terminator ([before] is the text
    before it); [ws] is the white space after the mark, [cap] the
    captured text, which runs to the end of its line, and [post] what
    follows the match. The white space is as long as the pattern lets
    it be: it runs up to the first code unit that is not white space;
    or, when the text ends in white space, it stops before the last
    white space that is not a line terminator, which is then all of
    the capture. *)
Definition marked_line (before ws cap post : jsstring) : Prop :=
  at_line_start true (last before) = true /\
  ws <> [] /\ forallb is_whitespace ws = true /\
  cap <> [] /\ forallb cls_dot cap = true /\
  at_line_end true post = true /\
  (match cap with c :: _ => is_whitespace c = false | [] => False end \/
   (length cap = 1%nat /\ forallb is_line_terminator post = true)).

(** Such a match starts between [before] and [s]. *)
Definition starts_marked_line (mark : N) (before s : jsstring) : Prop :=
  exists ws cap post : jsstring,
    s = mark :: ws ++ cap ++ post /\ marked_line before ws cap post.

(** The text captured by a match of [/\*\*(.*?)\*\*/g]: on one line,
    and as short as can be, so that no [**] starts inside it or at its
    last code unit. *)
Definition bold_span (cap : jsstring) : Prop :=
  forallb cls_dot cap = true /\ includes (str "**") (cap ++ [42]) = false.

Definition starts_bold_span (before s : jsstring) : Prop :=
  exists cap post : jsstring,
    s = str "**" ++ cap ++ str "**" ++ post /\ bold_span cap.

(** No match starts inside [pre], in the text [pre ++ rest]. *)
Definition unmatched (starts : jsstring -> jsstring -> Prop)
    (pre rest : jsstring) : Prop :=
  forall a b : jsstring, pre = a ++ b -> b <> [] -> ~ starts a (b ++ rest).

(** The first marked line of [s]: [s] is [pre], the mark, [ws], [cap]
    and [post], and no marked line starts in [pre]. *)
Definition first_marked_line (mark : N) (s pre ws cap post : jsstring)
  : Prop :=
  s = pre ++ mark :: ws ++ cap ++ post /\
  marked_line pre ws cap post /\
  unmatched (starts_marked_line mark) pre (mark :: ws ++ cap ++ post).

(** The first bold span of [s]. *)
Definition first_bold_span (s pre cap post : jsstring) : Prop :=
  s = pre ++ str "**" ++ cap ++ str "**" ++ post /\
  bold_span cap /\
  unmatched starts_bold_span pre (str "**" ++ cap ++ str "**" ++ post).

(** The first occurrence of the separator [sep] in [s]. *)
Definition first_separator (sep s a b : jsstring) : Prop :=
  s = a ++ sep ++ b /\ includes sep (a ++ removelast sep) = false.

(** The rest of the pattern after [\s+]: the group and [$]. *)
Definition after_space : mstate -> option mstate :=
  rmatch true (RSeq (RGroup (RPlus cls_dot)) REol) Some.

(** The rest of the pattern after the group: the closing [**]. *)
Definition closing_stars (cap0 : jsstring) (st : mstate) : option mstate :=
  rmatch false (RSeq (RChar 42) (RChar 42)) Some
    (MState (m_prev st) (m_rest st)
       (Some (take (length cap0 - length (m_rest st))%nat cap0))).

(** The text of the example and the markup it renders to. *)
Definition example_text : jsstring :=
str "**Hi** there" ++ [LF; LF] ++ str "- item".

Definition example_markup : jsstring :=
str "<p><strong>Hi</strong> there</p><p>" ++ [BULLET; 32] ++ str "item</p>".

(** A text in which no transform finds anything: no [#], [*], [-] or
  line feed. *)
Definition inert (text : jsstring) : Prop :=
forallb (fun c => negb (c =? 35)) text = true /\
forallb (fun c => negb (c =? 42)) text = true /\
forallb (fun c => negb (c =? 45)) text = true /\
forallb (fun c => negb (c =? LF)) text = true.

(** A code unit that no transform removes: not [#], [*] or [-], and not
    white space. *)
Definition kept (c : N) : bool :=
  negb (c =? 35) && negb (c =? 42) && negb (c =? 45) && negb (is_whitespace c).

(** The code units of [s] that no transform removes, in order. *)
Definition kept_of (s : jsstring) : jsstring := List.filter kept s.

(** A pattern and a template under which every match gives back, in
    order, at least the kept code units it covered. *)
Definition keeps_matches (ml : bool) (r : regex) (tmpl : list tpiece) : Prop :=
  forall prev s cap len,
    exec_at ml r prev s = Some (cap, len) ->
    (len <= length s)%nat /\
    kept_of (take len s) `sublist_of` expand tmpl cap.

End FormatSpec.
Import FormatSpec.

(* ===================================================================== *)
(** * Pages, networks and tabs to run the script on *)
(* ===================================================================== *)

Module Fixtures.

(** A page just loaded, with [typed] in the input box. *)
Definition fresh_page (typed : jsstring) : world :=
World [] typed false false (TextContent (str "Send")) (str "1")
  ∅ 0 0 0 [] [].

(** A parser for the texts of the examples: a markup has one element
  with the id [typing-indicator] when it has that attribute written
  without quotes, and none otherwise. *)
Definition ids_by_text (markup : jsstring) : nat :=
if includes (str "id=typing-indicator") markup then 1%nat else 0%nat.

(** A page on line whose every request settles as [net] says. *)
Definition env_with (net : nat -> fetch_result) : env :=
Env (str "session_k3j9x0q1z_1700000000000") (str "http://localhost:3001")
  net (fun _ => str "10:30") true ids_by_text.

Definition reply_ok : response :=
Response 200 (Normal (JObj [(str "response", JStr (str "Hello"))])).

Definition reply_400 : response :=
Response 400 (Normal (JObj [(str "error", JStr (str "Message is required"))])).

Definition reply_500 : response :=
Response 500 (Normal (JObj [(str "error", JStr (str "Internal error"))])).

Definition always (r : response) : nat -> fetch_result :=
fun _ => Resolved r.

Definition chat_url : jsstring := str "http://localhost:3001/api/chat".


(** The markup of a reply that brings an element with the id of the
  typing indicator, and a page that shows a question and that reply,
  with ["more"] typed. *)
Definition injecting_markup : jsstring :=
str "<p><i id=typing-indicator>x</i></p>".

(** A server whose reply is that markup, up to the paragraph tags that
  the formatter adds. *)
Definition reply_injecting : response :=
Response 200
  (Normal (JObj [(str "response", JStr (str "<i id=typing-indicator>x</i>"))])).


(** Storage that works, with what it holds. *)
Definition working (m : gmap jsstring jsstring) : storage :=
Storage m None None.

(** Storage the browser refuses to hand out. *)
Definition SecurityError : js_error :=
JsError (str "SecurityError") (str "The operation is insecure.").

Definition blocked : storage := Storage ∅ (Some SecurityError) None.

(** Two tabs with no identifier stored (the second holds an unrelated
  item), whose random fragment and clock reading coincide. *)
Definition tab_a : completion jsstring * storage :=
initSessionId (str "k3j9x0q1z") 1700000000000 (working ∅).

Definition tab_b : completion jsstring * storage :=
initSessionId (str "k3j9x0q1z") 1700000000000
  (working {[ str "draft" := str "hello" ]}).

End Fixtures.
Import Fixtures.

(* ===================================================================== *)
(** * The listeners that start a dispatch, and runs of user events *)
(* ===================================================================== *)

Module Handlers.

Local Open Scope run_scope.

Section WithEnv.

Variable E : env.

(** The [keypress] listener of [#user-input], for the key named [key]. *)
Definition onKeypress (key : jsstring) : M unit :=
  let* disabled := gets input_disabled in
  if jseqb key (str "Enter") && negb disabled
  then sendMessage E
  else ret tt.

(** The [click] listener of the send button. *)
Definition onSendClick : M unit :=
  let* disabled := gets button_disabled in
  if negb disabled then sendMessage E else ret tt.

(** [sendMessage] from its first statement to [setLoadingState(true)],
    for a message that passed the emptiness test. *)
Definition send_begin (message : jsstring) : M unit :=
  addMessage E (JStr message) User ;;
  modify (set_input_value []) ;;
  setLoadingState E true.

(** The rest of [sendMessage]: the [try], [catch] and [finally] blocks. *)
Definition send_rest (message : jsstring) : M unit :=
  try_finally
    (try_catch
       (dispatch E message)
       (fun error =>
          addMessage E (JStr (errorMessage (onLine E) error)) Error))
    (setLoadingState E false).

(** What [dispatch] does with the value [fetchWithRetry] resolved to. *)
Definition after_fetch (fetched : option response) : M unit :=
  match fetched with
  | None => throw (TypeError "Cannot read properties of undefined")
  | Some response =>
      let* responseData := lift (json_body response) in
      if negb (ok response) then
        let* error := lift (get_prop "error" responseData) in
        if truthy error then
          match to_string (default JNull error) with
          | Some text => throw (JsError (str "Error") text)
          | None =>
              throw (TypeError "Cannot convert object to primitive value")
          end
        else
          throw (JsError (str "Error")
                   (str "Server error: " ++ decimal (status response)))
      else
        let* reply := lift (get_prop "response" responseData) in
        if truthy reply
        then addMessage E (default JNull reply) Bot
        else addMessage E (JStr MSG_FALLBACK) Bot
  end.

(** How the [catch] and [finally] blocks end a dispatch whose [try]
    block completed as [c] on the page [w2]. *)
Definition finish (r : completion unit * world) : completion unit * world :=
  match r with
  | (Normal _, w2) => setLoadingState E false w2
  | (Throw error, w2) =>
      (addMessage E (JStr (errorMessage (onLine E) error)) Error ;;
       setLoadingState E false) w2
  end.

(** What the user and the browser can do to the page. Each listener runs
    to its end before the next event is taken. *)
Inductive ui_event : Type :=
| UiInput (text : jsstring)       (* the user edits the input box *)
| UiKeypress (key : jsstring)
| UiSendClick
| UiFormSubmit
| UiSimulatedReply (pick : nat)
| UiClearChat
| UiNewChat
| UiLoaded.                       (* [DOMContentLoaded] *)

Definition handle (ev : ui_event) : M unit :=
  match ev with
  | UiInput text =>
      let* disabled := gets input_disabled in
      if disabled then ret tt else modify (set_input_value text)
  | UiKeypress key => onKeypress key
  | UiSendClick => onSendClick
  | UiFormSubmit => onFormSubmit E
  | UiSimulatedReply pick => fireTimeout E pick
  | UiClearChat => onClearChat
  | UiNewChat => onNewChat
  | UiLoaded => onDOMContentLoaded E
  end.

Fixpoint run_events (evs : list ui_event) : M unit :=
  match evs with
  | [] => ret tt
  | ev :: rest => handle ev ;; run_events rest
  end.

(** A dispatch during which the user clicks on clear-chat: the click is
    taken after [setLoadingState(true)] and before the [try] block goes
    on. The listener reads and writes [#chat-messages] only, so the
    page it leaves is the same at whichever [await] the click falls. *)
Definition send_interrupted_by_clear : M unit :=
  let* message := gets (fun w => trim (input_value w)) in
  send_begin message ;;
  onClearChat ;;
  send_rest message.

End WithEnv.

End Handlers.
Import Handlers.

(* ===================================================================== *)
(** * Vocabulary for the ways a dispatch ends and for the page at rest *)
(* ===================================================================== *)

Module DispatchSpec.

(** The events of the retry loop: the same request at every attempt,
    the same delay between attempts. *)
Definition loop_event (E : env) (url : jsstring) (o : options) (e : event)
  : Prop :=
  e = EvFetch (sent_request E url o) \/ e = EvDelay RETRY_DELAY.

(** The requests a log recorded, in order. *)
Definition requests (l : list event) : list request :=
  omap (fun e => match e with EvFetch r => Some r | _ => None end) l.

(** The dispatch from [w] gets to attempt [j]: the attempts before it
    were all answered in a way that is retried. *)
Definition reaches (E : env) (w : world) (j : nat) : Prop :=
  (j < 3)%nat /\
  forall k, (k < j)%nat -> settles (net E (k + fetches w)) = false.

(** The loop of the dispatch from [w] stops at attempt [j]: it gets
    there, and the attempt is answered in a way that is not retried or
    is the third. *)
Definition stops_at (E : env) (w : world) (j : nat) : Prop :=
  reaches E w j /\
  (settles (net E (j + fetches w)) = true \/ j = 2%nat).

(** The dispatch from [w] completes after [j + 1] attempts, and the
    transcript then ends with the user's entry followed by [out]. *)
Definition dispatch_shows (E : env) (w : world) (j : nat) (out : node)
  : Prop :=
  exists (w' : world) (evs : list event),
    sendMessage E w = (Normal tt, w') /\
    log w' = log w ++ evs /\
    net_trace evs = retry_trace (S j) /\
    transcript w' = transcript w ++ [user_entry E w; out].

(** What [checkServerHealth] answers for the way its request settles:
    healthy is a response in the 2xx range whose body parses. *)
Definition healthy (fr : fetch_result) : bool :=
  match fr with
  | Resolved r =>
      ok r && match json_body r with Normal _ => true | Throw _ => false end
  | Rejected _ => false
  end.

(** The page after [chatMessages.innerHTML = ...] put [ns] in place of
    the children. *)
Definition replaced (ns : list node) (w : world) : world :=
  World ns (input_value w) (input_disabled w) (button_disabled w)
    (button_content w) (button_opacity w) (intervals w) (next_handle w)
    (fetches w) (dates w) (log w ++ [EvReplaceChildren ns]) (pending_timeouts w).

(** No [mark] of [s] can start a match of [/^M\s+(.+)$/gm]: each one is
    either not at the start of a line or not followed by white space.
    [prev] is the code unit before [s]. *)
Fixpoint marks_literal (mark : N) (prev : option N) (s : jsstring) : bool :=
  match s with
  | [] => true
  | c :: s' =>
      (if (c =? mark) && at_line_start true prev
       then match s' with
            | [] => true
            | x :: _ => negb (is_whitespace x)
            end
       else true)
      && marks_literal mark (Some c) s'
  end.

(** The characters of a generated session identifier: lower-case
    letters, digits and the underscore. *)
Definition is_id_char (c : N) : bool := is_base36 c || (c =? 95).



(** A page at rest: no element with the id [typing-indicator], input
    and button enabled. *)
Definition idle (E : env) (w : world) : Prop :=
  typing_indicator E w = None /\
  input_disabled w = false /\
  button_disabled w = false.


(** A network that answers 500 once and settles as [fr] from then on. *)
Definition after_one_500 (fr : fetch_result) : nat -> fetch_result :=
  fun n => match n with
           | O => Resolved reply_500
           | S _ => fr
           end.

(** A network on which every request is rejected with [e]. *)
Definition failing (e : js_error) : nat -> fetch_result :=
  fun _ => Rejected e.

End DispatchSpec.
Import DispatchSpec.

(* ===================================================================== *)
(** * The theme toggle *)
(* ===================================================================== *)

Module Theme.

(** What the theme code reads and writes: the class [dark-theme] of
    [document.body], the [checked] state of [#theme-toggle] ([None] on
    a page without that element) and [localStorage]. *)
Record theme_page : Type := ThemePage {
  dark_theme : bool;
  themeToggle : option bool;
  localStorage : storage
}.

Definition DARK_MODE : jsstring := str "darkMode".

(** [ToString] of a boolean, as [setItem] stores it. *)
Definition bool_text (b : bool) : jsstring :=
  if b then str "true" else str "false".

(** The [change] listener of the toggle; there is none on a page
    without the element. *)
Definition onThemeChange (p : theme_page) : completion unit * theme_page :=
  match themeToggle p with
  | None => (Normal tt, p)
  | Some checked =>
      match setItem DARK_MODE (bool_text checked) (localStorage p) with
      | (c, st) => (c, ThemePage (negb (dark_theme p)) (themeToggle p) st)
      end
  end.

(** The check for a saved preference, run when the script loads. *)
Definition initTheme (p : theme_page) : completion unit * theme_page :=
  match themeToggle p with
  | None => (Normal tt, p)
  | Some _ =>
      match getItem DARK_MODE (localStorage p) with
      | Throw e => (Throw e, p)
      | Normal stored =>
          if bool_decide (stored = Some (str "true"))
          then (Normal tt, ThemePage true (Some true) (localStorage p))
          else (Normal tt, p)
      end
  end.

(** The user flips the checkbox: the browser changes [checked] and then
    fires [change]. *)
Definition userToggles (p : theme_page) : completion unit * theme_page :=
  onThemeChange
    (ThemePage (dark_theme p) (option_map negb (themeToggle p))
       (localStorage p)).

End Theme.
Import Theme.

(* ===================================================================== *)
(** * Section navigation *)
(* ===================================================================== *)

Module Nav.

(** An element of the document, by what the navigation code looks at:
    its [id], whether it has the classes [nav-link] and [section], its
    [data-section] attribute and whether it has the class [active]. *)
Record element : Type := Element {
  el_id : option jsstring;
  is_nav_link : bool;
  is_section : bool;
  data_section : option jsstring;
  active : bool
}.

Definition set_active (b : bool) (e : element) : element :=
  Element (el_id e) (is_nav_link e) (is_section e) (data_section e) b.

(** The two [forEach] loops that remove [active] from every link and
    every section. *)
Definition deactivate (e : element) : element :=
  if is_nav_link e || is_section e then set_active false e else e.

(** The position of the first element, in document order, whose [id]
    attribute is [t]. *)
Fixpoint first_with_id (t : jsstring) (doc : list element) : option nat :=
  match doc with
  | [] => None
  | e :: rest =>
      if bool_decide (el_id e = Some t) then Some O
      else option_map S (first_with_id t rest)
  end.

(** [document.getElementById(t)]: the first element, in document order,
    whose id is [t]. An empty [id] attribute gives an element no id, so
    the empty text finds nothing. *)
Definition getElementById (t : jsstring) (doc : list element) : option nat :=
  if bool_decide (t = []) then None else first_with_id t doc.

(** The argument [getElementById] gets from [getAttribute]: a missing
    attribute is [null], which is looked up as the text [null]. *)
Definition attribute_text (a : option jsstring) : jsstring :=
  default (str "null") a.

(** A click on the element at position [i]. The listener is there when
    that element is a [.nav-link] and the page had at least one
    [.section] when the script loaded. *)
Definition onNavClick (i : nat) (doc : list element)
  : completion unit * list element :=
  match doc !! i with
  | None => (Normal tt, doc)
  | Some link =>
      if is_nav_link link && existsb is_section doc then
        let doc1 := alter (set_active true) i (map deactivate doc) in
        match getElementById (attribute_text (data_section link)) doc1 with
        | Some j => (Normal tt, alter (set_active true) j doc1)
        | None =>
            (Throw (TypeError "Cannot read properties of null"), doc1)
        end
      else (Normal tt, doc)
  end.

(** A page with two links and their two sections, the first shown, and
    a third link whose target does not exist. *)
Definition two_sections : list element :=
  [ Element None true false (Some (str "chat")) true;
    Element None true false (Some (str "about")) false;
    Element None true false (Some (str "abuot")) false;
    Element (Some (str "chat")) false true None true;
    Element (Some (str "about")) false true None false ].

End Nav.
Import Nav.

(* ===================================================================== *)
(** * Scrolling to the chat *)
(* ===================================================================== *)

Module Scroll.





End Scroll.
Import Scroll.

(* ===================================================================== *)
(** * Facts about strings *)
(* ===================================================================== *)

Section StringFacts.

Lemma jseqb_true (a b : jsstring) : jseqb a b = true <-> a = b.
Proof. unfold jseqb. apply bool_decide_eq_true. Qed.

Lemma jseqb_false (a b : jsstring) : jseqb a b = false <-> a <> b.
Proof. unfold jseqb. apply bool_decide_eq_false. Qed.

Lemma jseqb_refl (a : jsstring) : jseqb a a = true.
Proof. now apply jseqb_true. Qed.

Lemma trim_start_blank (s : jsstring) :
  forallb is_whitespace s = true -> trim_start s = [].
Proof.
  induction s as [|c s IH]; simpl; [reflexivity|].
  intros H. apply andb_prop in H as [Hc Hs].
  rewrite Hc. now apply IH.
Qed.

Lemma trim_blank (s : jsstring) :
  forallb is_whitespace s = true -> trim s = [].
Proof.
  intros H. unfold trim. rewrite (trim_start_blank s H). reflexivity.
Qed.

(** What [trim] leaves starts with a code unit that is not white space. *)
Lemma trim_start_head (s : jsstring) c rest :
  trim_start s = c :: rest -> is_whitespace c = false.
Proof.
  induction s as [|x s IH]; simpl; [discriminate|].
  destruct (is_whitespace x) eqn:Hx; [exact IH|].
  intros [= <- _]. exact Hx.
Qed.

Lemma str_inj (a b : String.string) : str a = str b -> a = b.
Proof.
  unfold str. intros H.
  rewrite <- (string_of_list_ascii_of_string a),
          <- (string_of_list_ascii_of_string b).
  f_equal.
  revert H. generalize (list_ascii_of_string a) (list_ascii_of_string b).
  induction l as [|x l IH]; intros [|y l']; simpl; try discriminate; auto.
  intros [= Hxy Hl]. f_equal; [|now apply IH].
  rewrite <- (ascii_N_embedding x), <- (ascii_N_embedding y).
  now rewrite Hxy.
Qed.

Lemma to_uint_nonnil (n : N) : N.to_uint n <> Decimal.Nil.
Proof.
  destruct n as [|p]; simpl; [discriminate|].
  apply DecimalPos.Unsigned.to_uint_nonnil.
Qed.

Lemma decimal_inj (n m : N) : decimal n = decimal m -> n = m.
Proof.
  unfold decimal. intros H. apply str_inj in H.
  apply DecimalN.Unsigned.to_uint_inj.
  assert (Hu : NilZero.uint_of_string (NilZero.string_of_uint (N.to_uint n))
               = NilZero.uint_of_string (NilZero.string_of_uint (N.to_uint m)))
    by now rewrite H.
  rewrite !NilZero.usu in Hu by apply to_uint_nonnil.
  now injection Hu.
Qed.

End StringFacts.

(* ===================================================================== *)
(** * Facts about the retry loop *)
(* ===================================================================== *)

Module RetryFacts.

Lemma advance_advance evs1 n1 evs2 n2 w :
  advance evs2 n2 (advance evs1 n1 w) = advance (evs1 ++ evs2) (n2 + n1) w.
Proof.
  unfold advance; simpl. f_equal; [lia | now rewrite <- app_assoc].
Qed.

Lemma server_error_retried (r : response) :
  500 <= status r <= 599 -> settles (Resolved r) = false.
Proof.
  intros [Hlo Hhi]. unfold settles, ok.
  apply orb_false_iff; split; apply andb_false_iff.
  - right. apply N.leb_gt. lia.
  - right. apply N.ltb_ge. lia.
Qed.

Lemma client_error_settles (r : response) :
  400 <= status r <= 499 -> settles (Resolved r) = true.
Proof.
  intros [Hlo Hhi]. unfold settles.
  apply orb_true_iff; right. apply andb_true_iff; split.
  - apply N.leb_le. lia.
  - apply N.ltb_lt. lia.
Qed.

Lemma success_settles (r : response) :
  ok r = true -> settles (Resolved r) = true.
Proof. intros H. unfold settles. now rewrite H. Qed.

Lemma failure_retried (e : js_error) :
  err_name e <> str "AbortError" -> settles (Rejected e) = false.
Proof. intros H. now apply jseqb_false. Qed.

Section Loop.

Variable E : env.
Variables (url : jsstring) (o : options).

(** One turn of the loop, case by case. *)
Lemma attempt_eq (retries i : nat) (w : world) :
  attempt E url o retries i w =
  let fr := net E (fetches w) in
  if settles fr then
    match fr with
    | Resolved r => (Normal (Return r), advance [EvFetch (sent_request E url o)] 1 w)
    | Rejected e => (Throw e, advance [EvFetch (sent_request E url o)] 1 w)
    end
  else if (i <? retries - 1)%nat then
    (Normal Continue, advance [EvFetch (sent_request E url o); EvDelay RETRY_DELAY] 1 w)
  else
    match fr with
    | Resolved r => (Normal (Return r), advance [EvFetch (sent_request E url o)] 1 w)
    | Rejected e => (Throw e, advance [EvFetch (sent_request E url o)] 1 w)
    end.
Proof.
  unfold attempt, try_catch, bind, fetch, settles. cbv zeta.
  cbn [emit modify]. fold (sent_request E url o).
  destruct (net E (fetches w)) as [r|e].
  - destruct (ok r || (400 <=? status r) && (status r <? 500)).
    + reflexivity.
    + destruct (i <? retries - 1)%nat.
      * unfold advance, delay, emit, modify, bind, ret. cbn.
        now rewrite <- app_assoc.
      * reflexivity.
  - destruct (jseqb (err_name e) (str "AbortError")).
    + rewrite andb_false_r. reflexivity.
    + rewrite andb_true_r.
      destruct (i <? retries - 1)%nat.
      * unfold advance, delay, emit, modify, bind, ret. cbn.
        now rewrite <- app_assoc.
      * reflexivity.
Qed.
(** The loop stops at the first attempt that settles, or at the last
    turn; it returns what that attempt gave. *)
Lemma retry_loop_spec (retries : nat) :
  forall (remaining i : nat) (w : world),
    (i + remaining = retries)%nat -> (0 < remaining)%nat ->
    exists (n : nat) (evs : list event),
      (1 <= n <= remaining)%nat /\
      retry_loop E url o retries remaining i w
        = (outcome (net E (n - 1 + fetches w)), advance evs n w) /\
      net_trace evs = retry_trace n /\
      dom_trace evs = [] /\
      (forall j, (j < n - 1)%nat ->
                 settles (net E (j + fetches w)) = false) /\
      ((n < remaining)%nat ->
       settles (net E (n - 1 + fetches w)) = true).
Proof.
  induction remaining as [|rem IH]; intros i w Hi Hpos; [lia|].
  cbn [retry_loop]. unfold bind. rewrite attempt_eq. cbv zeta.
  destruct (settles (net E (fetches w))) eqn:Hs.
  - exists 1%nat, [EvFetch (sent_request E url o)]. cbn [Nat.sub Nat.add].
    split; [lia|]. split.
    { destruct (net E (fetches w)); reflexivity. }
    split; [reflexivity|]. split; [reflexivity|].
    split; [intros j Hj; lia|]. intros _. exact Hs.
  - destruct (i <? retries - 1)%nat eqn:Hlt.
    + apply Nat.ltb_lt in Hlt.
      assert (Hrem : (0 < rem)%nat) by lia.
      destruct (IH (S i) (advance [EvFetch (sent_request E url o); EvDelay RETRY_DELAY] 1 w))
        as (n & evs & Hn & Hrun & Htr & Hdom & Hbefore & Hlast);
        [lia | exact Hrem |].
      exists (S n), ([EvFetch (sent_request E url o); EvDelay RETRY_DELAY] ++ evs).
      cbn [fetches advance] in *.
      split; [lia|]. split.
      { rewrite Hrun, advance_advance.
        replace (n - 1 + (1 + fetches w))%nat
          with (S n - 1 + fetches w)%nat by lia.
        replace (n + 1)%nat with (S n) by lia. reflexivity. }
      split.
      { cbn. rewrite Htr. destruct n as [|n']; [lia|]. reflexivity. }
      split; [exact Hdom|]. split.
      { intros j Hj. destruct j as [|j']; [exact Hs|].
        replace (S j' + fetches w)%nat with (j' + (1 + fetches w))%nat
          by lia.
        apply Hbefore. lia. }
      { intros Hlt'.
        replace (S n - 1 + fetches w)%nat
          with (n - 1 + (1 + fetches w))%nat by lia.
        apply Hlast. lia. }
    + apply Nat.ltb_ge in Hlt.
      exists 1%nat, [EvFetch (sent_request E url o)]. cbn [Nat.sub Nat.add].
      split; [lia|]. split.
      { destruct (net E (fetches w)); reflexivity. }
      split; [reflexivity|]. split; [reflexivity|].
      split; [intros j Hj; lia|]. intros Hx. lia.
Qed.

End Loop.

Lemma attempts_net_trace (evs : list event) :
  attempts evs = length (List.filter is_attempt (net_trace evs)).
Proof.
  unfold attempts.
  induction evs as [|e evs IH]; [reflexivity|].
  destruct e; cbn; try exact IH. now rewrite IH.
Qed.

Lemma attempts_retry_trace (n : nat) :
  length (List.filter is_attempt (retry_trace n)) = n.
Proof.
  induction n as [|n IH]; [reflexivity|].
  destruct n as [|m]; [reflexivity|].
  change (retry_trace (S (S m)))
    with (Attempt :: Wait RETRY_DELAY :: retry_trace (S m)).
  cbn [List.filter is_attempt length]. now rewrite IH.
Qed.

End RetryFacts.
Import RetryFacts.

(* ===================================================================== *)
(** * What the functions of the widget do to the page *)
(* ===================================================================== *)

Module PageFacts.

(** Unfolds the plumbing of [M] and reduces the field accesses. *)
Ltac run :=
  unfold emit, appendChild;
  unfold bind, ret, throw, lift, modify, gets, try_catch, try_finally;
  cbn [children input_value input_disabled button_disabled button_content
       button_opacity intervals next_handle fetches dates log pending_timeouts
       set_children set_input_value set_disabled set_button set_timers
       set_fetches set_dates set_pending_timeouts fst snd].

Section WithEnv.

Variable E : env.

Lemma addMessage_text (text : jsstring) (s : sender) (w : world) :
  addMessage E (JStr text) s w
  = (Normal tt,
     append_node (MessageDiv s (render s text) (clock E (dates w))) (tick w)).
Proof. destruct s; reflexivity. Qed.

Lemma addMessage_bot_not_text (v : json) (w : world) :
  (forall text, v <> JStr text) ->
  addMessage E v Bot w
  = (Throw (TypeError "text.replace is not a function"), tick w).
Proof.
  intros Hv. destruct v; try reflexivity. now destruct (Hv s).
Qed.

Lemma setLoadingState_true (w : world) :
  setLoadingState E true w = (Normal tt, loading_on w).
Proof.
  unfold setLoadingState, loading_on, appendChild, setInterval. run.
  now rewrite <- app_assoc.
Qed.

Lemma remove_indicator_none (ns : list node) :
  List.find (holds_indicator_id E) ns = None -> remove_indicator E ns = ns.
Proof.
  induction ns as [|n ns IH]; cbn [List.find remove_indicator];
    [reflexivity|].
  destruct (holds_indicator_id E n); [discriminate|].
  intros H. now rewrite IH.
Qed.

Lemma setLoadingState_false (w : world) :
  setLoadingState E false w = (Normal tt, loading_off E w).
Proof.
  unfold setLoadingState, loading_off, off_events, off_intervals,
    clearInterval, typing_indicator. run.
  destruct (List.find (holds_indicator_id E) (children w)) as [n|] eqn:Hfind.
  - destruct n as [s body time | h | isUser content time | text]; run;
      try reflexivity.
    destruct (h =? 0)%nat; cbn [negb]; run; now rewrite <- ?app_assoc.
  - rewrite (remove_indicator_none _ Hfind).
    now rewrite app_nil_r.
Qed.

Lemma fetchWithRetry_spec (url : jsstring) (o : options) (w : world) :
  exists (n : nat) (evs : list event),
    (1 <= n <= 3)%nat /\
    fetchWithRetry E url o MAX_RETRIES w
      = (outcome (net E (n - 1 + fetches w)), advance evs n w) /\
    net_trace evs = retry_trace n /\
    dom_trace evs = [] /\
    (forall j, (j < n - 1)%nat ->
               settles (net E (j + fetches w)) = false) /\
    ((n < 3)%nat -> settles (net E (n - 1 + fetches w)) = true).
Proof.
  unfold fetchWithRetry, MAX_RETRIES.
  apply retry_loop_spec; lia.
Qed.

(** The [try] block, once the retry loop has handed back [c]: it either
    appends one assistant entry and completes, or throws with nothing
    appended. *)
Lemma dispatch_from (message : jsstring) (w : world)
    (c : completion (option response)) (n : nat) (evs : list event) :
  fetchWithRetry E (origin E ++ str "/api/chat") (chat_options message)
    MAX_RETRIES w = (c, advance evs n w) ->
  (exists text,
      dispatch E message w
      = (Normal tt,
         append_node
           (MessageDiv Bot (InnerHTML (bot_markup text)) (clock E (dates w)))
           (tick (advance evs n w))))
  \/
  (exists e d, (d <= 1)%nat /\
      dispatch E message w = (Throw e, ticks d (advance evs n w))).
Proof.
  intros Hrun.
  destruct (dispatch E message w) as [c' w2] eqn:Hd.
  unfold dispatch in Hd. unfold bind at 1 in Hd. rewrite Hrun in Hd.
  destruct c as [[r|]|e].
  2:{ right. eexists _, 0%nat. split; [lia|]. now rewrite <- Hd. }
  2:{ right. exists e, 0%nat. split; [lia|]. now rewrite <- Hd. }
  unfold bind at 1, lift at 1 in Hd.
  destruct (json_body r) as [data|e].
  2:{ right. exists e, 0%nat. split; [lia|]. now rewrite <- Hd. }
  destruct (ok r); cbn [negb] in Hd; unfold bind at 1, lift at 1 in Hd.
  - destruct (get_prop "response" data) as [reply|e].
    2:{ right. exists e, 0%nat. split; [lia|]. now rewrite <- Hd. }
    destruct (truthy reply).
    + destruct reply as [v|]; cbn [from_option id] in Hd.
      * destruct v as [| b | num | text | items | props];
          try (right; eexists _, 1%nat; split; [lia|];
               rewrite addMessage_bot_not_text in Hd by discriminate;
               now rewrite <- Hd).
        left. exists text. rewrite addMessage_text in Hd. now rewrite <- Hd.
      * right; eexists _, 1%nat; split; [lia|].
        rewrite addMessage_bot_not_text in Hd by discriminate.
        now rewrite <- Hd.
    + left. exists MSG_FALLBACK. rewrite addMessage_text in Hd.
      now rewrite <- Hd.
  - right.
    destruct (get_prop "error" data) as [error|e].
    2:{ exists e, 0%nat. split; [lia|]. now rewrite <- Hd. }
    destruct (truthy error).
    + destruct (to_string (default JNull error));
        eexists _, 0%nat; (split; [lia|]); now rewrite <- Hd.
    + eexists _, 0%nat; (split; [lia|]); now rewrite <- Hd.
Qed.

Lemma dispatch_spec (message : jsstring) (w : world) :
  exists (n : nat) (evs : list event),
    (1 <= n <= 3)%nat /\ net_trace evs = retry_trace n /\
    dom_trace evs = [] /\
    ((exists text,
        dispatch E message w
        = (Normal tt,
           append_node
             (MessageDiv Bot (InnerHTML (bot_markup text)) (clock E (dates w)))
             (tick (advance evs n w))))
     \/
     (exists e d, (d <= 1)%nat /\
        dispatch E message w = (Throw e, ticks d (advance evs n w)))).
Proof.
  destruct (fetchWithRetry_spec (origin E ++ str "/api/chat")
              (chat_options message) w)
    as (n & evs & Hn & Hrun & Htr & Hdom & _ & _).
  exists n, evs. split; [exact Hn|]. split; [exact Htr|].
  split; [exact Hdom|].
  exact (dispatch_from message w _ n evs Hrun).
Qed.

(** A dispatch, start to end: the user's entry, the indicator, the
    network attempts, one entry for the outcome, the indicator gone. *)
Lemma sendMessage_run_from (w : world)
    (c : completion (option response)) (n : nat) (evs : list event) :
  trim (input_value w) <> [] ->
  fetchWithRetry E (origin E ++ str "/api/chat")
    (chat_options (trim (input_value w))) MAX_RETRIES (begun E w)
  = (c, advance evs n (begun E w)) ->
  exists (d : nat) (s : sender) (body : rendering),
    (d <= 1)%nat /\ rendered_outcome E s body /\
    sendMessage E w
    = (Normal tt,
       loading_off E
         (append_node
            (MessageDiv s body (clock E (d + S (dates w))))
            (tick (ticks d (advance evs n (begun E w)))))).
Proof.
  intros Hmsg Hloop.
  unfold sendMessage. unfold bind at 1, gets at 1.
  apply jseqb_false in Hmsg. rewrite Hmsg.
  unfold bind at 1. rewrite addMessage_text. cbn [render].
  unfold bind at 1, modify at 1.
  unfold bind at 1. rewrite setLoadingState_true.
  fold (user_entry E w). fold (begun E w).
  destruct (dispatch_from (trim (input_value w)) (begun E w) c n evs Hloop)
    as [[text Hrun] | (e & d & Hd & Hrun)].
  - exists 0%nat, Bot, (InnerHTML (bot_markup text)).
    split; [lia|]. split; [left; split; [reflexivity | now exists text]|].
    unfold try_finally, try_catch. rewrite Hrun.
    rewrite setLoadingState_false. reflexivity.
  - exists d, Error, (TextContent (errorMessage (onLine E) e)).
    split; [exact Hd|]. split; [right; split; [reflexivity | now exists e]|].
    unfold try_finally, try_catch. rewrite Hrun.
    rewrite addMessage_text, setLoadingState_false. reflexivity.
Qed.

Lemma sendMessage_run (w : world) :
  trim (input_value w) <> [] ->
  exists (n : nat) (evs : list event) (d : nat) (s : sender)
         (body : rendering),
    (1 <= n <= 3)%nat /\ net_trace evs = retry_trace n /\
    dom_trace evs = [] /\
    (d <= 1)%nat /\ rendered_outcome E s body /\
    sendMessage E w
    = (Normal tt,
       loading_off E
         (append_node
            (MessageDiv s body (clock E (d + S (dates w))))
            (tick (ticks d (advance evs n (begun E w)))))).
Proof.
  intros Hmsg.
  destruct (fetchWithRetry_spec (origin E ++ str "/api/chat")
              (chat_options (trim (input_value w))) (begun E w))
    as (n & evs & Hn & Hloop & Htr & Hdom & _ & _).
  destruct (sendMessage_run_from w _ n evs Hmsg Hloop)
    as (d & s & body & Hd & Hs & Hrun).
  exists n, evs, d, s, body.
  repeat (split; [first [exact Hn | exact Htr | exact Hdom | exact Hd
                         | exact Hs]|]).
  exact Hrun.
Qed.

End WithEnv.

Lemma net_trace_app (l1 l2 : list event) :
  net_trace (l1 ++ l2) = net_trace l1 ++ net_trace l2.
Proof.
  induction l1 as [|e l1 IH]; [reflexivity|].
  destruct e; cbn; now rewrite ?IH.
Qed.

Lemma net_trace_off (E : env) (w : world) : net_trace (off_events E w) = [].
Proof.
  unfold off_events. destruct (typing_indicator E w) as [[]|]; try reflexivity.
  destruct (dotInterval =? 0)%nat; reflexivity.
Qed.

End PageFacts.
Import PageFacts.

(* ===================================================================== *)
(** * The retry policy *)
(* ===================================================================== *)

Lemma transient_not_settled (fr : fetch_result) :
  transient fr -> settles fr = false.
Proof.
  destruct fr as [r|e]; cbn [transient].
  - apply server_error_retried.
  - apply failure_retried.
Qed.

(** The policy of the loop, for any request and from any state. *)
Lemma retry_policy_of_loop
    (E : env) (url : jsstring) (o : options) (w : world) :
  exists (n : nat) (evs : list event),
    (1 <= n <= 3)%nat /\
    fetchWithRetry E url o MAX_RETRIES w
      = (outcome (net E (n - 1 + fetches w)), advance evs n w) /\
    attempts evs = n /\
    net_trace evs = retry_trace n /\
    (forall j r, (j < n)%nat -> net E (j + fetches w) = Resolved r ->
                 ok r = true \/ 400 <= status r <= 499 ->
                 n = S j) /\
    (forall j, (j < n)%nat -> transient (net E (j + fetches w)) ->
               (S j < 3)%nat -> (S j < n)%nat) /\
    (forall r0 r1 r2,
        net E (fetches w) = Resolved r0 -> status r0 = 500 ->
        net E (1 + fetches w) = Resolved r1 -> status r1 = 500 ->
        net E (2 + fetches w) = Resolved r2 -> status r2 = 500 ->
        n = 3%nat /\
        net_trace evs
          = [Attempt; Wait 2000; Attempt; Wait 2000; Attempt]) /\
    (forall r,
        net E (fetches w) = Resolved r -> status r = 400 ->
        n = 1%nat /\ net_trace evs = [Attempt]).
Proof.
  destruct (fetchWithRetry_spec E url o w)
    as (n & evs & Hn & Hrun & Htr & _ & Hbefore & Hlast).
  assert (Hstop : forall j, (j < n)%nat ->
                    settles (net E (j + fetches w)) = true -> n = S j).
  { intros j Hj Hs.
    destruct (Nat.lt_ge_cases j (n - 1)) as [Hlt|Hge]; [|lia].
    rewrite (Hbefore j Hlt) in Hs. discriminate. }
  assert (Hmore : forall j, (j < n)%nat ->
                    settles (net E (j + fetches w)) = false ->
                    (S j < 3)%nat -> (S j < n)%nat).
  { intros j Hj Hs Hcap.
    destruct (Nat.lt_ge_cases j (n - 1)) as [Hlt|Hge]; [lia|].
    assert (Hjn : j = (n - 1)%nat) by lia. subst j.
    destruct (Nat.lt_ge_cases n 3) as [Hn3|Hn3]; [|lia].
    rewrite (Hlast Hn3) in Hs. discriminate. }
  exists n, evs.
  split; [exact Hn|]. split; [exact Hrun|].
  split; [now rewrite attempts_net_trace, Htr, attempts_retry_trace|].
  split; [exact Htr|].
  split.
  { intros j r Hj Hr [Hok|H4]; apply (Hstop j Hj); rewrite Hr.
    - now apply success_settles.
    - now apply client_error_settles. }
  split.
  { intros j Hj Ht. apply (Hmore j Hj). now apply transient_not_settled. }
  split.
  - intros r0 r1 r2 H0 S0 H1 S1 H2 S2.
    assert (Hs0 : settles (net E (0 + fetches w)) = false).
    { cbn [Nat.add]. rewrite H0. apply server_error_retried. lia. }
    assert (Hs1 : settles (net E (1 + fetches w)) = false).
    { rewrite H1. apply server_error_retried. lia. }
    assert (H1n : (1 < n)%nat) by (apply (Hmore 0%nat); [lia | exact Hs0 | lia]).
    assert (H2n : (2 < n)%nat) by (apply (Hmore 1%nat); [lia | exact Hs1 | lia]).
    assert (Hn3 : n = 3%nat) by lia.
    split; [exact Hn3|]. rewrite Htr, Hn3. reflexivity.
  - intros r Hr Sr.
    assert (Hn1 : n = 1%nat).
    { apply (Hstop 0%nat); [lia|]. cbn [Nat.add]. rewrite Hr.
      apply client_error_settles. lia. }
    split; [exact Hn1|]. rewrite Htr, Hn1. reflexivity.
Qed.

(** C1. A dispatch makes between one and three attempts, with the fixed
    delay of 2000 ms between consecutive ones and nothing else on the
    network. A response that is [ok] or has a 4xx status ends the loop at
    once and is returned. A 5xx response, or a failure other than an
    [AbortError], is followed by another attempt as long as fewer than
    three were made. The loop hands back what its last attempt gave, the
    response or the error. Three 500 responses make exactly three
    attempts; a 400 response makes exactly one, with no delay. *)
Theorem fetchWithRetry_retry_policy
    (E : env) (url : jsstring) (o : options) (w : world) :
  (exists (n : nat) (evs : list event),
      (1 <= n <= 3)%nat /\
      fetchWithRetry E url o MAX_RETRIES w
        = (outcome (net E (n - 1 + fetches w)), advance evs n w) /\
      attempts evs = n /\
      net_trace evs = retry_trace n /\
      (forall j r, (j < n)%nat -> net E (j + fetches w) = Resolved r ->
                   ok r = true \/ 400 <= status r <= 499 ->
                   n = S j) /\
      (forall j, (j < n)%nat -> transient (net E (j + fetches w)) ->
                 (S j < 3)%nat -> (S j < n)%nat) /\
      (forall r0 r1 r2,
          net E (fetches w) = Resolved r0 -> status r0 = 500 ->
          net E (1 + fetches w) = Resolved r1 -> status r1 = 500 ->
          net E (2 + fetches w) = Resolved r2 -> status r2 = 500 ->
          n = 3%nat /\
          net_trace evs
            = [Attempt; Wait 2000; Attempt; Wait 2000; Attempt]) /\
      (forall r,
          net E (fetches w) = Resolved r -> status r = 400 ->
          n = 1%nat /\ net_trace evs = [Attempt])) /\
  (trim (input_value w) <> [] ->
   exists (n : nat) (evs : list event) (w' : world),
     (1 <= n <= 3)%nat /\
     sendMessage E w = (Normal tt, w') /\
     log w' = log w ++ evs /\
     attempts evs = n /\
     net_trace evs = retry_trace n /\
     (forall r0 r1 r2,
         net E (fetches w) = Resolved r0 -> status r0 = 500 ->
         net E (1 + fetches w) = Resolved r1 -> status r1 = 500 ->
         net E (2 + fetches w) = Resolved r2 -> status r2 = 500 ->
         n = 3%nat) /\
     (forall r,
         net E (fetches w) = Resolved r -> status r = 400 -> n = 1%nat)).
Proof.
  split; [apply retry_policy_of_loop|].
  intros Hmsg.
  destruct (retry_policy_of_loop E (origin E ++ str "/api/chat")
              (chat_options (trim (input_value w))) (begun E w))
    as (n & evs & Hn & Hloop & _ & Htr & _ & _ & H500 & H400).
  destruct (sendMessage_run_from E w _ n evs Hmsg Hloop)
    as (d & s & body & _ & _ & Hrun).
  set (out := MessageDiv s body (clock E (d + S (dates w)))) in *.
  set (w3 := append_node out (tick (ticks d (advance evs n (begun E w))))) in *.
  assert (Hnet : net_trace
                   ([EvAppend (user_entry E w);
                     EvAppend (TypingDiv (S (next_handle w)));
                     EvSetInterval (S (next_handle w)) 500]
                      ++ evs ++ [EvAppend out] ++ off_events E w3)
                 = retry_trace n).
  { rewrite !net_trace_app, Htr, net_trace_off. cbn [net_trace app].
    now rewrite app_nil_r. }
  exists n,
    ([EvAppend (user_entry E w);
      EvAppend (TypingDiv (S (next_handle w)));
      EvSetInterval (S (next_handle w)) 500]
       ++ evs ++ [EvAppend out] ++ off_events E w3),
    (loading_off E w3).
  split; [exact Hn|]. split; [exact Hrun|].
  split.
  { cbn. now rewrite <- !app_assoc. }
  split; [now rewrite attempts_net_trace, Hnet, attempts_retry_trace|].
  split; [exact Hnet|].
  split.
  - intros r0 r1 r2 H0 S0 H1 S1 H2 S2.
    now destruct (H500 r0 r1 r2 H0 S0 H1 S1 H2 S2).
  - intros r Hr Sr. now destruct (H400 r Hr Sr).
Qed.

(** Three 500 responses in a row: three attempts, two delays, and the
    third response is what comes back; the send that meets them makes
    three attempts as well. *)
Lemma fetchWithRetry_retry_policy_witness :
  (exists evs : list event,
      fetchWithRetry (env_with (always reply_500)) chat_url
        (chat_options (str "hi")) MAX_RETRIES (fresh_page [])
      = (Normal (Some reply_500), advance evs 3 (fresh_page [])) /\
      attempts evs = 3%nat /\
      net_trace evs = [Attempt; Wait 2000; Attempt; Wait 2000; Attempt]) /\
  (exists (evs : list event) (w' : world),
      sendMessage (env_with (always reply_500)) (fresh_page (str "hi"))
      = (Normal tt, w') /\
      log w' = [] ++ evs /\
      attempts evs = 3%nat).
Proof.
  split.
  - destruct (fetchWithRetry_retry_policy (env_with (always reply_500))
                chat_url (chat_options (str "hi")) (fresh_page []))
      as [(n & evs & _ & Hrun & Hatt & _ & _ & _ & H500 & _) _].
    destruct (H500 reply_500 reply_500 reply_500
                eq_refl eq_refl eq_refl eq_refl eq_refl eq_refl)
      as [Hn Htr].
    exists evs. rewrite Hn in Hrun, Hatt.
    split; [exact Hrun|]. split; [exact Hatt | exact Htr].
  - destruct (fetchWithRetry_retry_policy (env_with (always reply_500))
                chat_url (chat_options (str "hi")) (fresh_page (str "hi")))
      as [_ Hsend].
    destruct Hsend as (n & evs & w' & _ & Hrun & Hlog & Hatt & _ & H500 & _).
    { vm_compute. discriminate. }
    pose proof (H500 reply_500 reply_500 reply_500
                  eq_refl eq_refl eq_refl eq_refl eq_refl eq_refl) as Hn.
    exists evs, w'. rewrite Hn in Hatt.
    split; [exact Hrun|]. split; [exact Hlog | exact Hatt].
Defined.

(* ===================================================================== *)
(** * Dispatching a message *)
(* ===================================================================== *)

Section TraceFacts.


Lemma is_typing_strip (n : node) : is_typing (strip n) = is_typing n.
Proof. destruct n as [s [] time | | |]; reflexivity. Qed.

Lemma as_appended_strip (n : node) : as_appended (strip n) = as_appended n.
Proof. destruct n as [s [] time | | |]; reflexivity. Qed.

(** Removing the element found under the id [typing-indicator] changes
    no entry of the transcript: an indicator was no entry, and an entry
    that loses an element is still the entry that was appended. *)
Lemma transcript_remove_indicator (E : env) (ns : list node) :
  map as_appended
    (List.filter (fun n => negb (is_typing n)) (remove_indicator E ns))
  = map as_appended (List.filter (fun n => negb (is_typing n)) ns).
Proof.
  induction ns as [|n ns IH]; [reflexivity|].
  cbn [remove_indicator List.filter].
  destruct (holds_indicator_id E n).
  - destruct (is_typing n) eqn:Hn; cbn [negb]; [reflexivity|].
    cbn [List.filter]. rewrite is_typing_strip, Hn. cbn [negb map].
    now rewrite as_appended_strip.
  - cbn [List.filter]. destruct (negb (is_typing n)); cbn [map];
      now rewrite IH.
Qed.




End TraceFacts.

Lemma appended_entries_app (l1 l2 : list event) :
  appended_entries (l1 ++ l2) = appended_entries l1 ++ appended_entries l2.
Proof. apply omap_app. Qed.

Lemma appended_entries_net (evs : list event) :
  dom_trace evs = [] -> appended_entries evs = [].
Proof.
  induction evs as [|e evs IH]; [reflexivity|].
  destruct e; cbn; try discriminate; exact IH.
Qed.

Lemma appended_entries_off (E : env) (w : world) :
  appended_entries (off_events E w) = [].
Proof.
  unfold off_events. destruct (typing_indicator E w) as [[]|]; try reflexivity.
  destruct (dotInterval =? 0)%nat; reflexivity.
Qed.

(** The transcript when a dispatch is over: whatever the [finally]
    block removed, the entries are those of before, the user's and the
    one for the outcome. *)
Lemma transcript_after_dispatch (E : env) (w : world) (evs : list event)
    (n d : nat) (out : node) :
  is_typing out = false ->
  as_appended out = out ->
  transcript
    (loading_off E
       (append_node out (tick (ticks d (advance evs n (begun E w))))))
  = transcript w ++ [user_entry E w; out].
Proof.
  intros Hout Hsame. unfold transcript, entries.
  cbn [children loading_off]. rewrite transcript_remove_indicator.
  cbn [children append_node tick ticks advance begun loading_on
       set_input_value set_dates].
  rewrite <- !app_assoc, !List.filter_app, !map_app.
  cbn [List.filter is_typing negb user_entry app map].
  rewrite Hout. cbn [negb map app]. now rewrite Hsame.
Qed.

(** C6. With an input that is empty or all white space, [sendMessage]
    returns at once and leaves everything as it was: no request goes out,
    nothing is appended, the controls are not touched. *)
Theorem sendMessage_blank_input_noop (E : env) (w : world) :
  forallb is_whitespace (input_value w) = true ->
  sendMessage E w = (Normal tt, w).
Proof.
  intros Hblank. unfold sendMessage, bind, gets.
  rewrite (trim_blank _ Hblank). reflexivity.
Qed.

(** A line of blanks, a tab and a line break: nothing happens, whatever
    the network would have answered. *)
Lemma sendMessage_blank_input_noop_witness :
  sendMessage (env_with (always reply_ok)) (fresh_page [32; 9; 10; 32])
  = (Normal tt, fresh_page [32; 9; 10; 32]).
Proof.
  apply (sendMessage_blank_input_noop (env_with (always reply_ok))
           (fresh_page [32; 9; 10; 32])).
  reflexivity.
Defined.



(* ===================================================================== *)
(** * The typing indicator and the outcome *)
(* ===================================================================== *)


Section IndicatorFacts.

Variable E : env.





End IndicatorFacts.



(* ===================================================================== *)
(** * The failure message *)
(* ===================================================================== *)

(** What the [catch] and [finally] blocks make of an error thrown by the
    [try] block. *)
Lemma sendMessage_catch (E : env) (w : world) (e : js_error) (w2 : world) :
  trim (input_value w) <> [] ->
  dispatch E (trim (input_value w)) (begun E w) = (Throw e, w2) ->
  sendMessage E w
  = (Normal tt,
     loading_off E
       (append_node
          (MessageDiv Error (TextContent (errorMessage (onLine E) e))
             (clock E (dates w2)))
          (tick w2))).
Proof.
  intros Hmsg Hthrow.
  unfold sendMessage. unfold bind at 1, gets at 1.
  apply jseqb_false in Hmsg. rewrite Hmsg.
  unfold bind at 1. rewrite addMessage_text. cbn [render].
  unfold bind at 1, modify at 1.
  unfold bind at 1. rewrite setLoadingState_true.
  fold (user_entry E w). fold (begun E w).
  unfold try_finally, try_catch. rewrite Hthrow.
  rewrite addMessage_text, setLoadingState_false. reflexivity.
Qed.

(** C5. When the [try] block of a dispatch throws, the entry shown is an
    error entry whose text is chosen in this order: off line, the
    connectivity message; else a transport failure (the text has
    "Failed to fetch", or the error is a [TypeError]), the
    service-unreachable message; else the text has "loading", the
    warming-up message; else the text has "rate limit", the rate-limited
    message; else a generic message that carries the text of the error:
    "Error: " followed by it, or the fixed apology when the text is
    empty. *)
Theorem errorMessage_priority (online : bool) (error : js_error) :
  (forall (E : env) (w w2 : world),
      trim (input_value w) <> [] ->
      dispatch E (trim (input_value w)) (begun E w) = (Throw error, w2) ->
      exists time w',
        sendMessage E w = (Normal tt, w') /\
        transcript w'
        = transcript w
            ++ [user_entry E w;
                MessageDiv Error
                  (TextContent (errorMessage (onLine E) error)) time]) /\
  (online = false -> errorMessage online error = MSG_OFFLINE) /\
  (online = true -> transport_failure error = true ->
   errorMessage online error = MSG_UNREACHABLE) /\
  (online = true -> transport_failure error = false ->
   says_loading error = true ->
   errorMessage online error = MSG_WARMING) /\
  (online = true -> transport_failure error = false ->
   says_loading error = false -> says_rate_limit error = true ->
   errorMessage online error = MSG_RATE) /\
  (online = true -> transport_failure error = false ->
   says_loading error = false -> says_rate_limit error = false ->
   errorMessage online error
   = (if jseqb (err_message error) [] then MSG_DEFAULT
      else str "Error: " ++ err_message error) /\
   exists pre post,
     errorMessage online error = pre ++ err_message error ++ post).
Proof.
  split.
  { intros E w w2 Hmsg Hthrow.
    eexists _, _. split; [exact (sendMessage_catch E w error w2 Hmsg Hthrow)|].
    unfold transcript, entries.
    cbn [children loading_off append_node tick set_dates].
    rewrite transcript_remove_indicator.
    assert (Hc : children w2 = children (begun E w)).
    { destruct (dispatch_spec E (trim (input_value w)) (begun E w))
        as (n & evs & _ & _ & _ & [[text Hrun] | (e & d & _ & Hrun)]);
        rewrite Hrun in Hthrow; [discriminate|].
      injection Hthrow as _ <-. reflexivity. }
    rewrite Hc. cbn [children begun loading_on set_input_value append_node].
    rewrite <- !app_assoc, !List.filter_app, !map_app. reflexivity. }
  unfold errorMessage, transport_failure, says_loading, says_rate_limit.
  split; [|split; [|split; [|split]]].
  - intros ->. reflexivity.
  - intros -> H. cbn [negb]. now rewrite H.
  - intros -> H1 H2. cbn [negb]. now rewrite H1, H2.
  - intros -> H1 H2 H3. cbn [negb]. now rewrite H1, H2, H3.
  - intros -> H1 H2 H3. cbn [negb]. rewrite H1, H2, H3.
    destruct (jseqb (err_message error) []) eqn:Hempty; cbn [negb].
    + split; [reflexivity|].
      apply jseqb_true in Hempty. rewrite Hempty.
      exists [], MSG_DEFAULT. reflexivity.
    + split; [reflexivity|].
      exists (str "Error: "), []. now rewrite app_nil_r.
Qed.

(** A server that answers 500 with its own error text three times: the
    entry carries that text. And on line, an error that speaks of a rate
    limit gets the rate-limited message. *)
Lemma errorMessage_priority_witness :
  (exists time w',
      sendMessage (env_with (always reply_500)) (fresh_page (str "hi"))
        = (Normal tt, w') /\
      transcript w'
      = [MessageDiv User (TextContent (str "hi")) (str "10:30");
         MessageDiv Error (TextContent (str "Error: Internal error")) time]) /\
  errorMessage true (JsError (str "Error") (str "rate limit exceeded"))
  = MSG_RATE.
Proof.
  split.
  - destruct (errorMessage_priority true
                (JsError (str "Error") (str "Internal error"))) as [Hsend _].
    apply (Hsend (env_with (always reply_500)) (fresh_page (str "hi"))
             (snd (dispatch (env_with (always reply_500)) (str "hi")
                     (begun (env_with (always reply_500))
                        (fresh_page (str "hi")))))).
    + vm_compute. discriminate.
    + vm_compute. reflexivity.
  - apply (errorMessage_priority true
             (JsError (str "Error") (str "rate limit exceeded")));
      reflexivity.
Defined.

(* ===================================================================== *)
(** * The transcript under the operations of the widget *)
(* ===================================================================== *)

Section TranscriptFacts.

Variable E : env.



End TranscriptFacts.


Section EntryFacts.

Variable E : env.










End EntryFacts.



(* ===================================================================== *)
(** * Facts about the matcher and the formatter *)
(* ===================================================================== *)

Section MatcherFacts.

Lemma last_cons_cons {A : Type} (d x : A) (l : list A) :
  List.last (x :: l) d = List.last l x.
Proof.
  revert d x. induction l as [|y l IH]; intros d x; [reflexivity|].
  change (List.last (x :: y :: l) d) with (List.last (y :: l) d).
  now rewrite (IH d y), (IH x y).
Qed.

(** The search of [replace] passes over the code units of a match. *)
Lemma replace_loop_skip (ml : bool) (r : regex) (tmpl : list tpiece) :
  forall (a : jsstring) (prev : option N) (b : jsstring),
    replace_loop ml r tmpl (length a) prev (a ++ b)
    = replace_loop ml r tmpl O (List.last (map Some a) prev) b.
Proof.
  induction a as [|c a IH]; intros prev b.
  - destruct b; reflexivity.
  - cbn [length app replace_loop]. rewrite IH.
    f_equal. cbn [map]. now rewrite last_cons_cons.
Qed.

(** Where the pattern matches nowhere, [replace] returns its input. *)
Lemma replace_loop_no_match (ml : bool) (r : regex) (tmpl : list tpiece) :
  forall (s : jsstring) (prev : option N),
    (forall prev' s1 s2, s = s1 ++ s2 -> exec_at ml r prev' s2 = None) ->
    replace_loop ml r tmpl O prev s = s.
Proof.
  induction s as [|c s IH]; intros prev Hnone.
  - cbn [replace_loop]. now rewrite (Hnone prev [] [] eq_refl).
  - cbn [replace_loop]. rewrite (Hnone prev [] (c :: s) eq_refl).
    f_equal. apply IH. intros prev' s1 s2 ->.
    apply (Hnone prev' (c :: s1) s2). reflexivity.
Qed.

(** [split] on a text without the first code unit of the separator. *)
Lemma split_loop_plain (sep : jsstring) (c0 : N) (sep' : jsstring) :
  sep = c0 :: sep' ->
  forall (a cur rest : jsstring),
    forallb (fun c => negb (c =? c0)) a = true ->
    (rest = [] \/ starts_with sep rest = true) ->
    split_loop sep O cur (a ++ rest)
    = match rest with
      | [] => [rev cur ++ a]
      | _ :: rest' =>
          (rev cur ++ a) :: split_loop sep (Nat.pred (length sep)) [] rest'
      end.
Proof.
  intros ->. induction a as [|c a IH]; intros cur rest Hall Hrest.
  - rewrite app_nil_r. cbn [app].
    destruct Hrest as [-> | Hsw]; [reflexivity|].
    destruct rest as [|x rest']; [discriminate|].
    cbn [split_loop]. now rewrite Hsw.
  - cbn [forallb] in Hall. apply andb_prop in Hall as [Hc Hall].
    cbn [app split_loop starts_with].
    apply negb_true_iff in Hc. rewrite N.eqb_sym in Hc. rewrite Hc.
    cbn [andb]. rewrite (IH (c :: cur) rest Hall Hrest).
    cbn [rev]. rewrite <- !app_assoc. reflexivity.
Qed.

End MatcherFacts.

Section FormatterFacts.

Lemma header_re_shape : header_re = line_re 35.
Proof. reflexivity. Qed.

Lemma bullet_re_shape : bullet_re = line_re 45.
Proof. reflexivity. Qed.

Lemma exec_line_no_mark (mark : N) (prev : option N) (s : jsstring) :
  match s with [] => True | c :: _ => c <> mark end ->
  exec_at true (line_re mark) prev s = None.
Proof.
  intros Hs. unfold exec_at, line_re. cbn [rmatch m_prev m_rest m_cap].
  destruct (at_line_start true prev); [|reflexivity].
  destruct s as [|c s]; [reflexivity|].
  apply N.eqb_neq in Hs. now rewrite Hs.
Qed.

Lemma exec_bold_no_star (prev : option N) (s : jsstring) :
  match s with [] => True | c :: _ => c <> 42 end ->
  exec_at false bold_re prev s = None.
Proof.
  intros Hs. unfold exec_at, bold_re. cbn [rmatch m_prev m_rest m_cap].
  destruct s as [|c s]; [reflexivity|].
  apply N.eqb_neq in Hs. now rewrite Hs.
Qed.

(** Every tail of a text without [c] starts with something else. *)
Lemma tail_avoids (c : N) (s s1 s2 : jsstring) :
  forallb (fun x => negb (x =? c)) s = true ->
  s = s1 ++ s2 ->
  match s2 with [] => True | x :: _ => x <> c end.
Proof.
  intros Hall ->. rewrite forallb_app in Hall.
  apply andb_prop in Hall as [_ Hall].
  destruct s2 as [|x s2]; [exact I|].
  cbn [forallb] in Hall. apply andb_prop in Hall as [Hx _].
  apply negb_true_iff in Hx. now apply N.eqb_neq.
Qed.

Lemma split_plain (c0 : N) (sep' s : jsstring) :
  forallb (fun c => negb (c =? c0)) s = true ->
  split (c0 :: sep') s = [s].
Proof.
  intros Hs. unfold split. rewrite <- (app_nil_r s) at 1.
  rewrite (split_loop_plain (c0 :: sep') c0 sep' eq_refl s [] [] Hs);
    [reflexivity | now left].
Qed.

End FormatterFacts.

(* ===================================================================== *)
(** * What the formatter keeps *)
(* ===================================================================== *)

Section KeptFacts.

Lemma kept_of_app (a b : jsstring) : kept_of (a ++ b) = kept_of a ++ kept_of b.
Proof. apply List.filter_app. Qed.

Lemma kept_of_dropped (c : N) (s : jsstring) :
  kept c = false -> kept_of (c :: s) = kept_of s.
Proof. intros Hc. unfold kept_of. cbn [List.filter]. now rewrite Hc. Qed.

Lemma kept_of_sublist (s : jsstring) : kept_of s `sublist_of` s.
Proof.
  induction s as [|c s IH]; [constructor|].
  unfold kept_of. cbn [List.filter]. fold (kept_of s).
  destruct (kept c); now constructor.
Qed.

Lemma kept_of_mono (a b : jsstring) :
  a `sublist_of` b -> kept_of a `sublist_of` kept_of b.
Proof.
  induction 1 as [|c a b _ IH|c a b _ IH]; [constructor| |].
  - unfold kept_of. cbn [List.filter]. fold (kept_of a) (kept_of b).
    destruct (kept c); [now constructor | exact IH].
  - unfold kept_of at 2. cbn [List.filter]. fold (kept_of b).
    destruct (kept c); [now constructor | exact IH].
Qed.

Lemma kept_of_blank (s : jsstring) :
  forallb is_whitespace s = true -> kept_of s = [].
Proof.
  induction s as [|c s IH]; [reflexivity|].
  cbn [forallb]. intros H. apply andb_prop in H as [Hc Hs].
  unfold kept_of. cbn [List.filter]. unfold kept at 1. rewrite Hc.
  rewrite !andb_false_r. now apply IH.
Qed.

(** What a greedy [X+] matched, read off its result. *)
Lemma plus_greedy_inv (p : N -> bool) (k : mstate -> option mstate)
    (cap : option jsstring) (r : mstate) :
  forall l : jsstring,
    plus_greedy p k cap l = Some r ->
    exists (a b : jsstring) (x : N),
      l = a ++ b /\ a <> [] /\ forallb p a = true /\
      k (MState (Some x) b cap) = Some r.
Proof.
  induction l as [|x xs IH]; cbn [plus_greedy]; [discriminate|].
  destruct (p x) eqn:Hx; [|discriminate].
  destruct (plus_greedy p k cap xs) as [r'|] eqn:Hrec.
  - intros [= ->]. destruct (IH eq_refl) as (a & b & y & -> & _ & Ha & Hk).
    exists (x :: a), b, y. cbn [forallb]. rewrite Hx, Ha.
    repeat split; [discriminate | exact Hk].
  - intros Hk. exists [x], xs, x. cbn [forallb]. rewrite Hx.
    repeat split; [discriminate | exact Hk].
Qed.

(** What a lazy [X*?] matched, read off its result. *)
Lemma star_lazy_inv (p : N -> bool) (k : mstate -> option mstate)
    (cap : option jsstring) (r : mstate) :
  forall (l : jsstring) (prev : option N),
    star_lazy p k cap prev l = Some r ->
    exists (a b : jsstring) (prev' : option N),
      l = a ++ b /\ forallb p a = true /\
      k (MState prev' b cap) = Some r.
Proof.
  induction l as [|x xs IH]; intros prev; cbn [star_lazy].
  - destruct (k (MState prev [] cap)) as [r'|] eqn:Hk; [|discriminate].
    intros [= ->]. now exists [], [], prev.
  - destruct (k (MState prev (x :: xs) cap)) as [r'|] eqn:Hk.
    + intros [= ->]. now exists [], (x :: xs), prev.
    + destruct (p x) eqn:Hx; [|discriminate].
      intros Hrec. destruct (IH _ Hrec) as (a & b & prev' & -> & Ha & Hk').
      exists (x :: a), b, prev'. cbn [forallb]. rewrite Hx, Ha.
      now repeat split.
Qed.

(** A match of [/^M\s+(.+)$/m]: the mark, white space, the captured
    text. *)
Lemma exec_line_inv (mark : N) (prev : option N) (s : jsstring)
    (cap : option jsstring) (len : nat) :
  exec_at true (line_re mark) prev s = Some (cap, len) ->
  exists (ws line rest : jsstring),
    s = mark :: ws ++ line ++ rest /\
    forallb is_whitespace ws = true /\
    cap = Some line /\
    len = S (length ws + length line).
Proof.
  unfold exec_at, line_re. cbn [rmatch m_prev m_rest m_cap].
  destruct (at_line_start true prev); [|discriminate].
  destruct s as [|c s]; [discriminate|].
  destruct (c =? mark) eqn:Hc; [|discriminate].
  apply N.eqb_eq in Hc. subst c.
  destruct (plus_greedy _ _ _ s) as [r|] eqn:Hplus; [|discriminate].
  intros [= <- <-].
  apply plus_greedy_inv in Hplus as (ws & b & x & -> & _ & Hws & Hk).
  cbn [rmatch m_prev m_rest m_cap] in Hk.
  apply plus_greedy_inv in Hk as (line & rest & y & -> & _ & _ & Hk).
  cbn [rmatch m_prev m_rest m_cap] in Hk.
  destruct (at_line_end true rest); [|discriminate].
  injection Hk as <-. cbn [m_cap m_rest].
  exists ws, line, rest.
  split; [reflexivity|]. split; [exact Hws|].
  rewrite !length_app. split.
  - f_equal. rewrite Nat.add_sub. apply take_app_length.
  - lia.
Qed.

(** A match of [/\*\*(.*?)\*\*/]: two stars, the captured text, two
    stars. *)
Lemma exec_bold_inv (prev : option N) (s : jsstring)
    (cap : option jsstring) (len : nat) :
  exec_at false bold_re prev s = Some (cap, len) ->
  exists (t rest : jsstring),
    s = 42 :: 42 :: t ++ 42 :: 42 :: rest /\
    cap = Some t /\
    len = (4 + length t)%nat.
Proof.
  unfold exec_at, bold_re. cbn [rmatch m_prev m_rest m_cap].
  destruct s as [|c1 s]; [discriminate|].
  destruct (c1 =? 42) eqn:H1; [|discriminate].
  destruct s as [|c2 s]; [discriminate|].
  destruct (c2 =? 42) eqn:H2; [|discriminate].
  apply N.eqb_eq in H1, H2. subst c1 c2.
  destruct (star_lazy _ _ _ _ s) as [r|] eqn:Hstar; [|discriminate].
  intros [= <- <-].
  apply star_lazy_inv in Hstar as (t & b & prev' & -> & _ & Hk).
  cbn [rmatch m_prev m_rest m_cap] in Hk.
  destruct b as [|c3 b]; [discriminate|].
  destruct (c3 =? 42) eqn:H3; [|discriminate].
  destruct b as [|c4 b]; [discriminate|].
  destruct (c4 =? 42) eqn:H4; [|discriminate].
  apply N.eqb_eq in H3, H4. subst c3 c4.
  injection Hk as <-. cbn [m_cap m_rest].
  exists t, b.
  split; [reflexivity|]. split.
  - f_equal. rewrite length_app, Nat.add_sub. apply take_app_length.
  - cbn [length]. rewrite !length_app. cbn [length]. lia.
Qed.

Lemma replace_loop_keeps (ml : bool) (r : regex) (tmpl : list tpiece) :
  keeps_matches ml r tmpl ->
  forall (m : nat) (s : jsstring) (prev : option N),
    (length s <= m)%nat ->
    kept_of s `sublist_of` replace_loop ml r tmpl O prev s.
Proof.
  intros Hkeeps.
  induction m as [|m IH]; intros s prev Hlen.
  - destruct s; [|cbn in Hlen; lia]. apply sublist_nil_l.
  - destruct s as [|c s]; [apply sublist_nil_l|].
    cbn [length] in Hlen. cbn [replace_loop].
    assert (Hstep : kept_of (c :: s)
                    `sublist_of` c :: replace_loop ml r tmpl O (Some c) s).
    { unfold kept_of. cbn [List.filter]. fold (kept_of s).
      destruct (kept c); constructor; apply IH; lia. }
    destruct (exec_at ml r prev (c :: s)) as [[cap [|n]]|] eqn:Hexec;
      [| |exact Hstep].
    + now apply sublist_inserts_l.
    + destruct (Hkeeps _ _ _ _ Hexec) as [Hle Hsub].
      cbn [length] in Hle.
      rewrite <- (take_drop n s) at 2.
      pose proof (replace_loop_skip ml r tmpl (take n s) (Some c) (drop n s))
        as Hskip.
      rewrite length_take_le in Hskip by lia. rewrite Hskip.
      rewrite <- (take_drop (S n) (c :: s)) at 1.
      rewrite kept_of_app. apply sublist_app; [exact Hsub|].
      cbn [drop]. apply IH. rewrite length_drop. lia.
Qed.

Lemma line_re_keeps (mark : N) (lit : jsstring) :
  kept mark = false ->
  keeps_matches true (line_re mark) [TLit lit; TCap1].
Proof.
  intros Hmark prev s cap len Hexec.
  apply exec_line_inv in Hexec as (ws & line & rest & -> & Hws & -> & ->).
  split; [cbn [length]; rewrite !length_app; lia|].
  change (mark :: ws ++ line ++ rest) with ((mark :: ws) ++ line ++ rest).
  rewrite app_assoc.
  rewrite take_app_length' by (cbn [length]; rewrite length_app; cbn; lia).
  change ((mark :: ws) ++ line) with (mark :: ws ++ line).
  unfold kept_of. cbn [List.filter]. rewrite Hmark. fold (kept_of (ws ++ line)).
  rewrite kept_of_app, (kept_of_blank ws Hws). cbn [app].
  unfold expand. cbn [map expand_piece concat from_option id].
  rewrite app_nil_r. apply sublist_inserts_l, kept_of_sublist.
Qed.

Lemma header_keeps : keeps_matches true header_re strong_tmpl.
Proof.
  intros prev s cap len Hexec. rewrite header_re_shape in Hexec.
  apply exec_line_inv in Hexec as (ws & line & rest & -> & Hws & -> & ->).
  split; [cbn [length]; rewrite !length_app; lia|].
  change (35 :: ws ++ line ++ rest) with ((35 :: ws) ++ line ++ rest).
  rewrite app_assoc.
  rewrite take_app_length' by (cbn [length]; rewrite length_app; cbn; lia).
  change ((35 :: ws) ++ line) with (35 :: ws ++ line).
  unfold kept_of. cbn [List.filter]. change (kept 35) with false. cbv iota.
  fold (kept_of (ws ++ line)).
  rewrite kept_of_app, (kept_of_blank ws Hws). cbn [app].
  unfold strong_tmpl, expand. cbn [map expand_piece concat from_option id].
  apply sublist_inserts_l, sublist_inserts_r, kept_of_sublist.
Qed.

Lemma bold_keeps : keeps_matches false bold_re strong_tmpl.
Proof.
  intros prev s cap len Hexec.
  apply exec_bold_inv in Hexec as (t & rest & -> & -> & ->).
  split; [cbn [length]; rewrite !length_app; cbn [length]; lia|].
  replace (42 :: 42 :: t ++ 42 :: 42 :: rest)
    with ((42 :: 42 :: t ++ [42; 42]) ++ rest)
    by (cbn [app]; now rewrite <- app_assoc).
  rewrite take_app_length'
    by (cbn [length]; rewrite length_app; cbn [length]; lia).
  change (42 :: 42 :: t ++ [42; 42]) with ([42; 42] ++ t ++ [42; 42]).
  rewrite !kept_of_app.
  change (kept_of [42; 42]) with (@nil N). rewrite app_nil_r. cbn [app].
  unfold strong_tmpl, expand. cbn [map expand_piece concat from_option id].
  apply sublist_inserts_l, sublist_inserts_r, kept_of_sublist.
Qed.

(** [split] drops only the code units of the separators. *)
Lemma split_loop_keeps (x : N) (tl : jsstring) :
  forallb (fun c => negb (kept c)) (x :: tl) = true ->
  forall (s pending cur : jsstring),
    starts_with pending s = true ->
    forallb (fun c => negb (kept c)) pending = true ->
    kept_of (concat (split_loop (x :: tl) (length pending) cur s))
    = kept_of (rev cur ++ s).
Proof.
  intros Hsep.
  induction s as [|c s IH]; intros pending cur Hsw Hpend.
  - cbn [split_loop concat]. reflexivity.
  - destruct pending as [|y pend].
    + cbn [length split_loop].
      destruct (starts_with (x :: tl) (c :: s)) eqn:Hfound.
      * cbn [starts_with] in Hfound. apply andb_prop in Hfound as [Hxc Htl].
        apply N.eqb_eq in Hxc. subst c.
        cbn [forallb] in Hsep. apply andb_prop in Hsep as [Hx Htl'].
        cbn [concat length Nat.pred]. rewrite !kept_of_app.
        rewrite (IH tl [] Htl Htl'). cbn [rev app].
        apply negb_true_iff in Hx. now rewrite (kept_of_dropped x s Hx).
      * pose proof (IH [] (c :: cur) eq_refl eq_refl) as Hrec.
        cbn [length] in Hrec. rewrite Hrec.
        cbn [rev]. now rewrite <- app_assoc.
    + cbn [length split_loop].
      cbn [starts_with] in Hsw. apply andb_prop in Hsw as [Hyc Hsw].
      apply N.eqb_eq in Hyc. subst c.
      cbn [forallb] in Hpend. apply andb_prop in Hpend as [Hy Hpend].
      rewrite (IH pend cur Hsw Hpend). rewrite !kept_of_app.
      apply negb_true_iff in Hy. now rewrite (kept_of_dropped y s Hy).
Qed.

Lemma concat_sublist_join (sep : jsstring) (pieces : list jsstring) :
  concat pieces `sublist_of` join sep pieces.
Proof.
  induction pieces as [|p [|q rest] IH]; [constructor| |].
  - cbn. now rewrite app_nil_r.
  - change (concat (p :: q :: rest)) with (p ++ concat (q :: rest)).
    change (join sep (p :: q :: rest)) with (p ++ sep ++ join sep (q :: rest)).
    apply sublist_app; [reflexivity|]. now apply sublist_inserts_l.
Qed.

Lemma split_join_keeps (x : N) (tl sep : jsstring) (s : jsstring) :
  forallb (fun c => negb (kept c)) (x :: tl) = true ->
  kept_of s `sublist_of` join sep (split (x :: tl) s).
Proof.
  intros Hsep. unfold split.
  pose proof (split_loop_keeps x tl Hsep s [] [] eq_refl eq_refl) as Heq.
  cbn [length rev app] in Heq. rewrite <- Heq.
  etransitivity; [apply kept_of_sublist | apply concat_sublist_join].
Qed.

(** Every step of the formatter keeps the kept code units, so the whole
    chain does. *)
Lemma formattedText_keeps (text : jsstring) :
  kept_of text `sublist_of` formattedText text.
Proof.
  assert (Hidem : forall s, kept_of (kept_of s) = kept_of s).
  { intros s. induction s as [|c s IH]; [reflexivity|].
    unfold kept_of in *. cbn [List.filter].
    destruct (kept c) eqn:Hc; [|exact IH].
    cbn [List.filter]. now rewrite Hc, IH. }
  assert (Hchain : forall (f : jsstring -> jsstring) a b,
             (forall s, kept_of s `sublist_of` f s) ->
             kept_of a `sublist_of` b -> kept_of a `sublist_of` f b).
  { intros f a b Hf Hab. etransitivity; [|apply (Hf b)].
    rewrite <- (Hidem a). now apply kept_of_mono. }
  unfold formattedText.
  apply Hchain.
  { intros s. now apply split_join_keeps. }
  apply Hchain.
  { intros s. now apply split_join_keeps. }
  apply Hchain.
  { intros s. unfold format_bullets, replace_global. rewrite bullet_re_shape.
    apply (replace_loop_keeps true (line_re 45) bullet_tmpl
             (line_re_keeps 45 [BULLET; 32] eq_refl) (length s)). lia. }
  apply Hchain.
  { intros s. unfold format_bold, replace_global.
    apply (replace_loop_keeps false bold_re strong_tmpl bold_keeps (length s)).
    lia. }
  unfold format_headers, replace_global.
  apply (replace_loop_keeps true header_re strong_tmpl header_keeps
           (length text)). lia.
Qed.

End KeptFacts.

(* ===================================================================== *)
(** * Rendering an entry *)
(* ===================================================================== *)

Section LineMatches.

Variable mark : N.

Lemma line_terminator_space (c : N) :
  is_line_terminator c = true -> is_whitespace c = true.
Proof.
  unfold is_line_terminator, is_whitespace. intros H.
  repeat (apply orb_prop in H as [H | H]);
    apply N.eqb_eq in H; subst c; reflexivity.
Qed.

(** A greedy [X+] over a run of [X]s gives the run back code unit by
    code unit; it stops where the rest of the pattern matches and no
    longer run did. *)
Lemma plus_greedy_longest (p : N -> bool) (k : mstate -> option mstate)
    (cap : option jsstring) (tail : jsstring) (r : mstate) :
  plus_greedy p k cap tail = None ->
  forall l : jsstring,
    l <> [] ->
    forallb p l = true ->
    k (MState (last l) tail cap) = Some r ->
    plus_greedy p k cap (l ++ tail) = Some r.
Proof.
  intros Htail. induction l as [|x l IH]; [congruence|].
  intros _ Hall Hk. cbn [forallb] in Hall.
  apply andb_prop in Hall as [Hx Hall].
  cbn [app plus_greedy]. rewrite Hx.
  destruct l as [|y l].
  - cbn [app]. now rewrite Htail.
  - rewrite IH; [reflexivity | discriminate | exact Hall | exact Hk].
Qed.

Lemma plus_greedy_inv_longest (p : N -> bool) (k : mstate -> option mstate)
    (cap : option jsstring) (r : mstate) :
  forall l : jsstring,
    plus_greedy p k cap l = Some r ->
    exists a b : jsstring,
      l = a ++ b /\ a <> [] /\ forallb p a = true /\
      k (MState (last a) b cap) = Some r /\
      plus_greedy p k cap b = None.
Proof.
  induction l as [|x xs IH]; cbn [plus_greedy]; [discriminate|].
  destruct (p x) eqn:Hx; [|discriminate].
  destruct (plus_greedy p k cap xs) as [r'|] eqn:Hrec.
  - intros [= ->].
    destruct (IH eq_refl) as (a & b & -> & Ha & Hall & Hk & Hmax).
    exists (x :: a), b. cbn [forallb]. rewrite Hx, Hall.
    split; [reflexivity|]. split; [discriminate|]. split; [reflexivity|].
    split; [|exact Hmax].
    destruct a as [|y a]; [congruence | exact Hk].
  - intros Hk. exists [x], xs. cbn [forallb]. rewrite Hx.
    split; [reflexivity|]. split; [discriminate|]. split; [reflexivity|].
    split; [exact Hk | exact Hrec].
Qed.

Lemma plus_greedy_not_first (p : N -> bool) (k : mstate -> option mstate)
    (cap : option jsstring) (l : jsstring) :
  match l with [] => True | c :: _ => p c = false end ->
  plus_greedy p k cap l = None.
Proof. destruct l as [|c l]; [reflexivity|]. cbn. now intros ->. Qed.

(** The group and [$] match a run of code units up to the end of the
    line, and capture it. *)
Lemma after_space_run (pv : option N) (cap0 : option jsstring)
    (cap post : jsstring) :
  cap <> [] ->
  forallb cls_dot cap = true ->
  at_line_end true post = true ->
  after_space (MState pv (cap ++ post) cap0)
  = Some (MState (last cap) post (Some cap)).
Proof.
  intros Hne Hdot Hend. unfold after_space.
  cbn [rmatch m_prev m_rest m_cap].
  erewrite plus_greedy_longest; [reflexivity | | exact Hne | exact Hdot |].
  - apply plus_greedy_not_first. destruct post as [|c post]; [exact I|].
    cbn in Hend. unfold cls_dot. now rewrite Hend.
  - cbn [rmatch m_prev m_rest m_cap]. rewrite Hend.
    rewrite length_app, Nat.add_sub, take_app_length. reflexivity.
Qed.

Lemma after_space_inv (pv : option N) (cap0 : option jsstring)
    (l : jsstring) (r : mstate) :
  after_space (MState pv l cap0) = Some r ->
  exists cap post : jsstring,
    l = cap ++ post /\ cap <> [] /\ forallb cls_dot cap = true /\
    at_line_end true post = true /\
    r = MState (last cap) post (Some cap).
Proof.
  unfold after_space. cbn [rmatch m_prev m_rest m_cap]. intros Hplus.
  apply plus_greedy_inv_longest in Hplus
    as (cap & post & -> & Hne & Hdot & Hk & _).
  cbn [rmatch m_prev m_rest m_cap] in Hk.
  destruct (at_line_end true post) eqn:Hend; [|discriminate].
  injection Hk as <-.
  exists cap, post. repeat (split; [assumption || reflexivity|]).
  now rewrite length_app, Nat.add_sub, take_app_length.
Qed.

(** Every text is a run of [X]s, as long as can be, and a rest. *)
Lemma longest_run (p : N -> bool) (l : jsstring) :
  exists run rest : jsstring,
    l = run ++ rest /\ forallb p run = true /\
    match rest with [] => True | c :: _ => p c = false end.
Proof.
  induction l as [|c l (run & rest & -> & Hrun & Hrest)].
  - now exists [], [].
  - destruct (p c) eqn:Hc.
    + exists (c :: run), rest. cbn [forallb]. now rewrite Hc, Hrun.
    + now exists [], (c :: run ++ rest).
Qed.

Lemma after_space_first (pv : option N) (cap0 : option jsstring)
    (c : N) (l : jsstring) :
  cls_dot c = true ->
  exists r, after_space (MState pv (c :: l) cap0) = Some r.
Proof.
  intros Hc. destruct (longest_run cls_dot l) as (run & rest & -> & Hrun & Hrest).
  eexists. change (c :: run ++ rest) with ((c :: run) ++ rest).
  apply after_space_run; [discriminate | cbn; now rewrite Hc, Hrun |].
  destruct rest as [|x rest]; [reflexivity|].
  cbn. unfold cls_dot in Hrest. now destruct (is_line_terminator x).
Qed.

Lemma after_space_none (pv : option N) (cap0 : option jsstring)
    (l : jsstring) :
  at_line_end true l = true ->
  after_space (MState pv l cap0) = None.
Proof.
  intros Hend. unfold after_space. cbn [rmatch m_prev m_rest m_cap].
  apply plus_greedy_not_first. destruct l as [|c l]; [exact I|].
  cbn in Hend. unfold cls_dot. now rewrite Hend.
Qed.

(** Over line terminators up to the end of the text, [\s+] and the
    rest of the pattern find nothing. *)
Lemma space_terminators_none (cap0 : option jsstring) (l : jsstring) :
  forallb is_line_terminator l = true ->
  plus_greedy cls_space after_space cap0 l = None.
Proof.
  induction l as [|c l IH]; [reflexivity|].
  cbn [forallb plus_greedy]. intros H. apply andb_prop in H as [Hc Hl].
  unfold cls_space at 1. rewrite (line_terminator_space c Hc).
  rewrite (IH Hl). apply after_space_none.
  destruct l as [|x l]; [reflexivity|].
  cbn [forallb] in Hl. apply andb_prop in Hl as [Hx _]. cbn. exact Hx.
Qed.

Lemma space_none_terminators (cap0 : option jsstring) (l : jsstring) :
  at_line_end true l = true ->
  plus_greedy cls_space after_space cap0 l = None ->
  forallb is_line_terminator l = true.
Proof.
  induction l as [|c l IH]; [reflexivity|].
  intros Hend. cbn in Hend. cbn [plus_greedy forallb].
  unfold cls_space at 1. rewrite (line_terminator_space c Hend), Hend.
  destruct (plus_greedy cls_space after_space cap0 l) eqn:Hrec; [discriminate|].
  intros Hk. cbn [andb]. apply IH; [|reflexivity].
  destruct l as [|x l]; [reflexivity|]. cbn.
  destruct (is_line_terminator x) eqn:Hx; [reflexivity|].
  destruct (after_space_first (Some c) cap0 x l) as [r Hr];
    [unfold cls_dot; now rewrite Hx | congruence].
Qed.

Lemma exec_line_shape (prev : option N) (s : jsstring) :
  exec_at true (line_re mark) prev s
  = if at_line_start true prev
    then match s with
         | c :: l =>
             if c =? mark
             then match plus_greedy cls_space after_space None l with
                  | Some st =>
                      Some (m_cap st, (length s - length (m_rest st))%nat)
                  | None => None
                  end
             else None
         | [] => None
         end
    else None.
Proof.
  unfold exec_at, line_re. cbn [rmatch m_prev m_rest m_cap].
  destruct (at_line_start true prev); [|reflexivity].
  destruct s as [|c l]; [reflexivity|].
  destruct (c =? mark); reflexivity.
Qed.

(** The pattern matches where a marked line starts, and captures its
    text. *)
Lemma exec_marked_line (before ws cap post : jsstring) :
  marked_line before ws cap post ->
  exec_at true (line_re mark) (last before) (mark :: ws ++ cap ++ post)
  = Some (Some cap, S (length ws + length cap)).
Proof.
  intros (Hstart & Hws & Hspace & Hcap & Hdot & Hend & Hgreedy).
  rewrite exec_line_shape, Hstart, N.eqb_refl.
  assert (Hplus : plus_greedy cls_space after_space None (ws ++ cap ++ post)
                  = Some (MState (last cap) post (Some cap))).
  { apply plus_greedy_longest; [|exact Hws | exact Hspace |].
    - destruct Hgreedy as [Hhead | [Hone Hterm]].
      + apply plus_greedy_not_first.
        destruct cap as [|c cap]; [contradiction | exact Hhead].
      + destruct cap as [|c [|c' cap]]; try discriminate.
        cbn [app plus_greedy].
        destruct (cls_space c); [|reflexivity].
        rewrite (space_terminators_none None post Hterm).
        now apply after_space_none.
    - now apply after_space_run. }
  rewrite Hplus. cbn [m_cap m_rest length].
  do 2 f_equal. rewrite !length_app. lia.
Qed.

(** And nowhere else. *)
Lemma exec_line_starts (prev : option N) (before s : jsstring)
    (c : option jsstring) (len : nat) :
  prev = last before ->
  exec_at true (line_re mark) prev s = Some (c, len) ->
  starts_marked_line mark before s.
Proof.
  intros ->. rewrite exec_line_shape.
  destruct (at_line_start true (last before)) eqn:Hstart; [|discriminate].
  destruct s as [|x l]; [discriminate|].
  destruct (x =? mark) eqn:Hx; [|discriminate].
  apply N.eqb_eq in Hx. subst x.
  destruct (plus_greedy cls_space after_space None l) as [st|] eqn:Hplus;
    [|discriminate].
  intros _.
  apply plus_greedy_inv_longest in Hplus
    as (ws & b & -> & Hws & Hspace & Hk & Hmax).
  apply after_space_inv in Hk as (cap & post & -> & Hcap & Hdot & Hend & _).
  exists ws, cap, post. split; [reflexivity|].
  repeat (split; [assumption|]).
  destruct cap as [|c0 cap]; [congruence|].
  destruct (is_whitespace c0) eqn:Hc0; [right | now left].
  cbn [app plus_greedy] in Hmax. unfold cls_space at 1 in Hmax.
  rewrite Hc0 in Hmax.
  destruct (plus_greedy cls_space after_space None (cap ++ post)) eqn:Hrec;
    [discriminate|].
  destruct cap as [|c1 cap].
  - split; [reflexivity|]. cbn [app] in Hrec.
    now apply (space_none_terminators None).
  - exfalso. cbn [forallb] in Hdot.
    apply andb_prop in Hdot as [_ Hdot]. apply andb_prop in Hdot as [Hc1 _].
    destruct (after_space_first (Some c0) None c1 (cap ++ post) Hc1) as [r Hr].
    cbn [app] in Hmax. congruence.
Qed.

End LineMatches.

Section BoldMatches.

Lemma includes_none (p s : jsstring) :
  includes p s = false <->
  forall s1 s2, s = s1 ++ s2 -> starts_with p s2 = false.
Proof.
  split.
  - revert p. induction s as [|c s IH]; intros p H s1 s2 Hs.
    + destruct s1; [|discriminate]. cbn in Hs. subst s2.
      cbn [includes] in H. now apply orb_false_elim in H as [H _].
    + cbn [includes] in H. apply orb_false_elim in H as [Hhere Hrest].
      destruct s1 as [|x s1].
      * cbn in Hs. now subst s2.
      * injection Hs as _ Hs. exact (IH p Hrest s1 s2 Hs).
  - induction s as [|c s IH]; intros H.
    + cbn [includes]. now rewrite (H [] [] eq_refl).
    + cbn [includes]. rewrite (H [] (c :: s) eq_refl). cbn [orb].
      apply IH. intros s1 s2 ->. exact (H (c :: s1) s2 eq_refl).
  Qed.

Lemma closing_stars_spec (cap0 : jsstring) (pv : option N) (l : jsstring)
    (cap1 : option jsstring) :
  closing_stars cap0 (MState pv l cap1)
  = if starts_with (str "**") l
    then Some (MState (Some 42) (drop 2 l)
                 (Some (take (length cap0 - length l)%nat cap0)))
    else None.
Proof.
  unfold closing_stars. cbn [rmatch m_prev m_rest m_cap].
  change (str "**") with [42; 42].
  destruct l as [|c1 [|c2 l]]; cbn [starts_with drop].
  - reflexivity.
  - rewrite (N.eqb_sym 42 c1), andb_false_r. now destruct (c1 =? 42).
  - rewrite (N.eqb_sym 42 c1), (N.eqb_sym 42 c2), andb_true_r.
    destruct (c1 =? 42); [|reflexivity].
    cbn [rmatch m_prev m_rest m_cap andb].
    destruct (c2 =? 42) eqn:H2; [|reflexivity].
    apply N.eqb_eq in H2. now subst c2.
Qed.

Lemma exec_bold_shape (prev : option N) (s : jsstring) :
  exec_at false bold_re prev s
  = match s with
    | c1 :: c2 :: l =>
        if (c1 =? 42) && (c2 =? 42)
        then match star_lazy cls_dot (closing_stars l) None (Some c2) l with
             | Some st =>
                 Some (m_cap st, (length s - length (m_rest st))%nat)
             | None => None
             end
        else None
    | _ => None
    end.
Proof.
  unfold exec_at, bold_re. cbn [rmatch m_prev m_rest m_cap].
  destruct s as [|c1 s]; [reflexivity|].
  destruct (c1 =? 42); [|now destruct s].
  destruct s as [|c2 l]; [reflexivity|].
  cbn [rmatch m_prev m_rest m_cap andb].
  destruct (c2 =? 42); reflexivity.
Qed.

Lemma prev_last_cons (prev : option N) (x : N) (a : jsstring) :
  from_option Some prev (last (x :: a)) = from_option Some (Some x) (last a).
Proof.
  destruct a as [|y a]; [reflexivity|].
  change (last (x :: y :: a)) with (last (y :: a)).
  destruct (last (y :: a)) eqn:H; [reflexivity|].
  apply last_None in H. discriminate.
Qed.

(** A lazy [X*?] stops at the first place where the rest of the
    pattern matches. *)
Lemma star_lazy_first (p : N -> bool) (k : mstate -> option mstate)
    (cap : option jsstring) (tail : jsstring) (r : mstate) :
  forall (a : jsstring) (prev : option N),
    forallb p a = true ->
    (forall a1 x a2 pv, a = a1 ++ x :: a2 ->
                        k (MState pv (x :: a2 ++ tail) cap) = None) ->
    k (MState (from_option Some prev (last a)) tail cap) = Some r ->
    star_lazy p k cap prev (a ++ tail) = Some r.
Proof.
  induction a as [|x a IH]; intros prev Hall Hfail Hk.
  - cbn [app]. cbn in Hk. destruct tail; cbn [star_lazy]; now rewrite Hk.
  - cbn [forallb] in Hall. apply andb_prop in Hall as [Hx Hall].
    cbn [app star_lazy]. rewrite (Hfail [] x a prev eq_refl), Hx.
    apply IH; [exact Hall| |].
    + intros a1 y a2 pv ->. exact (Hfail (x :: a1) y a2 pv eq_refl).
    + now rewrite <- (prev_last_cons prev).
Qed.

Lemma star_lazy_inv_first (p : N -> bool) (k : mstate -> option mstate)
    (cap : option jsstring) (r : mstate) :
  forall (l : jsstring) (prev : option N),
    star_lazy p k cap prev l = Some r ->
    exists (a b : jsstring),
      l = a ++ b /\ forallb p a = true /\
      k (MState (from_option Some prev (last a)) b cap) = Some r /\
      forall a1 x a2, a = a1 ++ x :: a2 ->
        k (MState (from_option Some prev (last a1)) (x :: a2 ++ b) cap) = None.
Proof.
  induction l as [|x xs IH]; intros prev; cbn [star_lazy].
  - destruct (k (MState prev [] cap)) as [r'|] eqn:Hk; [|discriminate].
    intros [= ->]. exists [], []. repeat split; [exact Hk|].
    intros [|] ? ? ?; discriminate.
  - destruct (k (MState prev (x :: xs) cap)) as [r'|] eqn:Hk.
    + intros [= ->]. exists [], (x :: xs). repeat split; [exact Hk|].
      intros [|] ? ? ?; discriminate.
    + destruct (p x) eqn:Hx; [|discriminate].
      intros Hrec.
      destruct (IH _ Hrec) as (a & b & -> & Ha & Hk' & Hfirst).
      exists (x :: a), b. cbn [forallb]. rewrite Hx, Ha.
      split; [reflexivity|]. split; [reflexivity|]. split.
      * now rewrite (prev_last_cons prev).
      * intros [|z a1] y a2 Hsplit.
        -- injection Hsplit as <- <-. exact Hk.
        -- injection Hsplit as <- ->.
           specialize (Hfirst a1 y a2 eq_refl).
           now rewrite (prev_last_cons prev).
Qed.

Lemma starts_with_stars_snoc (a tail : jsstring) (x : N) :
  starts_with (str "**") (x :: a ++ 42 :: tail)
  = starts_with (str "**") (x :: a ++ [42]).
Proof.
  change (str "**") with [42; 42].
  destruct a as [|y a]; cbn [app starts_with]; now rewrite ?andb_true_r.
Qed.

(** The pattern matches where a bold span starts, and captures its
    text. *)
Lemma exec_bold_span (prev : option N) (cap post : jsstring) :
  bold_span cap ->
  exec_at false bold_re prev (str "**" ++ cap ++ str "**" ++ post)
  = Some (Some cap, (4 + length cap)%nat).
Proof.
  intros [Hdot Hshort].
  rewrite exec_bold_shape.
  change (str "**" ++ cap ++ str "**" ++ post)
    with (42 :: 42 :: cap ++ 42 :: 42 :: post).
  cbn [N.eqb Pos.eqb andb].
  rewrite (star_lazy_first cls_dot _ None (42 :: 42 :: post)
             (MState (Some 42) post (Some cap)) cap (Some 42) Hdot).
  - cbn [m_cap m_rest length]. do 2 f_equal.
    rewrite !length_app. cbn [length]. lia.
  - intros a1 x a2 pv ->. rewrite closing_stars_spec.
    rewrite <- app_assoc. cbn [app].
    rewrite starts_with_stars_snoc.
    rewrite includes_none in Hshort.
    rewrite (Hshort a1 (x :: a2 ++ [42])); [reflexivity|].
    now rewrite <- app_assoc.
  - rewrite closing_stars_spec. cbn [starts_with drop].
    change (str "**") with [42; 42]. cbn [starts_with N.eqb Pos.eqb andb].
    do 3 f_equal. rewrite length_app, Nat.add_sub. apply take_app_length.
Qed.

(** And nowhere else. *)
Lemma exec_bold_starts (prev : option N) (before s : jsstring)
    (c : option jsstring) (len : nat) :
  exec_at false bold_re prev s = Some (c, len) ->
  starts_bold_span before s.
Proof.
  rewrite exec_bold_shape.
  destruct s as [|c1 [|c2 l]]; try discriminate.
  destruct (c1 =? 42) eqn:H1; [|discriminate].
  destruct (c2 =? 42) eqn:H2; [|discriminate]. cbn [andb].
  apply N.eqb_eq in H1, H2. subst c1 c2.
  destruct (star_lazy _ _ _ _ l) as [st|] eqn:Hstar; [|discriminate].
  intros _.
  apply star_lazy_inv_first in Hstar as (cap & b & Hl & Hdot & Hk & Hfirst).
  rewrite closing_stars_spec in Hk.
  destruct (starts_with (str "**") b) eqn:Hb; [|discriminate].
  change (str "**") with [42; 42] in Hb.
  destruct b as [|b1 [|b2 post]]; cbn [starts_with] in Hb;
    try (rewrite ?andb_false_r in Hb; discriminate).
  apply andb_prop in Hb as [Hb1 Hb2]. rewrite andb_true_r in Hb2.
  apply N.eqb_eq in Hb1, Hb2. subst b1 b2.
  exists cap, post. split; [now rewrite Hl|].
  split; [exact Hdot|].
  apply includes_none. intros s1 s2 Hsplit.
  destruct s2 as [|x s2]; [reflexivity|].
  destruct s2 as [|y s2]; [change (str "**") with [42; 42]; cbn;
                           now rewrite andb_false_r|].
  assert (Hin : exists a2, cap = s1 ++ x :: a2 /\ y :: s2 = a2 ++ [42]).
  { clear -Hsplit. revert s1 Hsplit.
    induction cap as [|z cap IH]; intros s1 Hsplit.
    - destruct s1 as [|? [|? ?]]; discriminate.
    - destruct s1 as [|z' s1].
      + injection Hsplit as <- Hrest. exists cap. split; [reflexivity|].
        now symmetry.
      + injection Hsplit as <- Hrest.
        destruct (IH s1 Hrest) as (a2 & -> & Ha2).
        exists a2. split; [reflexivity | exact Ha2]. }
  destruct Hin as (a2 & Hcap & Htail).
  specialize (Hfirst s1 x a2 Hcap).
  rewrite closing_stars_spec in Hfirst.
  rewrite starts_with_stars_snoc in Hfirst.
  rewrite Htail.
  now destruct (starts_with (str "**") (x :: a2 ++ [42])).
Qed.

End BoldMatches.

Section ReplaceSteps.

Variables (ml : bool) (r : regex) (tmpl : list tpiece).

Lemma last_map_some (a : jsstring) (prev : option N) :
  List.last (map Some a) prev = from_option Some prev (last a).
Proof.
  revert prev. induction a as [|x a IH]; intros prev; [reflexivity|].
  cbn [map]. rewrite last_cons_cons, IH. symmetry. apply prev_last_cons.
Qed.

(** The search passes over a stretch in which no match starts. *)
Lemma replace_loop_pass (rest : jsstring) :
  forall (pre : jsstring) (prev : option N),
    (forall a b, pre = a ++ b -> b <> [] ->
       exec_at ml r (from_option Some prev (last a)) (b ++ rest) = None) ->
    replace_loop ml r tmpl O prev (pre ++ rest)
    = pre ++ replace_loop ml r tmpl O (from_option Some prev (last pre)) rest.
Proof.
  induction pre as [|c pre IH]; intros prev Hnone; [reflexivity|].
  cbn [app replace_loop].
  pose proof (Hnone [] (c :: pre) eq_refl ltac:(discriminate)) as Hhere.
  cbn in Hhere. rewrite Hhere. f_equal.
  rewrite IH.
  - now rewrite (prev_last_cons prev).
  - intros a b -> Hb.
    rewrite <- (prev_last_cons prev).
    exact (Hnone (c :: a) b eq_refl Hb).
Qed.

(** At a match, the template goes out and the search goes on after the
    matched text. *)
Lemma replace_loop_match (prev : option N) (m post : jsstring)
    (cap : option jsstring) :
  m <> [] ->
  exec_at ml r prev (m ++ post) = Some (cap, length m) ->
  replace_loop ml r tmpl O prev (m ++ post)
  = expand tmpl cap
      ++ replace_loop ml r tmpl O (from_option Some prev (last m)) post.
Proof.
  destruct m as [|c m]; [congruence|]. intros _ Hexec.
  change ((c :: m) ++ post) with (c :: m ++ post) in *.
  cbn [replace_loop]. rewrite Hexec. cbn [length].
  rewrite replace_loop_skip, last_map_some.
  now rewrite (prev_last_cons prev).
Qed.

End ReplaceSteps.

Section LineSteps.

Variables (mark : N) (tmpl : list tpiece).
Hypothesis mark_on_line : is_line_terminator mark = false.

(** After a marked line the search is at the end of a line, where it
    goes on as it does from the start of a text. *)
Lemma replace_line_resume (prev : option N) (post : jsstring) :
  at_line_end true post = true ->
  replace_loop true (line_re mark) tmpl O prev post
  = replace_global true (line_re mark) tmpl post.
Proof.
  intros Hend. unfold replace_global.
  destruct post as [|c post]; cbn [replace_loop].
  - now rewrite !exec_line_no_mark by exact I.
  - cbn in Hend.
    assert (Hc : c <> mark) by (intros ->; congruence).
    now rewrite !exec_line_no_mark by exact Hc.
Qed.

Lemma unmatched_line_exec (pre rest : jsstring) :
  unmatched (starts_marked_line mark) pre rest ->
  forall a b, pre = a ++ b -> b <> [] ->
    exec_at true (line_re mark) (from_option Some None (last a)) (b ++ rest)
    = None.
Proof.
  intros Hun a b Hsplit Hb.
  destruct (exec_at true (line_re mark) (from_option Some None (last a))
              (b ++ rest)) as [[c len]|] eqn:Hexec; [|reflexivity].
  destruct (Hun a b Hsplit Hb).
  assert (Hprev : from_option Some None (last a) = last a)
    by now destruct (last a).
  exact (exec_line_starts mark _ a _ c len Hprev Hexec).
Qed.

(** The first marked line of a text: what stands before it stays, the
    line gives way to the template, and what follows is transformed in
    its turn. *)
Lemma replace_line_step (pre ws cap post : jsstring) :
  marked_line pre ws cap post ->
  unmatched (starts_marked_line mark) pre (mark :: ws ++ cap ++ post) ->
  replace_global true (line_re mark) tmpl (pre ++ mark :: ws ++ cap ++ post)
  = pre ++ expand tmpl (Some cap)
        ++ replace_global true (line_re mark) tmpl post.
Proof.
  intros Hline Hun. unfold replace_global at 1.
  rewrite replace_loop_pass by (now apply unmatched_line_exec).
  f_equal.
  assert (Hprev : from_option Some None (last pre) = last pre)
    by now destruct (last pre).
  rewrite Hprev.
  pose proof (exec_marked_line mark pre ws cap post Hline) as Hexec.
  replace (mark :: ws ++ cap ++ post) with ((mark :: ws ++ cap) ++ post)
    by (cbn [app]; now rewrite <- app_assoc).
  replace (mark :: ws ++ cap ++ post) with ((mark :: ws ++ cap) ++ post)
    in Hexec by (cbn [app]; now rewrite <- app_assoc).
  rewrite (replace_loop_match true (line_re mark) tmpl (last pre)
             (mark :: ws ++ cap) post (Some cap)).
  - f_equal. apply replace_line_resume. now destruct Hline as (_&_&_&_&_&H&_).
  - discriminate.
  - cbn [length]. rewrite length_app. exact Hexec.
Qed.

(** A text in which no marked line starts is left as it is. *)
Lemma replace_line_base (s : jsstring) :
  unmatched (starts_marked_line mark) s [] ->
  replace_global true (line_re mark) tmpl s = s.
Proof.
  intros Hun. unfold replace_global.
  rewrite <- (app_nil_r s) at 1.
  rewrite replace_loop_pass by (now apply unmatched_line_exec).
  cbn [replace_loop]. rewrite exec_line_no_mark by exact I.
  now rewrite app_nil_r.
Qed.

End LineSteps.

Section BoldSteps.

Lemma exec_bold_any_prev (prev prev' : option N) (s : jsstring) :
  exec_at false bold_re prev s = exec_at false bold_re prev' s.
Proof.
  destruct (exec_at false bold_re prev s) as [[c len]|] eqn:H1.
  - destruct (exec_bold_starts prev [] s c len H1)
      as (cap & post & -> & Hspan).
    rewrite (exec_bold_span prev cap post Hspan) in H1.
    now rewrite (exec_bold_span prev' cap post Hspan).
  - destruct (exec_at false bold_re prev' s) as [[c len]|] eqn:H2;
      [|reflexivity].
    destruct (exec_bold_starts prev' [] s c len H2)
      as (cap & post & -> & Hspan).
    rewrite (exec_bold_span prev cap post Hspan) in H1. discriminate.
Qed.

Lemma replace_bold_any_prev (tmpl : list tpiece) :
  forall (n : nat) (s : jsstring) (prev prev' : option N),
    replace_loop false bold_re tmpl n prev s
    = replace_loop false bold_re tmpl n prev' s.
Proof.
  intros n s. revert n.
  induction s as [|c s IH]; intros n prev prev'.
  - destruct n; [|reflexivity]. cbn [replace_loop].
    now rewrite (exec_bold_any_prev prev prev').
  - destruct n; cbn [replace_loop]; [|apply IH].
    now rewrite (exec_bold_any_prev prev prev').
Qed.

Lemma unmatched_bold_exec (pre rest : jsstring) :
  unmatched starts_bold_span pre rest ->
  forall a b, pre = a ++ b -> b <> [] ->
    exec_at false bold_re (from_option Some None (last a)) (b ++ rest) = None.
Proof.
  intros Hun a b Hsplit Hb.
  destruct (exec_at false bold_re (from_option Some None (last a))
              (b ++ rest)) as [[c len]|] eqn:Hexec; [|reflexivity].
  destruct (Hun a b Hsplit Hb).
  exact (exec_bold_starts _ a _ c len Hexec).
Qed.

(** The first bold span of a text. *)
Lemma format_bold_step (pre cap post : jsstring) :
  bold_span cap ->
  unmatched starts_bold_span pre (str "**" ++ cap ++ str "**" ++ post) ->
  format_bold (pre ++ str "**" ++ cap ++ str "**" ++ post)
  = pre ++ str "<strong>" ++ cap ++ str "</strong>" ++ format_bold post.
Proof.
  intros Hspan Hun. unfold format_bold, replace_global.
  rewrite replace_loop_pass by (now apply unmatched_bold_exec).
  f_equal.
  replace (str "**" ++ cap ++ str "**" ++ post)
    with ((str "**" ++ cap ++ str "**") ++ post)
    by now rewrite <- !app_assoc.
  rewrite (replace_loop_match false bold_re strong_tmpl _
             (str "**" ++ cap ++ str "**") post (Some cap)).
  - unfold strong_tmpl, expand. cbn [map expand_piece concat from_option id].
    rewrite app_nil_r, <- !app_assoc. do 3 f_equal.
    apply replace_bold_any_prev.
  - change (str "**") with [42; 42]. discriminate.
  - rewrite <- !app_assoc.
    rewrite (exec_bold_span _ cap post Hspan). do 2 f_equal.
    change (str "**") with [42; 42].
    rewrite !length_app. cbn [length]. lia.
Qed.

Lemma format_bold_base (s : jsstring) :
  unmatched starts_bold_span s [] -> format_bold s = s.
Proof.
  intros Hun. unfold format_bold, replace_global.
  rewrite <- (app_nil_r s) at 1.
  rewrite replace_loop_pass by (now apply unmatched_bold_exec).
  cbn [replace_loop]. rewrite exec_bold_no_star by exact I.
  now rewrite app_nil_r.
Qed.

End BoldSteps.

Section SplitSteps.

Lemma starts_with_app (p s : jsstring) : starts_with p (p ++ s) = true.
Proof.
  induction p as [|x p IH]; [reflexivity|].
  cbn. now rewrite N.eqb_refl.
Qed.

Lemma split_loop_skip (sep : jsstring) (b : jsstring) :
  forall (l cur : jsstring),
    split_loop sep (length l) cur (l ++ b) = split_loop sep O cur b.
Proof.
  induction l as [|x l IH]; intros cur; [reflexivity|].
  cbn [length app split_loop]. apply IH.
Qed.

(** [split] up to the first separator. *)
Lemma split_loop_first (x : N) (tl b : jsstring) :
  forall (a cur : jsstring),
    (forall a1 a2, a = a1 ++ a2 -> a2 <> [] ->
       starts_with (x :: tl) (a2 ++ (x :: tl) ++ b) = false) ->
    split_loop (x :: tl) O cur (a ++ (x :: tl) ++ b)
    = (rev cur ++ a) :: split_loop (x :: tl) O [] b.
Proof.
  induction a as [|c a IH]; intros cur Hfirst.
  - rewrite app_nil_r. cbn [app split_loop].
    pose proof (starts_with_app (x :: tl) b) as Hhere.
    cbn [app] in Hhere. rewrite Hhere. cbn [length Nat.pred].
    now rewrite split_loop_skip.
  - change ((c :: a) ++ (x :: tl) ++ b) with (c :: a ++ (x :: tl) ++ b).
    cbn [split_loop].
    pose proof (Hfirst [] (c :: a) eq_refl ltac:(discriminate)) as Hhere.
    change ((c :: a) ++ (x :: tl) ++ b) with (c :: a ++ (x :: tl) ++ b)
      in Hhere.
    rewrite Hhere. rewrite IH.
    + cbn [rev]. now rewrite <- app_assoc.
    + intros a1 a2 -> Ha2. exact (Hfirst (c :: a1) a2 eq_refl Ha2).
Qed.

(** [split] of a text without the separator. *)
Lemma split_loop_none (sep : jsstring) :
  forall (s cur : jsstring),
    includes sep s = false ->
    split_loop sep O cur s = [rev cur ++ s].
Proof.
  induction s as [|c s IH]; intros cur Hnone.
  - cbn. now rewrite app_nil_r.
  - cbn [includes] in Hnone. apply orb_false_elim in Hnone as [Hhere Hrest].
    cbn [split_loop]. rewrite Hhere, (IH _ Hrest).
    cbn [rev]. now rewrite <- app_assoc.
Qed.

Lemma split_loop_some (sep : jsstring) :
  forall (s : jsstring) (n : nat) (cur : jsstring),
    split_loop sep n cur s <> [].
Proof.
  induction s as [|c s IH]; intros n cur; [discriminate|].
  cbn [split_loop]. destruct n; [|apply IH].
  destruct (starts_with sep (c :: s)); [discriminate | apply IH].
Qed.

Lemma join_cons (sep p : jsstring) (rest : list jsstring) :
  rest <> [] -> join sep (p :: rest) = p ++ sep ++ join sep rest.
Proof. destruct rest; [congruence | reflexivity]. Qed.

Lemma split_join_step (x : N) (tl glue a b : jsstring) :
  (forall a1 a2, a = a1 ++ a2 -> a2 <> [] ->
     starts_with (x :: tl) (a2 ++ (x :: tl) ++ b) = false) ->
  join glue (split (x :: tl) (a ++ (x :: tl) ++ b))
  = a ++ glue ++ join glue (split (x :: tl) b).
Proof.
  intros Hfirst. unfold split.
  rewrite (split_loop_first x tl b a [] Hfirst). cbn [rev app].
  apply join_cons, split_loop_some.
Qed.

Lemma split_join_base (sep glue s : jsstring) :
  includes sep s = false -> join glue (split sep s) = s.
Proof.
  intros Hnone. unfold split. now rewrite (split_loop_none sep s [] Hnone).
Qed.

(** The first pair of line feeds of a text. *)
Lemma format_paragraphs_step (s a b : jsstring) :
  first_separator [LF; LF] s a b ->
  format_paragraphs s = a ++ str "</p><p>" ++ format_paragraphs b.
Proof.
  intros [-> Hfirst]. cbn [removelast] in Hfirst. unfold format_paragraphs.
  apply split_join_step. intros a1 a2 -> Ha2.
  rewrite includes_none in Hfirst.
  specialize (Hfirst a1 (a2 ++ [LF])).
  rewrite <- app_assoc in Hfirst. specialize (Hfirst eq_refl).
  destruct a2 as [|c [|c' a2]]; [congruence | |]; exact Hfirst.
Qed.

Lemma format_paragraphs_base (s : jsstring) :
  includes [LF; LF] s = false -> format_paragraphs s = s.
Proof. apply split_join_base. Qed.

(** The first line feed of a text. *)
Lemma format_breaks_step (s a b : jsstring) :
  first_separator [LF] s a b ->
  format_breaks s = a ++ str "<br>" ++ format_breaks b.
Proof.
  intros [-> Ha]. cbn [removelast] in Ha. rewrite app_nil_r in Ha.
  unfold format_breaks.
  apply split_join_step. intros a1 a2 -> Ha2.
  rewrite includes_none in Ha.
  specialize (Ha a1 a2 eq_refl).
  destruct a2 as [|c a2]; [congruence|].
  cbn [app starts_with] in *. now destruct (LF =? c).
Qed.

Lemma format_breaks_base (s : jsstring) :
  includes [LF] s = false -> format_breaks s = s.
Proof. apply split_join_base. Qed.

End SplitSteps.

Section FirstMatch.

Variables (ml : bool) (r : regex).

(** Going through a text from the left, the pattern matches at some
    position for the first time, or at none. *)
Lemma first_exec (rest : jsstring) :
  forall (s : jsstring) (prev : option N),
    (forall a b, s = a ++ b -> b <> [] ->
       exec_at ml r (from_option Some prev (last a)) (b ++ rest) = None)
    \/
    (exists a b c len,
       s = a ++ b /\ b <> [] /\
       exec_at ml r (from_option Some prev (last a)) (b ++ rest)
       = Some (c, len) /\
       forall a1 a2, a = a1 ++ a2 -> a2 <> [] ->
         exec_at ml r (from_option Some prev (last a1)) (a2 ++ b ++ rest)
         = None).
Proof.
  induction s as [|x s IH]; intros prev.
  - left. intros a b Hs Hb. destruct a; [|discriminate].
    cbn in Hs. congruence.
  - destruct (exec_at ml r prev ((x :: s) ++ rest)) as [[c len]|] eqn:Hhere.
    + right. exists [], (x :: s), c, len.
      split; [reflexivity|]. split; [discriminate|]. split; [exact Hhere|].
      intros a1 a2 Ha Ha2. destruct a1; [|discriminate].
      cbn in Ha. congruence.
    + destruct (IH (Some x)) as [Hnone | (a & b & c & len & -> & Hb & Hexec & Hfirst)].
      * left. intros a b Hs Hb. destruct a as [|y a].
        -- cbn in Hs. subst b. exact Hhere.
        -- injection Hs as <- ->. rewrite (prev_last_cons prev).
           now apply Hnone.
      * right. exists (x :: a), b, c, len.
        split; [reflexivity|]. split; [exact Hb|].
        split; [now rewrite (prev_last_cons prev)|].
        intros a1 a2 Ha Ha2. destruct a1 as [|y a1].
        -- cbn in Ha. subst a2. cbn [last from_option app] in Hhere |- *.
           now rewrite <- app_assoc in Hhere.
        -- injection Ha as <- ->. rewrite (prev_last_cons prev).
           now apply Hfirst.
Qed.

End FirstMatch.

Lemma prev_of_last (a : jsstring) : from_option Some None (last a) = last a.
Proof. now destruct (last a). Qed.

Lemma not_starts_line (mark : N) (before s : jsstring) :
  exec_at true (line_re mark) (last before) s = None ->
  ~ starts_marked_line mark before s.
Proof.
  intros Hnone (ws & cap & post & -> & Hline).
  now rewrite (exec_marked_line mark before ws cap post Hline) in Hnone.
Qed.

Lemma not_starts_bold (prev : option N) (before s : jsstring) :
  exec_at false bold_re prev s = None -> ~ starts_bold_span before s.
Proof.
  intros Hnone (cap & post & -> & Hspan).
  now rewrite (exec_bold_span prev cap post Hspan) in Hnone.
Qed.

(** Every text has a first marked line, or none. *)
Lemma marked_line_or_none (mark : N) (s : jsstring) :
  unmatched (starts_marked_line mark) s [] \/
  exists pre ws cap post, first_marked_line mark s pre ws cap post.
Proof.
  destruct (first_exec true (line_re mark) [] s None)
    as [Hnone | (a & b & c & len & -> & Hb & Hexec & Hfirst)].
  - left. intros a b Hs Hb. rewrite app_nil_r.
    apply (not_starts_line mark).
    specialize (Hnone a b Hs Hb).
    now rewrite app_nil_r, prev_of_last in Hnone.
  - right. rewrite app_nil_r, prev_of_last in Hexec.
    destruct (exec_line_starts mark (last a) a b c len eq_refl Hexec)
      as (ws & cap & post & -> & Hline).
    exists a, ws, cap, post. split; [reflexivity|]. split; [exact Hline|].
    intros a1 a2 Ha Ha2. apply (not_starts_line mark).
    rewrite <- (prev_of_last a1).
    specialize (Hfirst a1 a2 Ha Ha2). now rewrite app_nil_r in Hfirst.
Qed.

(** Every text has a first bold span, or none. *)
Lemma bold_span_or_none (s : jsstring) :
  unmatched starts_bold_span s [] \/
  exists pre cap post, first_bold_span s pre cap post.
Proof.
  destruct (first_exec false bold_re [] s None)
    as [Hnone | (a & b & c & len & -> & Hb & Hexec & Hfirst)].
  - left. intros a b Hs Hb. rewrite app_nil_r.
    specialize (Hnone a b Hs Hb). rewrite app_nil_r in Hnone.
    exact (not_starts_bold _ a b Hnone).
  - right. rewrite app_nil_r in Hexec.
    destruct (exec_bold_starts _ a b c len Hexec)
      as (cap & post & -> & Hspan).
    exists a, cap, post. split; [reflexivity|]. split; [exact Hspan|].
    intros a1 a2 Ha Ha2.
    specialize (Hfirst a1 a2 Ha Ha2). rewrite app_nil_r in Hfirst.
    exact (not_starts_bold _ a1 _ Hfirst).
Qed.

Lemma starts_with_pair_snoc (c : N) (a tail : jsstring) :
  starts_with [LF; LF] (c :: a ++ LF :: tail)
  = starts_with [LF; LF] (c :: a ++ [LF]).
Proof.
  destruct a as [|y a]; cbn [app starts_with]; now rewrite ?andb_true_r.
Qed.

(** Every text has a first pair of line feeds, or none. *)
Lemma paragraph_or_none (s : jsstring) :
  includes [LF; LF] s = false \/
  exists a b, first_separator [LF; LF] s a b.
Proof.
  induction s as [|c s IH]; [now left|].
  destruct (starts_with [LF; LF] (c :: s)) eqn:Hhere.
  - right. destruct s as [|c' s]; cbn [starts_with] in Hhere;
      [now rewrite andb_false_r in Hhere|].
    apply andb_prop in Hhere as [Hc Hc']. rewrite andb_true_r in Hc'.
    apply N.eqb_eq in Hc, Hc'. subst c c'.
    exists [], s. now split.
  - destruct IH as [Hnone | (a & b & -> & Hfirst)].
    + left. cbn [includes]. now rewrite Hhere, Hnone.
    + right. exists (c :: a), b. split; [reflexivity|].
      cbn [removelast] in *. cbn [app includes]. rewrite Hfirst, orb_false_r.
      rewrite <- starts_with_pair_snoc with (tail := LF :: b).
      exact Hhere.
Qed.

(** Every text has a first line feed, or none. *)
Lemma line_feed_or_none (s : jsstring) :
  includes [LF] s = false \/ exists a b, first_separator [LF] s a b.
Proof.
  induction s as [|c s IH]; [now left|].
  destruct (LF =? c) eqn:Hc.
  - right. apply N.eqb_eq in Hc. subst c. exists [], s. now split.
  - destruct IH as [Hnone | (a & b & -> & Ha)].
    + left. cbn [includes starts_with]. now rewrite Hc, Hnone.
    + right. exists (c :: a), b. split; [reflexivity|].
      cbn [removelast] in *. rewrite app_nil_r in *.
      cbn [includes starts_with]. now rewrite Hc, Ha.
Qed.

Lemma marks_literal_at (mark : N) :
  forall (a : jsstring) (prev : option N) (b : jsstring),
    marks_literal mark prev (a ++ b) = true ->
    marks_literal mark (from_option Some prev (last a)) b = true.
Proof.
  induction a as [|c a IH]; intros prev b H; [exact H|].
  cbn [app marks_literal] in H. apply andb_prop in H as [_ H].
  rewrite (prev_last_cons prev). now apply IH.
Qed.

(** Where every mark of a text is off the start of its line or has no
    white space after it, no marked line starts; the code unit after
    the text counts for a mark that ends it. *)
Lemma unmatched_marks_literal (mark : N) (pre rest : jsstring) :
  marks_literal mark None (pre ++ take 1 rest) = true ->
  unmatched (starts_marked_line mark) pre rest.
Proof.
  intros Hlit a b -> Hb (ws & cap & post & Hs & Hstart & Hws & Hspace & _).
  rewrite <- app_assoc in Hlit. apply marks_literal_at in Hlit.
  assert (Hprev : from_option Some None (last a) = last a)
    by now destruct (last a).
  rewrite Hprev in Hlit.
  destruct b as [|c b]; [congruence|].
  cbn [app] in Hs. injection Hs as -> Hs.
  cbn [app marks_literal] in Hlit. rewrite N.eqb_refl, Hstart in Hlit.
  cbn [andb] in Hlit. apply andb_prop in Hlit as [Hlit _].
  destruct ws as [|x ws]; [congruence|].
  cbn [forallb] in Hspace. apply andb_prop in Hspace as [Hx _].
  assert (Hnext : exists l, b ++ take 1 rest = x :: l).
  { destruct b as [|y b].
    - cbn [app] in Hs. rewrite Hs. now exists [].
    - cbn [app] in Hs. injection Hs as -> _. now eexists. }
  destruct Hnext as [l Hl]. rewrite Hl in Hlit.
  now rewrite Hx in Hlit.
Qed.

(** Where no [**] starts in a text, no bold span starts; the code unit
    after the text counts for a star that ends it. *)
Lemma unmatched_no_stars (pre rest : jsstring) :
  includes (str "**") (pre ++ take 1 rest) = false ->
  unmatched starts_bold_span pre rest.
Proof.
  intros Hnone a b -> Hb (cap & post & Hs & _).
  rewrite includes_none in Hnone.
  specialize (Hnone a (b ++ take 1 rest)).
  rewrite <- app_assoc in Hnone. specialize (Hnone eq_refl).
  change (str "**") with [42; 42] in *.
  destruct b as [|c b]; [congruence|].
  cbn [app] in Hs. injection Hs as -> Hs.
  destruct b as [|y b].
  - cbn [app] in Hs. rewrite Hs in Hnone. discriminate.
  - cbn [app] in Hs. injection Hs as -> _. discriminate.
Qed.

(** C4, as stated, fails. A line that begins with [#] is not always
    made a header: without white space after the [#] it stays as it
    is. The transforms overlap: the bold transform works on the output
    of the header transform, so a bold span in a header is wrapped
    twice. And a pair of line feeds is not always a paragraph boundary:
    after a [#] at the start of a line it is taken for the white space
    of a header. *)
Lemma hash_lines_stay_and_transforms_overlap :
  bot_markup (str "#Title") = str "<p>#Title</p>" /\
  bot_markup (str "## Title") = str "<p>## Title</p>" /\
  bot_markup (str "# **a**")
  = str "<p><strong><strong>a</strong></strong></p>" /\
  bot_markup (str "#" ++ [LF; LF] ++ str "foo")
  = str "<p><strong>foo</strong></p>".
Proof. repeat split; vm_compute; reflexivity. Qed.

(** C4, amended. For the assistant, [addMessage] stores as markup,
    between [<p>] and [</p>], the text put through five transforms in
    this order, each working on the whole output of the one before, so
    that they can overlap. Each transform works left to right on
    matches that do not overlap: at the first match of a text, what
    stands before it stays, the match is replaced, and what follows
    the match is transformed in its turn; a text without a match stays
    as it is; and every text has a first match or none.
    - Headers: a match is a [#] at the start of the text or right after
      a line terminator, then white space (one code unit or more, line
      terminators among them), then the rest of the line, which is not
      empty; it becomes the rest of the line in [<strong>]. A [#]
      elsewhere, or with no white space after it, is in no match.
    - Bold: a match is [**], a text on one line, as short as can be,
      and [**]; it becomes that text in [<strong>].
    - Bullets: as for headers with [-]; the match becomes the bullet
      glyph, a space and the rest of the line.
    - Paragraphs: a match is a pair of line feeds; it becomes
      [</p><p>].
    - Line breaks: a match is a line feed; it becomes [<br>].
    The example text renders to the expected markup. For the other
    senders the text is stored as plain text, untouched. *)
Theorem addMessage_formats_assistant_only
    (E : env) (w : world) (text : jsstring) :
  addMessage E (JStr text) Bot w
  = (Normal tt,
     append_node
       (MessageDiv Bot
          (InnerHTML
             (str "<p>"
                ++ format_breaks
                     (format_paragraphs
                        (format_bullets (format_bold (format_headers text))))
                ++ str "</p>"))
          (clock E (dates w)))
       (tick w)) /\
  (forall s pre ws cap post,
     first_marked_line 35 s pre ws cap post ->
     format_headers s
     = pre ++ str "<strong>" ++ cap ++ str "</strong>"
           ++ format_headers post) /\
  (forall s, unmatched (starts_marked_line 35) s [] ->
             format_headers s = s) /\
  (forall s, unmatched (starts_marked_line 35) s [] \/
             exists pre ws cap post, first_marked_line 35 s pre ws cap post) /\
  (forall s pre cap post,
     first_bold_span s pre cap post ->
     format_bold s
     = pre ++ str "<strong>" ++ cap ++ str "</strong>" ++ format_bold post) /\
  (forall s, unmatched starts_bold_span s [] -> format_bold s = s) /\
  (forall s, unmatched starts_bold_span s [] \/
             exists pre cap post, first_bold_span s pre cap post) /\
  (forall s pre ws cap post,
     first_marked_line 45 s pre ws cap post ->
     format_bullets s = pre ++ [BULLET; 32] ++ cap ++ format_bullets post) /\
  (forall s, unmatched (starts_marked_line 45) s [] ->
             format_bullets s = s) /\
  (forall s, unmatched (starts_marked_line 45) s [] \/
             exists pre ws cap post, first_marked_line 45 s pre ws cap post) /\
  (forall s a b,
     first_separator [LF; LF] s a b ->
     format_paragraphs s = a ++ str "</p><p>" ++ format_paragraphs b) /\
  (forall s, includes [LF; LF] s = false -> format_paragraphs s = s) /\
  (forall s, includes [LF; LF] s = false \/
             exists a b, first_separator [LF; LF] s a b) /\
  (forall s a b,
     first_separator [LF] s a b ->
     format_breaks s = a ++ str "<br>" ++ format_breaks b) /\
  (forall s, includes [LF] s = false -> format_breaks s = s) /\
  (forall s, includes [LF] s = false \/
             exists a b, first_separator [LF] s a b) /\
  bot_markup example_text = example_markup /\
  (forall s, s <> Bot ->
     addMessage E (JStr text) s w
     = (Normal tt,
        append_node (MessageDiv s (TextContent text) (clock E (dates w)))
          (tick w))).
Proof.
  split; [apply addMessage_text|].
  split.
  { intros s pre ws cap post (-> & Hline & Hun).
    unfold format_headers. rewrite header_re_shape.
    rewrite (replace_line_step 35 strong_tmpl eq_refl pre ws cap post Hline Hun).
    unfold strong_tmpl, expand. cbn [map expand_piece concat from_option id].
    now rewrite app_nil_r, <- !app_assoc. }
  split.
  { intros s Hun. unfold format_headers. rewrite header_re_shape.
    now apply replace_line_base. }
  split; [exact (marked_line_or_none 35)|].
  split.
  { intros s pre cap post (-> & Hspan & Hun).
    now apply format_bold_step. }
  split; [exact format_bold_base|].
  split; [exact bold_span_or_none|].
  split.
  { intros s pre ws cap post (-> & Hline & Hun).
    unfold format_bullets. rewrite bullet_re_shape.
    rewrite (replace_line_step 45 bullet_tmpl eq_refl pre ws cap post Hline Hun).
    unfold bullet_tmpl, expand. cbn [map expand_piece concat from_option id].
    now rewrite app_nil_r, <- !app_assoc. }
  split.
  { intros s Hun. unfold format_bullets. rewrite bullet_re_shape.
    now apply replace_line_base. }
  split; [exact (marked_line_or_none 45)|].
  split; [exact format_paragraphs_step|].
  split; [exact format_paragraphs_base|].
  split; [exact paragraph_or_none|].
  split; [exact format_breaks_step|].
  split; [exact format_breaks_base|].
  split; [exact line_feed_or_none|].
  split; [vm_compute; reflexivity|].
  intros s Hs. rewrite addMessage_text. destruct s; [reflexivity | | reflexivity].
  now destruct Hs.
Qed.

(** A header on the second line of a text, a bold span after a lone
    star, a bullet after a line with a dash in it, a paragraph break
    after a single line feed, two line breaks, and a user's text kept
    as typed. *)
Lemma addMessage_formats_assistant_only_witness :
  format_headers (str "intro" ++ [LF] ++ str "# Title" ++ [LF] ++ str "more")
  = str "intro" ++ [LF] ++ str "<strong>Title</strong>" ++ [LF] ++ str "more" /\
  format_bold (str "2 * 3 is **six** now")
  = str "2 * 3 is <strong>six</strong> now" /\
  format_bullets (str "a-b" ++ [LF] ++ str "-  item")
  = str "a-b" ++ [LF; BULLET; 32] ++ str "item" /\
  format_paragraphs (str "one" ++ [LF] ++ str "two" ++ [LF; LF] ++ str "three")
  = str "one" ++ [LF] ++ str "two</p><p>three" /\
  format_breaks (str "one" ++ [LF] ++ str "two" ++ [LF] ++ str "three")
  = str "one<br>two<br>three" /\
  addMessage (env_with (always reply_ok)) (JStr (str "**Hi**")) User
    (fresh_page [])
  = (Normal tt,
     append_node
       (MessageDiv User (TextContent (str "**Hi**")) (str "10:30"))
       (tick (fresh_page []))).
Proof.
  destruct (addMessage_formats_assistant_only
              (env_with (always reply_ok)) (fresh_page []) (str "**Hi**"))
    as (_ & Hhead & Hhead0 & _ & Hbold & Hbold0 & _ & Hbullet & Hbullet0 & _
        & Hpara & Hpara0 & _ & Hbreak & Hbreak0 & _ & _ & Hother).
  split.
  { rewrite (Hhead _ (str "intro" ++ [LF]) (str " ") (str "Title")
               ([LF] ++ str "more")).
    - rewrite (Hhead0 ([LF] ++ str "more")); [reflexivity|].
      now apply unmatched_marks_literal.
    - split; [reflexivity|]. split.
      + repeat split; try reflexivity; try discriminate. now left.
      + now apply unmatched_marks_literal. }
  split.
  { rewrite (Hbold _ (str "2 * 3 is ") (str "six") (str " now")).
    - rewrite (Hbold0 (str " now")); [reflexivity|].
      now apply unmatched_no_stars.
    - split; [reflexivity|]. split; [now split|].
      now apply unmatched_no_stars. }
  split.
  { rewrite (Hbullet _ (str "a-b" ++ [LF]) (str "  ") (str "item") []).
    - rewrite (Hbullet0 []); [reflexivity|].
      now apply unmatched_marks_literal.
    - split; [reflexivity|]. split.
      + repeat split; try reflexivity; try discriminate. now left.
      + now apply unmatched_marks_literal. }
  split.
  { rewrite (Hpara _ (str "one" ++ [LF] ++ str "two") (str "three"));
      [|now split].
    now rewrite (Hpara0 (str "three") eq_refl). }
  split.
  { rewrite (Hbreak _ (str "one") (str "two" ++ [LF] ++ str "three"));
      [|now split].
    rewrite (Hbreak _ (str "two") (str "three")); [|now split].
    now rewrite (Hbreak0 (str "three") eq_refl). }
  apply (Hother User). discriminate.
Defined.

Lemma formattedText_inert (text : jsstring) :
  inert text -> formattedText text = text.
Proof.
  intros (Hhash & Hstar & Hdash & Hlf).
  unfold formattedText.
  assert (Hh : format_headers text = text).
  { unfold format_headers, replace_global. rewrite header_re_shape.
    apply replace_loop_no_match. intros prev s1 s2 Hsplit.
    apply exec_line_no_mark. exact (tail_avoids 35 text s1 s2 Hhash Hsplit). }
  assert (Hb : format_bold text = text).
  { unfold format_bold, replace_global.
    apply replace_loop_no_match. intros prev s1 s2 Hsplit.
    apply exec_bold_no_star. exact (tail_avoids 42 text s1 s2 Hstar Hsplit). }
  assert (Hu : format_bullets text = text).
  { unfold format_bullets, replace_global. rewrite bullet_re_shape.
    apply replace_loop_no_match. intros prev s1 s2 Hsplit.
    apply exec_line_no_mark. exact (tail_avoids 45 text s1 s2 Hdash Hsplit). }
  rewrite Hh, Hb, Hu.
  unfold format_paragraphs. rewrite (split_plain LF [LF] text Hlf). cbn [join].
  unfold format_breaks. rewrite (split_plain LF [] text Hlf). reflexivity.
Qed.

(** C10. The formatter escapes nothing. Whatever the text of the
    assistant, its code units other than [#], [*], [-] and white space
    all reach the markup given to [innerHTML], in order and as they are;
    [<], [>], [&] and the double quote are among them. A text in which
    no transform finds anything goes into the markup unchanged, between
    [<p>] and [</p>]. The same text from another sender is stored as
    plain text. *)
Theorem bot_markup_not_escaped (E : env) (w : world) (text : jsstring) :
  kept_of text `sublist_of` bot_markup text /\
  forallb kept (str "<>&" ++ [34]) = true /\
  (inert text ->
   bot_markup text = str "<p>" ++ text ++ str "</p>" /\
   addMessage E (JStr text) Bot w
   = (Normal tt,
      append_node
        (MessageDiv Bot (InnerHTML (str "<p>" ++ text ++ str "</p>"))
           (clock E (dates w)))
        (tick w))) /\
  bot_markup (str "**<b>x</b>** <img src=x onerror=alert(1)>")
  = str "<p><strong><b>x</b></strong> <img src=x onerror=alert(1)></p>" /\
  (forall s, s <> Bot ->
     addMessage E (JStr text) s w
     = (Normal tt,
        append_node (MessageDiv s (TextContent text) (clock E (dates w)))
          (tick w))).
Proof.
  split.
  { unfold bot_markup.
    apply sublist_inserts_l, sublist_inserts_r, formattedText_keeps. }
  split; [reflexivity|].
  split.
  { intros Hinert.
    assert (Hm : bot_markup text = str "<p>" ++ text ++ str "</p>")
      by (unfold bot_markup; now rewrite formattedText_inert).
    split; [exact Hm|]. rewrite addMessage_text. cbn [render]. now rewrite Hm. }
  split; [vm_compute; reflexivity|].
  intros s Hs. rewrite addMessage_text. destruct s; [reflexivity | | reflexivity].
  now destruct Hs.
Qed.

(** An image tag with a script in it: markup from the assistant, plain
    text from the user. *)
Lemma bot_markup_not_escaped_witness :
  addMessage (env_with (always reply_ok))
    (JStr (str "<img src=x onerror=alert(1)>")) Bot (fresh_page [])
  = (Normal tt,
     append_node
       (MessageDiv Bot
          (InnerHTML (str "<p><img src=x onerror=alert(1)></p>"))
          (str "10:30"))
       (tick (fresh_page []))) /\
  addMessage (env_with (always reply_ok))
    (JStr (str "<img src=x onerror=alert(1)>")) User (fresh_page [])
  = (Normal tt,
     append_node
       (MessageDiv User (TextContent (str "<img src=x onerror=alert(1)>"))
          (str "10:30"))
       (tick (fresh_page []))).
Proof.
  destruct (bot_markup_not_escaped (env_with (always reply_ok))
              (fresh_page []) (str "<img src=x onerror=alert(1)>"))
    as (_ & _ & Hbot & _ & Hother).
  split.
  - apply Hbot. repeat split; reflexivity.
  - apply (Hother User). discriminate.
Defined.

(* ===================================================================== *)
(** * The session identifier *)
(* ===================================================================== *)

Section SessionFacts.

Lemma generateSessionId_head (fragment : jsstring) (now : N) :
  exists rest, generateSessionId fragment now = 115 :: rest.
Proof. unfold generateSessionId. eexists. reflexivity. Qed.

Lemma generated_not_absent (fragment : jsstring) (now : N) :
  absent (Some (generateSessionId fragment now)) = false.
Proof.
  destruct (generateSessionId_head fragment now) as [rest ->].
  cbn [absent]. now apply jseqb_false.
Qed.

Lemma base36_not_underscore (c : N) : is_base36 c = true -> c <> 95.
Proof.
  unfold is_base36. intros H ->. vm_compute in H. discriminate.
Qed.

(** A text cut at its first underscore is cut in one way only. *)
Lemma cut_at_underscore (f1 f2 d1 d2 : jsstring) :
  forallb is_base36 f1 = true -> forallb is_base36 f2 = true ->
  f1 ++ 95 :: d1 = f2 ++ 95 :: d2 -> f1 = f2 /\ d1 = d2.
Proof.
  revert f2. induction f1 as [|c f1 IH]; intros [|c' f2] H1 H2 Heq;
    cbn [app forallb] in *.
  - injection Heq as ->. now split.
  - injection Heq as <- _. apply andb_prop in H2 as [Hc _].
    now apply base36_not_underscore in Hc.
  - injection Heq as -> _. apply andb_prop in H1 as [Hc _].
    now apply base36_not_underscore in Hc.
  - injection Heq as -> Heq.
    apply andb_prop in H1 as [_ H1]. apply andb_prop in H2 as [_ H2].
    destruct (IH f2 H1 H2 Heq) as [-> ->]. now split.
Qed.

Lemma generateSessionId_inj (f1 f2 : jsstring) (n1 n2 : N) :
  forallb is_base36 f1 = true -> forallb is_base36 f2 = true ->
  generateSessionId f1 n1 = generateSessionId f2 n2 ->
  f1 = f2 /\ n1 = n2.
Proof.
  intros H1 H2 Heq. unfold generateSessionId in Heq.
  apply app_inv_head in Heq.
  change (str "_" ++ decimal n1) with (95 :: decimal n1) in Heq.
  change (str "_" ++ decimal n2) with (95 :: decimal n2) in Heq.
  destruct (cut_at_underscore _ _ _ _ H1 H2 Heq) as [Hf Hd].
  split; [exact Hf | now apply decimal_inj].
Qed.

End SessionFacts.

(** C8, as stated, fails: when access to the storage throws, the lines
    that set [sessionId] throw too; nothing catches the error, so the
    script ends there without an identifier. *)
Lemma sessionId_init_throws_when_storage_blocked :
  initSessionId (str "k3j9x0q1z") 1700000000000 blocked
    = (Throw SecurityError, blocked)
  /\ ~ exists id st',
         initSessionId (str "k3j9x0q1z") 1700000000000 blocked
         = (Normal id, st').
Proof.
  split; [reflexivity|].
  intros (id & st' & H). discriminate.
Qed.

(** C8, amended. With storage that works, the lines that set [sessionId]
    yield a non-empty identifier, which is then the stored one, and throw
    nothing. When reading the storage throws, or when nothing usable is
    stored and writing throws, that error leaves the script's top level
    and the storage is as before; a failing write does no harm when an
    identifier is already stored. *)
Theorem initSessionId_outcome
    (fragment : jsstring) (now : N) (st : storage) :
  (access_error st = None -> write_error st = None ->
   exists id st',
     initSessionId fragment now st = (Normal id, st') /\
     id <> [] /\
     items st' !! KEY = Some id) /\
  (forall e, access_error st = Some e ->
     initSessionId fragment now st = (Throw e, st)) /\
  (forall e, access_error st = None -> write_error st = Some e ->
     absent (items st !! KEY) = true ->
     initSessionId fragment now st = (Throw e, st)) /\
  (forall id, access_error st = None ->
     items st !! KEY = Some id -> id <> [] ->
     initSessionId fragment now st = (Normal id, st)).
Proof.
  unfold initSessionId, getItem, setItem.
  split; [|split; [|split]].
  - intros Ha Hw. rewrite Ha, Hw.
    destruct (absent (items st !! KEY)) eqn:Habs.
    + eexists _, _. split; [reflexivity|]. split.
      * destruct (generateSessionId_head fragment now) as [rest ->].
        discriminate.
      * cbn [items]. apply lookup_insert_eq.
    + destruct (items st !! KEY) as [id|] eqn:Hid; [|discriminate].
      exists id, st. cbn [absent] in Habs. apply jseqb_false in Habs.
      split; [reflexivity|]. split; [exact Habs | exact Hid].
  - intros e Ha. now rewrite Ha.
  - intros e Ha Hw Habs. now rewrite Ha, Hw, Habs.
  - intros id Ha Hid Hne. rewrite Ha, Hid. cbn [absent].
    apply jseqb_false in Hne. now rewrite Hne.
Qed.

(** A fresh tab with working storage gets a generated identifier; a tab
    whose storage is blocked gets the browser's error. *)
Lemma initSessionId_outcome_witness :
  (exists id st',
      initSessionId (str "k3j9x0q1z") 1700000000000 (working ∅)
        = (Normal id, st') /\
      id <> [] /\ items st' !! KEY = Some id) /\
  initSessionId (str "k3j9x0q1z") 1700000000000 blocked
    = (Throw SecurityError, blocked).
Proof.
  split.
  - destruct (initSessionId_outcome (str "k3j9x0q1z") 1700000000000
                (working ∅)) as [Hworks _].
    apply Hworks; reflexivity.
  - destruct (initSessionId_outcome (str "k3j9x0q1z") 1700000000000
                blocked) as (_ & Hread & _).
    apply (Hread SecurityError). reflexivity.
Defined.

(** C9, as stated, fails in its second half: nothing but the random
    fragment and the clock tells two fresh tabs apart, so with the same
    draw in the same millisecond they get the same identifier. *)
Lemma fresh_tabs_same_draw_same_id :
  fst tab_a = Normal (str "session_k3j9x0q1z_1700000000000")
  /\ fst tab_b = Normal (str "session_k3j9x0q1z_1700000000000")
  /\ ~ (fst tab_a <> fst tab_b).
Proof.
  split; [vm_compute; reflexivity|].
  split; [vm_compute; reflexivity|].
  intros H. now apply H.
Qed.

(** C9, amended. With working storage, loading the script twice in one
    tab gives the same identifier both times: it is generated only when
    none (or an empty one) is stored, and stored then; otherwise the
    stored one is used. Identifiers generated in two fresh tabs differ
    exactly when the random fragments or the clock readings differ. *)
Theorem sessionId_stable_in_tab
    (f1 f2 : jsstring) (n1 n2 : N) (st : storage) :
  (access_error st = None -> write_error st = None ->
   exists id st',
     initSessionId f1 n1 st = (Normal id, st') /\
     initSessionId f2 n2 st' = (Normal id, st') /\
     (absent (items st !! KEY) = true -> id = generateSessionId f1 n1) /\
     (absent (items st !! KEY) = false ->
      items st !! KEY = Some id /\ st' = st)) /\
  (forallb is_base36 f1 = true -> forallb is_base36 f2 = true ->
   (generateSessionId f1 n1 = generateSessionId f2 n2
    <-> f1 = f2 /\ n1 = n2)).
Proof.
  split.
  - intros Ha Hw.
    destruct (absent (items st !! KEY)) eqn:Habs.
    + exists (generateSessionId f1 n1),
        (Storage (<[KEY := generateSessionId f1 n1]> (items st)) None None).
      split.
      { unfold initSessionId, getItem, setItem.
        now rewrite Ha, Hw, Habs. }
      split.
      { unfold initSessionId, getItem. cbn [access_error items].
        rewrite lookup_insert_eq, generated_not_absent. reflexivity. }
      split; [reflexivity | discriminate].
    + destruct (items st !! KEY) as [id|] eqn:Hid; [|discriminate].
      assert (Hrun : forall f n, initSessionId f n st = (Normal id, st)).
      { intros f n. unfold initSessionId, getItem.
        now rewrite Ha, Hid, Habs. }
      exists id, st. rewrite !Hrun.
      split; [reflexivity|]. split; [reflexivity|].
      split; [discriminate | now split].
  - intros H1 H2. split.
    + now apply generateSessionId_inj.
    + now intros [-> ->].
Qed.

(** A fresh tab: the identifier made on the first load comes back on
    the second, whatever the second draw would have been. *)
Lemma sessionId_stable_in_tab_witness :
  (exists id st',
      initSessionId (str "k3j9x0q1z") 1700000000000 (working ∅)
        = (Normal id, st') /\
      initSessionId (str "zzzzzzzzz") 1700000099999 st' = (Normal id, st') /\
      id = str "session_k3j9x0q1z_1700000000000") /\
  generateSessionId (str "k3j9x0q1z") 1700000000000
    <> generateSessionId (str "zzzzzzzzz") 1700000000000.
Proof.
  destruct (sessionId_stable_in_tab (str "k3j9x0q1z") (str "zzzzzzzzz")
              1700000000000 1700000099999 (working ∅))
    as [Hsame _].
  destruct (sessionId_stable_in_tab (str "k3j9x0q1z") (str "zzzzzzzzz")
              1700000000000 1700000000000 (working ∅))
    as [_ Hdiff].
  split.
  - destruct (Hsame eq_refl eq_refl) as (id & st' & H1 & H2 & Hgen & _).
    exists id, st'. split; [exact H1|]. split; [exact H2|].
    rewrite (Hgen eq_refl). vm_compute. reflexivity.
  - intros Heq. apply (Hdiff eq_refl eq_refl) in Heq as [Hf _].
    vm_compute in Hf. discriminate.
Defined.

(* ===================================================================== *)
(** * The parts of a dispatch *)
(* ===================================================================== *)

Lemma dispatch_after_fetch (E : env) (message : jsstring) :
  dispatch E message
  = bind (fetchWithRetry E (origin E ++ str "/api/chat")
            (chat_options message) MAX_RETRIES) (after_fetch E).
Proof. reflexivity. Qed.

Lemma sendMessage_phases (E : env) (w : world) :
  trim (input_value w) <> [] ->
  sendMessage E w
  = bind (send_begin E (trim (input_value w)))
      (fun _ => send_rest E (trim (input_value w))) w.
Proof.
  intros Hmsg. unfold sendMessage. unfold bind at 1, gets at 1.
  apply jseqb_false in Hmsg. rewrite Hmsg.
  unfold send_begin, send_rest, bind. 
  destruct (addMessage E (JStr (trim (input_value w))) User w) as [[]?];
    [|reflexivity].
  cbn [modify].
  destruct (setLoadingState E true _) as [[]?]; reflexivity.
Qed.

(* ===================================================================== *)
(** * More about the retry loop *)
(* ===================================================================== *)

Section RetryMore.

Variable E : env.
Variables (url : jsstring) (o : options).

Lemma advance_nothing (w : world) : advance [] 0 w = w.
Proof. destruct w. unfold advance. cbn. now rewrite app_nil_r. Qed.

Lemma advance_inj (evs1 evs2 : list event) (n1 n2 : nat) (w : world) :
  advance evs1 n1 w = advance evs2 n2 w -> evs1 = evs2 /\ n1 = n2.
Proof.
  unfold advance. intros [= Hn Hlog].
  split; [now apply app_inv_head in Hlog | lia].
Qed.

Lemma retry_loop_events (retries : nat) :
  forall (remaining i : nat) (w : world),
    exists (n : nat) (evs : list event) (c : completion (option response)),
      retry_loop E url o retries remaining i w = (c, advance evs n w) /\
      Forall (loop_event E url o) evs.
Proof.
  induction remaining as [|rem IH]; intros i w.
  - exists 0%nat, [], (Normal None). rewrite advance_nothing. now split.
  - cbn [retry_loop]. unfold bind. rewrite attempt_eq. cbv zeta.
    assert (Hone : Forall (loop_event E url o) [EvFetch (sent_request E url o)])
      by (repeat constructor).
    destruct (settles (net E (fetches w))).
    + destruct (net E (fetches w)); eexists 1%nat, _, _; split;
        [reflexivity | exact Hone | reflexivity | exact Hone].
    + destruct (i <? retries - 1)%nat.
      * destruct (IH (S i)
                    (advance [EvFetch (sent_request E url o);
                              EvDelay RETRY_DELAY] 1 w))
          as (n & evs & c & Hrun & Hall).
        rewrite Hrun, advance_advance.
        eexists _, _, _. split; [reflexivity|].
        apply Forall_app. split; [|exact Hall].
        constructor; [now left|]. constructor; [now right | constructor].
      * destruct (net E (fetches w)); eexists 1%nat, _, _; split;
          [reflexivity | exact Hone | reflexivity | exact Hone].
Qed.

(** The loop stops at attempt [j] when no earlier attempt settled and
    this one settles or is the last allowed. *)
Lemma fetchWithRetry_stops_at (retries : nat) (w : world) (j : nat) :
  (j < retries)%nat ->
  (forall k, (k < j)%nat -> settles (net E (k + fetches w)) = false) ->
  settles (net E (j + fetches w)) = true \/ S j = retries ->
  exists evs : list event,
    fetchWithRetry E url o retries w
      = (outcome (net E (j + fetches w)), advance evs (S j) w) /\
    net_trace evs = retry_trace (S j) /\
    dom_trace evs = [] /\
    Forall (loop_event E url o) evs.
Proof.
  intros Hj Hearlier Hstop.
  destruct (retry_loop_spec E url o retries retries 0 w)
    as (n & evs & Hn & Hrun & Htr & Hdom & Hbefore & Hlast); [lia | lia |].
  assert (Hnj : n = S j).
  { destruct (Nat.lt_trichotomy (n - 1) j) as [Hlt | [Heq | Hgt]].
    - pose proof (Hearlier _ Hlt) as Hs.
      destruct (Nat.lt_ge_cases n retries) as [Hnr | Hnr]; [|lia].
      rewrite (Hlast Hnr) in Hs. discriminate.
    - lia.
    - pose proof (Hbefore j Hgt) as Hs.
      destruct Hstop as [Ht | Hr]; [rewrite Ht in Hs; discriminate | lia]. }
  subst n. replace (S j - 1 + fetches w)%nat with (j + fetches w)%nat in Hrun
    by lia.
  exists evs. split; [exact Hrun|]. split; [exact Htr|]. split; [exact Hdom|].
  destruct (retry_loop_events retries retries 0 w)
    as (n' & evs' & c' & Hrun' & Hall).
  unfold fetchWithRetry in Hrun. rewrite Hrun in Hrun'.
  assert (Hadv : advance evs (S j) w = advance evs' n' w) by congruence.
  apply advance_inj in Hadv as [-> _]. exact Hall.
Qed.

End RetryMore.

(** X1. The cap is the [retries] argument, whatever it is: with
    [retries = 0] the function resolves to [undefined] without a single
    request; otherwise it makes between 1 and [retries] attempts, with
    the fixed delay between consecutive ones and none after the last,
    and it touches nothing of the page. *)
Theorem fetchWithRetry_cap_is_retries
    (E : env) (url : jsstring) (o : options) (retries : nat) (w : world) :
  (retries = 0%nat ->
   fetchWithRetry E url o retries w = (Normal None, w)) /\
  ((0 < retries)%nat ->
   exists (n : nat) (evs : list event),
     (1 <= n <= retries)%nat /\
     fetchWithRetry E url o retries w
       = (outcome (net E (n - 1 + fetches w)), advance evs n w) /\
     attempts evs = n /\
     net_trace evs = retry_trace n /\
     dom_trace evs = []).
Proof.
  split.
  - intros ->. reflexivity.
  - intros Hpos.
    destruct (retry_loop_spec E url o retries retries 0 w)
      as (n & evs & Hn & Hrun & Htr & Hdom & _ & _); [lia | exact Hpos |].
    exists n, evs. split; [exact Hn|]. split; [exact Hrun|].
    split; [now rewrite attempts_net_trace, Htr, attempts_retry_trace|].
    split; [exact Htr | exact Hdom].
Qed.

(** With a cap of five and a server that always answers 500: five
    attempts, four delays. *)
Lemma fetchWithRetry_cap_is_retries_witness :
  exists evs : list event,
    fetchWithRetry (env_with (always reply_500)) chat_url
      (chat_options (str "hi")) 5 (fresh_page [])
    = (Normal (Some reply_500), advance evs 5 (fresh_page [])) /\
    net_trace evs
    = [Attempt; Wait 2000; Attempt; Wait 2000; Attempt; Wait 2000;
       Attempt; Wait 2000; Attempt].
Proof.
  destruct (fetchWithRetry_cap_is_retries (env_with (always reply_500))
              chat_url (chat_options (str "hi")) 5 (fresh_page []))
    as [_ Hpos].
  destruct Hpos as (n & evs & Hn & Hrun & _ & Htr & _); [lia|].
  assert (Hn5 : n = 5%nat).
  { assert (Hfull : fst (fetchWithRetry (env_with (always reply_500)) chat_url
                      (chat_options (str "hi")) 5 (fresh_page []))
                    = Normal (Some reply_500)) by (vm_compute; reflexivity).
    assert (Hf : fetches (snd (fetchWithRetry (env_with (always reply_500))
                   chat_url (chat_options (str "hi")) 5 (fresh_page [])))
                 = 5%nat) by (vm_compute; reflexivity).
    rewrite Hrun in Hf. cbn in Hf. lia. }
  subst n. exists evs. split; [exact Hrun | exact Htr].
Defined.

(** X2. Every attempt sends the same request: the given URL, method and
    body, and the given headers with [X-Session-ID] set to the session
    identifier, in place of any value the caller gave for it. *)
Theorem fetchWithRetry_sends_session_header
    (E : env) (url : jsstring) (o : options) (retries : nat) (w : world) :
  exists evs : list event,
    log (snd (fetchWithRetry E url o retries w)) = log w ++ evs /\
    Forall
      (fun r =>
         req_url r = url /\
         exists o',
           req_options r = Some o' /\
           opt_method o' = opt_method o /\
           opt_body o' = opt_body o /\
           opt_headers o' !! str "X-Session-ID" = Some (sessionId E) /\
           forall k, k <> str "X-Session-ID" ->
                     opt_headers o' !! k = opt_headers o !! k)
      (requests evs).
Proof.
  destruct (retry_loop_events E url o retries retries 0 w)
    as (n & evs & c & Hrun & Hall).
  exists evs. unfold fetchWithRetry. rewrite Hrun. split; [reflexivity|].
  clear Hrun. induction Hall as [|e evs He _ IH]; [constructor|].
  destruct He as [-> | ->]; cbn [requests omap]; [|exact IH].
  constructor; [|exact IH].
  split; [reflexivity|]. exists (with_session E o).
  split; [reflexivity|]. split; [reflexivity|]. split; [reflexivity|].
  split.
  - cbn [with_session opt_headers]. apply lookup_insert_eq.
  - intros k Hk. cbn [with_session opt_headers].
    now apply lookup_insert_ne.
Qed.

(** X3. A rejection named [AbortError] ends the loop at once, at any
    attempt: after [j] attempts that were retried, the error of attempt
    [j] is thrown, with no delay after it. *)
Theorem fetchWithRetry_abort_not_retried
    (E : env) (url : jsstring) (o : options) (retries : nat) (w : world)
    (j : nat) (e : js_error) :
  (j < retries)%nat ->
  (forall k, (k < j)%nat -> transient (net E (k + fetches w))) ->
  net E (j + fetches w) = Rejected e ->
  err_name e = str "AbortError" ->
  exists evs : list event,
    fetchWithRetry E url o retries w = (Throw e, advance evs (S j) w) /\
    net_trace evs = retry_trace (S j).
Proof.
  intros Hj Hearlier Hnet Hname.
  destruct (fetchWithRetry_stops_at E url o retries w j Hj)
    as (evs & Hrun & Htr & _).
  - intros k Hk. apply transient_not_settled. now apply Hearlier.
  - left. rewrite Hnet. cbn [settles]. rewrite Hname. apply jseqb_refl.
  - exists evs. rewrite Hnet in Hrun. now split.
Qed.

(** A 500, then the request is aborted: two attempts, no third. *)
Lemma fetchWithRetry_abort_not_retried_witness :
  exists evs : list event,
    fetchWithRetry
      (env_with (after_one_500
                   (Rejected (JsError (str "AbortError")
                                (str "The user aborted a request.")))))
      chat_url (chat_options (str "hi")) MAX_RETRIES (fresh_page [])
    = (Throw (JsError (str "AbortError") (str "The user aborted a request.")),
       advance evs 2 (fresh_page [])) /\
    net_trace evs = [Attempt; Wait 2000; Attempt].
Proof.
  apply (fetchWithRetry_abort_not_retried _ chat_url (chat_options (str "hi"))
           MAX_RETRIES (fresh_page []) 1
           (JsError (str "AbortError") (str "The user aborted a request."))).
  - unfold MAX_RETRIES. lia.
  - intros k Hk. assert (k = 0%nat) as -> by lia. cbn. lia.
  - reflexivity.
  - reflexivity.
Defined.

(** X4. What is retried is every response that is neither [ok] nor in
    the 4xx range, not only the 5xx ones: after such a first response,
    with a cap of at least two, a second attempt is made 2000 ms later. *)
Theorem fetchWithRetry_retries_any_other_status
    (E : env) (url : jsstring) (o : options) (retries : nat) (w : world)
    (r : response) :
  (2 <= retries)%nat ->
  net E (fetches w) = Resolved r ->
  status r < 200 \/ 300 <= status r < 400 \/ 500 <= status r ->
  exists (n : nat) (evs : list event) (rest : list net_event),
    (2 <= n <= retries)%nat /\
    fetchWithRetry E url o retries w
      = (outcome (net E (n - 1 + fetches w)), advance evs n w) /\
    net_trace evs = Attempt :: Wait 2000 :: Attempt :: rest.
Proof.
  intros Hcap Hnet Hstatus.
  destruct (retry_loop_spec E url o retries retries 0 w)
    as (n & evs & Hn & Hrun & Htr & _ & _ & Hlast); [lia | lia |].
  assert (Hs : settles (net E (fetches w)) = false).
  { rewrite Hnet. unfold settles, ok.
    apply orb_false_iff. split; apply andb_false_iff.
    - destruct (N.lt_ge_cases (status r) 200) as [Hlo|Hhi].
      + left. apply N.leb_gt. lia.
      + right. apply N.leb_gt. lia.
    - destruct (N.lt_ge_cases (status r) 400) as [Hlo|Hhi].
      + left. apply N.leb_gt. lia.
      + right. apply N.ltb_ge. lia. }
  assert (Hn2 : (2 <= n)%nat).
  { destruct (Nat.lt_ge_cases n 2) as [Hlt|Hge]; [|exact Hge].
    assert (Hn1 : n = 1%nat) by lia. subst n.
    cbn [Nat.sub Nat.add] in Hlast. rewrite Hlast in Hs by lia.
    discriminate. }
  exists n, evs.
  destruct n as [|[|m]]; [lia | lia |].
  exists (match m with O => [] | S _ => Wait RETRY_DELAY :: retry_trace m end).
  split; [lia|]. split; [exact Hrun|].
  rewrite Htr. destruct m; reflexivity.
Qed.

(** A server that keeps answering 304. *)
Lemma fetchWithRetry_retries_any_other_status_witness :
  exists (n : nat) (evs : list event) (rest : list net_event),
    (2 <= n <= 3)%nat /\
    fetchWithRetry (env_with (always (Response 304 (Normal JNull)))) chat_url
      (chat_options (str "hi")) 3 (fresh_page [])
      = (outcome (Resolved (Response 304 (Normal JNull))),
         advance evs n (fresh_page [])) /\
    net_trace evs = Attempt :: Wait 2000 :: Attempt :: rest.
Proof.
  apply (fetchWithRetry_retries_any_other_status
           (env_with (always (Response 304 (Normal JNull)))) chat_url
           (chat_options (str "hi")) 3 (fresh_page [])
           (Response 304 (Normal JNull))).
  - lia.
  - reflexivity.
  - right. left. cbn. lia.
Defined.

(* ===================================================================== *)
(** * More about a dispatch *)
(* ===================================================================== *)

Section DispatchMore.

Variable E : env.

(** [sendMessage], once the retry loop has handed back [c]. *)
Lemma sendMessage_finish (w : world) (c : completion (option response))
    (w1 : world) :
  trim (input_value w) <> [] ->
  fetchWithRetry E (origin E ++ str "/api/chat")
    (chat_options (trim (input_value w))) MAX_RETRIES (begun E w) = (c, w1) ->
  sendMessage E w = finish E (bind (lift c) (after_fetch E) w1).
Proof.
  intros Hmsg Hloop.
  unfold sendMessage. unfold bind at 1, gets at 1.
  apply jseqb_false in Hmsg. rewrite Hmsg.
  unfold bind at 1. rewrite addMessage_text. cbn [render].
  unfold bind at 1, modify at 1.
  unfold bind at 1. rewrite setLoadingState_true.
  fold (user_entry E w). fold (begun E w).
  unfold try_finally, try_catch. rewrite dispatch_after_fetch.
  unfold bind at 1. rewrite Hloop.
  unfold finish, bind at 1, lift.
  destruct c as [fetched|e].
  - destruct (after_fetch E fetched w1) as [[[]|e] w2].
    + rewrite setLoadingState_false. reflexivity.
    + unfold bind. rewrite addMessage_text, setLoadingState_false. reflexivity.
  - unfold bind. rewrite addMessage_text, setLoadingState_false. reflexivity.
Qed.

(** A dispatch whose loop stops at attempt [j]. *)
Lemma sendMessage_path (w : world) (j : nat) :
  trim (input_value w) <> [] ->
  (j < 3)%nat ->
  (forall k, (k < j)%nat -> settles (net E (k + fetches w)) = false) ->
  settles (net E (j + fetches w)) = true \/ j = 2%nat ->
  exists evs : list event,
    net_trace evs = retry_trace (S j) /\
    dom_trace evs = [] /\
    Forall (loop_event E (origin E ++ str "/api/chat")
              (chat_options (trim (input_value w)))) evs /\
    sendMessage E w
    = finish E (bind (lift (outcome (net E (j + fetches w)))) (after_fetch E)
                  (advance evs (S j) (begun E w))).
Proof.
  intros Hmsg Hj Hearlier Hstop.
  destruct (fetchWithRetry_stops_at E (origin E ++ str "/api/chat")
              (chat_options (trim (input_value w))) MAX_RETRIES (begun E w) j)
    as (evs & Hrun & Htr & Hdom & Hall).
  - exact Hj.
  - exact Hearlier.
  - destruct Hstop as [Hs | ->]; [now left | now right].
  - exists evs. split; [exact Htr|]. split; [exact Hdom|].
    split; [exact Hall|].
    exact (sendMessage_finish w _ _ Hmsg Hrun).
Qed.

Lemma requests_app (l1 l2 : list event) :
  requests (l1 ++ l2) = requests l1 ++ requests l2.
Proof. apply omap_app. Qed.

Lemma requests_off (w : world) : requests (off_events E w) = [].
Proof.
  unfold off_events. destruct (typing_indicator E w) as [[]|]; try reflexivity.
  destruct (dotInterval =? 0)%nat; reflexivity.
Qed.

(** The page when a dispatch is over: [n] is the entry for the outcome,
    [evs] what the retry loop logged, [d] the time stamps taken in
    between. *)
Lemma settled_page (w : world) (evs : list event) (k d : nat) (n : node) :
  is_typing n = false ->
  dom_trace evs = [] ->
  let w' := loading_off E
              (append_node n (tick (ticks d (advance evs k (begun E w))))) in
  (as_appended n = n ->
   transcript w' = transcript w ++ [user_entry E w; n]) /\
  (exists evs', log w' = log w ++ evs' /\
                net_trace evs' = net_trace evs /\
                requests evs' = requests evs /\
                appended_entries evs' = [user_entry E w; n]) /\
  input_value w' = [] /\
  input_disabled w' = false /\
  button_disabled w' = false /\
  button_content w' = TextContent (str "Send") /\
  fetches w' = (k + fetches w)%nat.
Proof.
  intros Hn Hdom w'.
  split.
  { intros Hsame. now apply transcript_after_dispatch. }
  split.
  { set (w2 := append_node n (tick (ticks d (advance evs k (begun E w))))).
    exists ([EvAppend (user_entry E w);
             EvAppend (TypingDiv (S (next_handle w)));
             EvSetInterval (S (next_handle w)) 500]
              ++ evs ++ [EvAppend n] ++ off_events E w2).
    split; [|split; [|split]].
    - unfold w'. fold w2. cbn. now rewrite <- !app_assoc.
    - rewrite !net_trace_app, net_trace_off. cbn. now rewrite app_nil_r.
    - rewrite !requests_app, requests_off. cbn. now rewrite app_nil_r.
    - rewrite !appended_entries_app, (appended_entries_net evs Hdom),
        appended_entries_off.
      cbn. now rewrite Hn. }
  repeat split.
Qed.

End DispatchMore.

(* ===================================================================== *)
(** * The ways a dispatch can end *)
(* ===================================================================== *)

Section DispatchPaths.

Variable E : env.

Lemma ticks_0 (w : world) : ticks 0 w = w.
Proof. now destruct w. Qed.

Lemma tick_ticks (d : nat) (w : world) : tick (ticks d w) = ticks (S d) w.
Proof. reflexivity. Qed.

Lemma dates_in_flight (evs : list event) (k d : nat) (w : world) :
  dates (ticks d (advance evs k (begun E w))) = (d + S (dates w))%nat.
Proof. reflexivity. Qed.

Lemma finish_normal (u : unit) (w2 : world) :
  finish E (Normal u, w2) = setLoadingState E false w2.
Proof. reflexivity. Qed.

Lemma finish_throw (e : js_error) (w2 : world) :
  finish E (Throw e, w2)
  = setLoadingState E false
      (append_node
         (MessageDiv Error (TextContent (errorMessage (onLine E) e))
            (clock E (dates w2)))
         (tick w2)).
Proof.
  unfold finish, bind. rewrite addMessage_text. reflexivity.
Qed.

(** The page after a dispatch that stopped at attempt [j], took [d] time
    stamps before the one of the outcome entry [n], and appended [n]. *)
Lemma shows_entry (w : world) (j d : nat) (evs : list event) (n : node) :
  is_typing n = false ->
  as_appended n = n ->
  net_trace evs = retry_trace (S j) ->
  dom_trace evs = [] ->
  sendMessage E w
  = (Normal tt,
     loading_off E
       (append_node n (tick (ticks d (advance evs (S j) (begun E w)))))) ->
  dispatch_shows E w j n.
Proof.
  intros Hn Hsame Htr Hdom Hrun.
  pose proof (settled_page E w evs (S j) d n Hn Hdom) as Hpage.
  cbv zeta in Hpage.
  destruct Hpage as (Htrans & (evs' & Hlog & Hnet & _) & _).
  eexists _, evs'. split; [exact Hrun|]. split; [exact Hlog|].
  split; [now rewrite Hnet | exact (Htrans Hsame)].
Qed.

(** A dispatch whose [try] block, once the loop has stopped at attempt
    [j], appends the markup of the assistant. *)
Lemma dispatch_path_reply (w : world) (j : nat) (markup : jsstring) :
  trim (input_value w) <> [] ->
  stops_at E w j ->
  (forall w1,
     bind (lift (outcome (net E (j + fetches w)))) (after_fetch E) w1
     = (Normal tt,
        append_node (MessageDiv Bot (InnerHTML markup) (clock E (dates w1)))
          (tick w1))) ->
  dispatch_shows E w j
    (MessageDiv Bot (InnerHTML markup) (clock E (S (dates w)))).
Proof.
  intros Hmsg [[Hj Hbefore] Hstop] Htry.
  destruct (sendMessage_path E w j Hmsg Hj Hbefore Hstop)
    as (evs & Htr & Hdom & _ & Hrun).
  rewrite Htry, finish_normal, setLoadingState_false in Hrun.
  rewrite <- (ticks_0 (advance evs (S j) (begun E w))) in Hrun.
  rewrite dates_in_flight in Hrun.
  exact (shows_entry w j 0 evs
           (MessageDiv Bot (InnerHTML markup) (clock E (0 + S (dates w))))
           eq_refl eq_refl Htr Hdom Hrun).
Qed.

(** A dispatch whose [try] block, once the loop has stopped at attempt
    [j], throws [e] after [d] time stamps. *)
Lemma dispatch_path_error (w : world) (j d : nat) (e : js_error) :
  trim (input_value w) <> [] ->
  stops_at E w j ->
  (forall w1,
     bind (lift (outcome (net E (j + fetches w)))) (after_fetch E) w1
     = (Throw e, ticks d w1)) ->
  dispatch_shows E w j
    (MessageDiv Error (TextContent (errorMessage (onLine E) e))
       (clock E (d + S (dates w)))).
Proof.
  intros Hmsg [[Hj Hbefore] Hstop] Htry.
  destruct (sendMessage_path E w j Hmsg Hj Hbefore Hstop)
    as (evs & Htr & Hdom & _ & Hrun).
  rewrite Htry, finish_throw, setLoadingState_false in Hrun.
  rewrite dates_in_flight in Hrun.
  exact (shows_entry w j d evs
           (MessageDiv Error (TextContent (errorMessage (onLine E) e))
              (clock E (d + S (dates w))))
           eq_refl eq_refl Htr Hdom Hrun).
Qed.

(** A successful response always stops the loop. *)
Lemma reaches_ok_stops (w : world) (j : nat) (r : response) :
  reaches E w j ->
  net E (j + fetches w) = Resolved r ->
  ok r = true ->
  stops_at E w j.
Proof.
  intros Hreach Hnet Hok. split; [exact Hreach|].
  left. rewrite Hnet. now apply success_settles.
Qed.

End DispatchPaths.

Section AfterFetch.

Variable E : env.

Lemma bot_markup_fallback :
  bot_markup MSG_FALLBACK = str "<p>" ++ MSG_FALLBACK ++ str "</p>".
Proof. vm_compute. reflexivity. Qed.

Lemma errorMessage_TypeError (online : bool) (msg : String.string) :
  errorMessage online (TypeError msg)
  = if online then MSG_UNREACHABLE else MSG_OFFLINE.
Proof.
  unfold errorMessage, TypeError. cbn [err_name err_message].
  rewrite jseqb_refl, orb_true_r. now destruct online.
Qed.

End AfterFetch.



(** X6. A successful response whose body has no usable [response] (the
    field is missing, or is [null], [false], [0] or the empty string)
    is not an error: the fixed notice is shown as an entry of the
    assistant. *)
Theorem dispatch_reply_missing_shows_notice
    (E : env) (w : world) (j : nat) (r : response) (data : json)
    (reply : option json) :
  trim (input_value w) <> [] ->
  reaches E w j ->
  net E (j + fetches w) = Resolved r ->
  ok r = true ->
  json_body r = Normal data ->
  get_prop "response" data = Normal reply ->
  truthy reply = false ->
  dispatch_shows E w j
    (MessageDiv Bot (InnerHTML (str "<p>" ++ MSG_FALLBACK ++ str "</p>"))
       (clock E (S (dates w)))).
Proof.
  intros Hmsg Hreach Hnet Hok Hjson Hreply Hfalsy.
  apply dispatch_path_reply;
    [exact Hmsg | exact (reaches_ok_stops E w j r Hreach Hnet Hok) |].
  intros w1. rewrite Hnet. cbn [outcome].
  unfold bind at 1, lift at 1, after_fetch.
  unfold bind at 1, lift at 1. rewrite Hjson, Hok. cbn [negb].
  unfold bind at 1, lift at 1. rewrite Hreply, Hfalsy.
  rewrite addMessage_text. cbn [render]. now rewrite bot_markup_fallback.
Qed.

Lemma dispatch_reply_missing_shows_notice_witness :
  dispatch_shows
    (env_with (always (Response 200 (Normal (JObj [(str "response", JStr [])])))))
    (fresh_page (str "hi")) 0
    (MessageDiv Bot (InnerHTML (str "<p>" ++ MSG_FALLBACK ++ str "</p>"))
       (str "10:30")).
Proof.
  apply (dispatch_reply_missing_shows_notice
           (env_with (always (Response 200
                                (Normal (JObj [(str "response", JStr [])])))))
           (fresh_page (str "hi")) 0
           (Response 200 (Normal (JObj [(str "response", JStr [])])))
           (JObj [(str "response", JStr [])]) (Some (JStr []))).
  - vm_compute. discriminate.
  - split; [lia|]. intros k Hk. lia.
  - reflexivity.
  - reflexivity.
  - reflexivity.
  - reflexivity.
  - reflexivity.
Defined.

(** X7. A reply that is truthy but not a string (a number, [true], an
    array, an object) makes [addMessage] throw a [TypeError] after it
    took its time stamp; the dispatch reports it as a connection
    problem, or as a lost network when the browser is off line. *)
Theorem dispatch_reply_not_string
    (E : env) (w : world) (j : nat) (r : response) (data reply : json) :
  trim (input_value w) <> [] ->
  reaches E w j ->
  net E (j + fetches w) = Resolved r ->
  ok r = true ->
  json_body r = Normal data ->
  get_prop "response" data = Normal (Some reply) ->
  truthy (Some reply) = true ->
  (forall text, reply <> JStr text) ->
  dispatch_shows E w j
    (MessageDiv Error
       (TextContent (if onLine E then MSG_UNREACHABLE else MSG_OFFLINE))
       (clock E (S (S (dates w))))).
Proof.
  intros Hmsg Hreach Hnet Hok Hjson Hreply Htruthy Hshape.
  rewrite <- (errorMessage_TypeError (onLine E) "text.replace is not a function").
  apply (dispatch_path_error E w j 1);
    [exact Hmsg | exact (reaches_ok_stops E w j r Hreach Hnet Hok) |].
  intros w1. rewrite Hnet. cbn [outcome].
  unfold bind at 1, lift at 1, after_fetch.
  unfold bind at 1, lift at 1. rewrite Hjson, Hok. cbn [negb].
  unfold bind at 1, lift at 1. rewrite Hreply, Htruthy.
  cbn [from_option id]. now rewrite addMessage_bot_not_text.
Qed.

Lemma dispatch_reply_not_string_witness :
  dispatch_shows
    (env_with (always (Response 200
                         (Normal (JObj [(str "response", JBool true)])))))
    (fresh_page (str "hi")) 0
    (MessageDiv Error (TextContent MSG_UNREACHABLE) (str "10:30")).
Proof.
  apply (dispatch_reply_not_string
           (env_with (always (Response 200
                                (Normal (JObj [(str "response", JBool true)])))))
           (fresh_page (str "hi")) 0
           (Response 200 (Normal (JObj [(str "response", JBool true)])))
           (JObj [(str "response", JBool true)]) (JBool true)).
  - vm_compute. discriminate.
  - split; [lia|]. intros k Hk. lia.
  - reflexivity.
  - reflexivity.
  - reflexivity.
  - reflexivity.
  - reflexivity.
  - discriminate.
Defined.

Section MessageFacts.

Lemma starts_with_In (p s : jsstring) (c : N) :
  starts_with p s = true -> In c p -> In c s.
Proof.
  revert s. induction p as [|a p IH]; intros s Hp Hc; [destruct Hc|].
  destruct s as [|b s]; [discriminate|]. cbn [starts_with] in Hp.
  apply andb_prop in Hp as [Hab Hp]. apply N.eqb_eq in Hab. subst b.
  destruct Hc as [<- | Hc]; [now left | right; now apply IH].
Qed.

(** A text that lacks one code unit of [p] does not include [p]. *)
Lemma includes_lacking (p s : jsstring) (c : N) :
  In c p -> ~ In c s -> includes p s = false.
Proof.
  intros Hc Hs. destruct (includes p s) eqn:Hinc; [|reflexivity].
  exfalso. apply Hs. clear Hs.
  induction s as [|b s IH].
  - cbn [includes] in Hinc. rewrite orb_false_r in Hinc.
    exact (starts_with_In p [] c Hinc Hc).
  - cbn [includes] in Hinc. apply orb_prop in Hinc as [Hp | Hrest].
    + exact (starts_with_In p (b :: s) c Hp Hc).
    + right. now apply IH.
Qed.

Lemma str_cons (c : ascii) (s : String.string) :
  str (String c s) = N_of_ascii c :: str s.
Proof. reflexivity. Qed.

(** The decimal text of a number is made of digits. *)
Lemma uint_digits (u : Decimal.uint) :
  Forall (fun c => 48 <= c <= 57) (str (NilEmpty.string_of_uint u)).
Proof.
  induction u; cbn [NilEmpty.string_of_uint]; [constructor|..];
    rewrite str_cons; (constructor; [vm_compute; split; discriminate | exact IHu]).
Qed.

Lemma decimal_digits (n : N) : Forall (fun c => 48 <= c <= 57) (decimal n).
Proof.
  unfold decimal, NilZero.string_of_uint.
  destruct (N.to_uint n); try apply uint_digits.
  constructor; [vm_compute; split; discriminate | constructor].
Qed.

Lemma server_error_lacks (c : N) (n : N) :
  ~ (48 <= c <= 57) ->
  forallb (fun x => negb (x =? c)) (str "Server error: ") = true ->
  ~ In c (str "Server error: " ++ decimal n).
Proof.
  intros Hc Hlit Hin. apply in_app_or in Hin as [Hin | Hin].
  - rewrite forallb_forall in Hlit. specialize (Hlit c Hin).
    now rewrite N.eqb_refl in Hlit.
  - pose proof (decimal_digits n) as Hd. rewrite List.Forall_forall in Hd.
    exact (Hc (Hd c Hin)).
Qed.

(** The message for a status without an error text, as the [catch]
    block words it when the browser is on line. *)
Lemma errorMessage_server_status (n : N) :
  errorMessage true (JsError (str "Error") (str "Server error: " ++ decimal n))
  = str "Error: Server error: " ++ decimal n.
Proof.
  unfold errorMessage. cbn [negb err_message err_name].
  rewrite (includes_lacking (str "Failed to fetch") _ 70);
    [| vm_compute; tauto
     | apply server_error_lacks; [lia | vm_compute; reflexivity]].
  replace (jseqb (str "Error") (str "TypeError")) with false
    by (symmetry; apply jseqb_false; vm_compute; discriminate).
  cbn [orb].
  rewrite (includes_lacking (str "loading") _ 108);
    [| vm_compute; tauto
     | apply server_error_lacks; [lia | vm_compute; reflexivity]].
  rewrite (includes_lacking (str "rate limit") _ 108);
    [| vm_compute; tauto
     | apply server_error_lacks; [lia | vm_compute; reflexivity]].
  replace (jseqb (str "Server error: " ++ decimal n) []) with false
    by (symmetry; apply jseqb_false; discriminate).
  reflexivity.
Qed.

End MessageFacts.

(** X8. When the last response is not [ok] and its body carries a truthy
    [error], the text of that field (converted as [new Error] converts
    it) is the message the [catch] block works on. *)
Theorem dispatch_server_error_text
    (E : env) (w : world) (j : nat) (r : response) (data error : json)
    (text : jsstring) :
  trim (input_value w) <> [] ->
  stops_at E w j ->
  net E (j + fetches w) = Resolved r ->
  ok r = false ->
  json_body r = Normal data ->
  get_prop "error" data = Normal (Some error) ->
  truthy (Some error) = true ->
  to_string error = Some text ->
  dispatch_shows E w j
    (MessageDiv Error
       (TextContent (errorMessage (onLine E) (JsError (str "Error") text)))
       (clock E (S (dates w)))).
Proof.
  intros Hmsg Hstop Hnet Hok Hjson Herror Htruthy Htext.
  apply (dispatch_path_error E w j 0); [exact Hmsg | exact Hstop |].
  intros w1. rewrite ticks_0, Hnet. cbn [outcome].
  unfold bind at 1, lift at 1, after_fetch.
  unfold bind at 1, lift at 1. rewrite Hjson, Hok. cbn [negb].
  unfold bind at 1, lift at 1. rewrite Herror, Htruthy.
  cbn [from_option id]. now rewrite Htext.
Qed.

(** A 400 with an error text: one attempt, and the text after
    [Error: ]. *)
Lemma dispatch_server_error_text_witness :
  dispatch_shows (env_with (always reply_400)) (fresh_page (str "hi")) 0
    (MessageDiv Error (TextContent (str "Error: Message is required"))
       (str "10:30")).
Proof.
  exact (dispatch_server_error_text (env_with (always reply_400))
           (fresh_page (str "hi")) 0 reply_400
           (JObj [(str "error", JStr (str "Message is required"))])
           (JStr (str "Message is required")) (str "Message is required")
           ltac:(vm_compute; discriminate)
           ltac:(split; [split; [lia | intros k Hk; lia] | left; reflexivity])
           eq_refl eq_refl eq_refl eq_refl eq_refl eq_refl).
Defined.

(** X9. When the last response is not [ok] and its body has no truthy
    [error], the user is shown the status code: on line, the entry
    reads [Error: Server error: ] followed by the status in decimal. *)
Theorem dispatch_server_error_status
    (E : env) (w : world) (j : nat) (r : response) (data : json)
    (error : option json) :
  trim (input_value w) <> [] ->
  stops_at E w j ->
  net E (j + fetches w) = Resolved r ->
  ok r = false ->
  json_body r = Normal data ->
  get_prop "error" data = Normal error ->
  truthy error = false ->
  dispatch_shows E w j
    (MessageDiv Error
       (TextContent
          (if onLine E
           then str "Error: Server error: " ++ decimal (status r)
           else MSG_OFFLINE))
       (clock E (S (dates w)))).
Proof.
  intros Hmsg Hstop Hnet Hok Hjson Herror Hfalsy.
  assert (Hshown :
    errorMessage (onLine E)
      (JsError (str "Error") (str "Server error: " ++ decimal (status r)))
    = if onLine E
      then str "Error: Server error: " ++ decimal (status r)
      else MSG_OFFLINE).
  { destruct (onLine E); [apply errorMessage_server_status | reflexivity]. }
  rewrite <- Hshown.
  apply (dispatch_path_error E w j 0); [exact Hmsg | exact Hstop |].
  intros w1. rewrite ticks_0, Hnet. cbn [outcome].
  unfold bind at 1, lift at 1, after_fetch.
  unfold bind at 1, lift at 1. rewrite Hjson, Hok. cbn [negb].
  unfold bind at 1, lift at 1. now rewrite Herror, Hfalsy.
Qed.

(** Three answers 503 with an empty object as body. *)
Lemma dispatch_server_error_status_witness :
  dispatch_shows (env_with (always (Response 503 (Normal (JObj [])))))
    (fresh_page (str "hi")) 2
    (MessageDiv Error (TextContent (str "Error: Server error: 503"))
       (str "10:30")).
Proof.
  exact (dispatch_server_error_status
           (env_with (always (Response 503 (Normal (JObj [])))))
           (fresh_page (str "hi")) 2 (Response 503 (Normal (JObj [])))
           (JObj []) None
           ltac:(vm_compute; discriminate)
           ltac:(split; [split; [lia | intros k Hk; reflexivity] | now right])
           eq_refl eq_refl eq_refl eq_refl eq_refl).
Defined.

(** X10. The body is read before the status is looked at: when reading
    it fails, the message is chosen from that failure, whatever the
    status; and a body that is [null] ends as a [TypeError], which is
    reported as a connection problem. *)
Theorem dispatch_body_unusable
    (E : env) (w : world) (j : nat) (r : response) :
  trim (input_value w) <> [] ->
  stops_at E w j ->
  net E (j + fetches w) = Resolved r ->
  (forall e, json_body r = Throw e ->
     dispatch_shows E w j
       (MessageDiv Error (TextContent (errorMessage (onLine E) e))
          (clock E (S (dates w))))) /\
  (json_body r = Normal JNull ->
     dispatch_shows E w j
       (MessageDiv Error
          (TextContent (if onLine E then MSG_UNREACHABLE else MSG_OFFLINE))
          (clock E (S (dates w))))).
Proof.
  intros Hmsg Hstop Hnet. split.
  - intros e Hjson.
    apply (dispatch_path_error E w j 0); [exact Hmsg | exact Hstop |].
    intros w1. rewrite ticks_0, Hnet. cbn [outcome].
    unfold bind at 1, lift at 1, after_fetch.
    unfold bind at 1, lift at 1. now rewrite Hjson.
  - intros Hjson.
    rewrite <- (errorMessage_TypeError (onLine E)
                  "Cannot read properties of null").
    apply (dispatch_path_error E w j 0); [exact Hmsg | exact Hstop |].
    intros w1. rewrite ticks_0, Hnet. cbn [outcome].
    unfold bind at 1, lift at 1, after_fetch.
    unfold bind at 1, lift at 1. rewrite Hjson.
    destruct (negb (ok r)); reflexivity.
Qed.

(** A 502 whose body is a page of markup, three times: the entry is
    about the parse failure. *)
Lemma dispatch_body_unusable_witness :
  dispatch_shows
    (env_with (always (Response 502
                         (Throw (JsError (str "SyntaxError")
                                   (str "Unexpected token <"))))))
    (fresh_page (str "hi")) 2
    (MessageDiv Error (TextContent (str "Error: Unexpected token <"))
       (str "10:30")).
Proof.
  destruct (dispatch_body_unusable
              (env_with (always (Response 502
                                   (Throw (JsError (str "SyntaxError")
                                             (str "Unexpected token <"))))))
              (fresh_page (str "hi")) 2
              (Response 502
                 (Throw (JsError (str "SyntaxError")
                           (str "Unexpected token <")))))
    as [Hthrow _].
  - vm_compute. discriminate.
  - split; [split; [lia | intros k Hk; reflexivity] | now right].
  - reflexivity.
  - exact (Hthrow _ eq_refl).
Defined.

(** X11. When the loop gives up on a rejected request (the third in a
    row, or one that was aborted), the message is chosen from the error
    of that last rejection. *)
Theorem dispatch_rejected
    (E : env) (w : world) (j : nat) (e : js_error) :
  trim (input_value w) <> [] ->
  stops_at E w j ->
  net E (j + fetches w) = Rejected e ->
  dispatch_shows E w j
    (MessageDiv Error (TextContent (errorMessage (onLine E) e))
       (clock E (S (dates w)))).
Proof.
  intros Hmsg Hstop Hnet.
  apply (dispatch_path_error E w j 0); [exact Hmsg | exact Hstop |].
  intros w1. now rewrite ticks_0, Hnet.
Qed.

(** No server listening: three attempts, then the advice to start it. *)
Lemma dispatch_rejected_witness :
  dispatch_shows (env_with (failing (TypeError "Failed to fetch")))
    (fresh_page (str "hi")) 2
    (MessageDiv Error (TextContent MSG_UNREACHABLE) (str "10:30")).
Proof.
  exact (dispatch_rejected (env_with (failing (TypeError "Failed to fetch")))
           (fresh_page (str "hi")) 2 (TypeError "Failed to fetch")
           ltac:(vm_compute; discriminate)
           ltac:(split; [split; [lia | intros k Hk; reflexivity] | now right])
           eq_refl).
Defined.

Section DispatchRequests.

Variable E : env.



End DispatchRequests.



Section TrimFacts.

Lemma trim_start_split (s : jsstring) :
  exists pre, s = pre ++ trim_start s /\ forallb is_whitespace pre = true.
Proof.
  induction s as [|c s (pre & Hs & Hpre)]; [now exists []|].
  cbn [trim_start]. destruct (is_whitespace c) eqn:Hc.
  - exists (c :: pre). cbn [forallb app]. rewrite Hc, Hpre. split; [|reflexivity].
    now rewrite <- Hs.
  - now exists [].
Qed.

Lemma forallb_rev {A : Type} (p : A -> bool) (l : list A) :
  forallb p (rev l) = forallb p l.
Proof.
  induction l as [|x l IH]; [reflexivity|].
  cbn [rev forallb]. rewrite forallb_app, IH. cbn [forallb].
  rewrite andb_true_r. apply andb_comm.
Qed.

Lemma trim_end_split (s : jsstring) :
  exists post, s = trim_end s ++ post /\ forallb is_whitespace post = true.
Proof.
  destruct (trim_start_split (rev s)) as (pre & Hs & Hpre).
  exists (rev pre). split; [|now rewrite forallb_rev].
  unfold trim_end. rewrite <- rev_app_distr, <- Hs. now rewrite rev_involutive.
Qed.

(** [trim] removes white space at both ends and nothing else. *)
Lemma trim_split (s : jsstring) :
  exists pre post,
    s = pre ++ trim s ++ post /\
    forallb is_whitespace pre = true /\
    forallb is_whitespace post = true.
Proof.
  destruct (trim_start_split s) as (pre & Hs & Hpre).
  destruct (trim_end_split (trim_start s)) as (post & Ht & Hpost).
  exists pre, post. unfold trim. now rewrite <- Ht.
Qed.

(** What [trim] leaves neither starts nor ends with white space. *)
Lemma trim_ends (s : jsstring) (c : N) (rest : jsstring) :
  trim s = c :: rest ->
  is_whitespace c = false /\ is_whitespace (List.last (c :: rest) c) = false.
Proof.
  intros Ht. split.
  - destruct (trim_end_split (trim_start s)) as (post & Hsplit & _).
    fold (trim s) in Hsplit. rewrite Ht in Hsplit.
    exact (trim_start_head s c (rest ++ post) Hsplit).
  - unfold trim, trim_end in Ht.
    destruct (trim_start (rev (trim_start s))) as [|x l] eqn:Hrev;
      [discriminate|].
    apply trim_start_head in Hrev.
    rewrite <- Ht. cbn [rev]. now rewrite List.last_last.
Qed.

Lemma trim_empty_blank (s : jsstring) :
  trim s = [] -> forallb is_whitespace s = true.
Proof.
  intros Ht. destruct (trim_split s) as (pre & post & Hs & Hpre & Hpost).
  rewrite Ht in Hs. rewrite Hs. cbn [app].
  now rewrite forallb_app, Hpre, Hpost.
Qed.

End TrimFacts.

(** X13. A dispatch is skipped exactly when the input is empty or all
    white space. Otherwise the message that is shown and sent is the
    input with the white space at its two ends removed and nothing
    else: it neither starts nor ends with white space. *)
Theorem sendMessage_skips_only_blank_input (E : env) (w : world) :
  (sendMessage E w = (Normal tt, w)
   <-> forallb is_whitespace (input_value w) = true) /\
  (exists pre post,
     input_value w = pre ++ trim (input_value w) ++ post /\
     forallb is_whitespace pre = true /\
     forallb is_whitespace post = true) /\
  (forall c rest,
     trim (input_value w) = c :: rest ->
     is_whitespace c = false /\ is_whitespace (List.last (c :: rest) c) = false).
Proof.
  split; [|split; [apply trim_split | apply trim_ends]].
  split.
  - intros Hrun.
    destruct (decide (trim (input_value w) = [])) as [Hblank | Hmsg];
      [now apply trim_empty_blank|].
    exfalso.
    destruct (sendMessage_run E w Hmsg)
      as (n & evs & d & s & body & _ & _ & Hdom & _ & _ & Hrun').
    pose proof (settled_page E w evs n d
                  (MessageDiv s body (clock E (d + S (dates w))))
                  eq_refl Hdom) as Hpage.
    cbv zeta in Hpage.
    destruct Hpage as (_ & (evs' & Hlog & _ & _ & Happ) & _).
    rewrite Hrun in Hrun'. injection Hrun' as Hw. rewrite <- Hw in Hlog.
    rewrite <- (app_nil_r (log w)) in Hlog at 1.
    apply app_inv_head in Hlog. now rewrite <- Hlog in Happ.
  - intros Hblank. unfold sendMessage, bind, gets.
    rewrite (trim_blank _ Hblank). reflexivity.
Qed.

(* ===================================================================== *)
(** * The listeners and the page between two dispatches *)
(* ===================================================================== *)

Section ListenerFacts.

Variable E : env.

(** The [try], [catch] and [finally] blocks of [sendMessage], from any
    page: the attempts, one entry for the outcome, the first typing
    indicator removed. *)
Lemma send_rest_run (message : jsstring) (w0 : world) :
  exists (n : nat) (evs : list event) (d : nat) (s : sender)
         (body : rendering),
    (1 <= n <= 3)%nat /\ net_trace evs = retry_trace n /\
    dom_trace evs = [] /\ (s = Bot \/ s = Error) /\
    send_rest E message w0
    = (Normal tt,
       loading_off E
         (append_node (MessageDiv s body (clock E (d + dates w0)))
            (tick (ticks d (advance evs n w0))))).
Proof.
  destruct (dispatch_spec E message w0)
    as (n & evs & Hn & Htr & Hdom & [(text & Hrun) | (e & d & Hd & Hrun)]).
  - exists n, evs, 0%nat, Bot, (InnerHTML (bot_markup text)).
    split; [exact Hn|]. split; [exact Htr|]. split; [exact Hdom|].
    split; [now left|].
    unfold send_rest, try_finally, try_catch. rewrite Hrun.
    rewrite setLoadingState_false, ticks_0. reflexivity.
  - exists n, evs, d, Error, (TextContent (errorMessage (onLine E) e)).
    split; [exact Hn|]. split; [exact Htr|]. split; [exact Hdom|].
    split; [now right|].
    unfold send_rest, try_finally, try_catch. rewrite Hrun.
    rewrite addMessage_text, setLoadingState_false. reflexivity.
Qed.









(** The health probe: one request, no change to the page. *)
Lemma checkServerHealth_eq (w : world) :
  checkServerHealth E w
  = (Normal (healthy (net E (fetches w))),
     advance [EvFetch (Request (origin E ++ str "/api/health") None)] 1 w).
Proof.
  unfold checkServerHealth, try_catch, bind, fetch, lift, ret, healthy.
  cbn [emit modify fst snd].
  destruct (net E (fetches w)) as [r|e]; [|reflexivity].
  destruct (ok r); [destruct (json_body r)|]; reflexivity.
Qed.

Lemma onDOMContentLoaded_eq (w : world) :
  onDOMContentLoaded E w
  = (Normal tt,
     let w1 :=
       advance [EvFetch (Request (origin E ++ str "/api/health") None)] 1 w in
     if healthy (net E (fetches w)) then w1
     else append_node
            (MessageDiv Error (TextContent MSG_HEALTH) (clock E (dates w)))
            (tick w1)).
Proof.
  unfold onDOMContentLoaded. unfold bind at 1. rewrite checkServerHealth_eq.
  cbv zeta. destruct (healthy (net E (fetches w))); cbn [negb].
  - reflexivity.
  - now rewrite addMessage_text.
Qed.


End ListenerFacts.

(** X14. From [setLoadingState(true)] until the [finally] block,
    whatever the retry loop has done so far, the Enter key, the send
    button and the submission of the form do nothing: no second
    dispatch starts and nothing is appended. *)
Theorem listeners_idle_while_in_flight
    (E : env) (w : world) (evs : list event) (n : nat) (key : jsstring) :
  onKeypress E key (advance evs n (begun E w))
  = (Normal tt, advance evs n (begun E w)) /\
  onSendClick E (advance evs n (begun E w))
  = (Normal tt, advance evs n (begun E w)) /\
  onFormSubmit E (advance evs n (begun E w))
  = (Normal tt, advance evs n (begun E w)).
Proof.
  split; [|split].
  - unfold onKeypress, bind, gets.
    change (input_disabled (advance evs n (begun E w))) with true.
    cbn [negb]. now rewrite andb_false_r.
  - reflexivity.
  - reflexivity.
Qed.



(** Without that condition the page does not stay at rest: when the
    server answers with an element of that id, the second dispatch
    removes that element from the first reply and leaves its own
    indicator in the page, with its timer running. *)
Lemma injected_id_keeps_indicator :
  exists w',
    run_events (env_with (always reply_injecting))
      [UiInput (str "a"); UiSendClick; UiInput (str "b"); UiSendClick]
      (fresh_page [])
    = (Normal tt, w') /\
    children w'
    = [MessageDiv User (TextContent (str "a")) (str "10:30");
       MessageDiv Bot (Stripped injecting_markup 1) (str "10:30");
       MessageDiv User (TextContent (str "b")) (str "10:30");
       TypingDiv 2;
       MessageDiv Bot (InnerHTML injecting_markup) (str "10:30")] /\
    2%nat ∈ intervals w' /\
    ~ idle (env_with (always reply_injecting)) w'.
Proof.
  eexists. split; [vm_compute; reflexivity|].
  split; [reflexivity|]. split.
  - apply (bool_decide_eq_true _). vm_compute. reflexivity.
  - intros [Hnone _]. vm_compute in Hnone. discriminate.
Qed.

Section InterleavingFacts.

Variable E : env.

Lemma send_begin_eq (w : world) :
  send_begin E (trim (input_value w)) w = (Normal tt, begun E w).
Proof.
  unfold send_begin. unfold bind at 1. rewrite addMessage_text. cbn [render].
  unfold bind at 1, modify at 1. rewrite setLoadingState_true. reflexivity.
Qed.

Lemma replaceChildren_eq (ns : list node) (w : world) :
  replaceChildren ns w = (Normal tt, replaced ns w).
Proof. reflexivity. Qed.

End InterleavingFacts.

(** X16. Clearing the chat while a dispatch is in flight leaks the timer
    of the typing indicator. [sendMessage] is its first half (up to
    [setLoadingState(true)]) followed by its second (the [try], [catch]
    and [finally] blocks); with the click between the two, the
    indicator goes with the other children, so the [finally] block
    finds none and clears nothing. When the dispatch is over the page
    shows the greeting followed by the outcome entry, the controls are
    enabled, and the interval timer set for the indicator is still
    running. *)
Theorem clear_chat_in_flight_leaks_timer (E : env) (w : world) :
  trim (input_value w) <> [] ->
  sendMessage E w
  = bind (send_begin E (trim (input_value w)))
      (fun _ => send_rest E (trim (input_value w))) w /\
  exists (w' : world) (out : node),
    send_interrupted_by_clear E w = (Normal tt, w') /\
    children w' = [GreetingDiv GREETING_CLEAR; out] /\
    outcome_entry out = true /\
    input_disabled w' = false /\
    button_disabled w' = false /\
    S (next_handle w) ∈ intervals w' /\
    forall evs, log w' = log w ++ evs ->
                ~ In (EvClearInterval (S (next_handle w))) evs.
Proof.
  intros Hmsg. split; [now apply sendMessage_phases|].
  unfold send_interrupted_by_clear. unfold bind at 1, gets at 1.
  unfold bind at 1. rewrite send_begin_eq.
  unfold bind at 1, onClearChat. rewrite replaceChildren_eq.
  set (w0 := replaced [GreetingDiv GREETING_CLEAR] (begun E w)).
  destruct (send_rest_run E (trim (input_value w)) w0)
    as (n & evs & d & s & body & _ & _ & Hdom & Hs & Hrun).
  rewrite Hrun.
  set (out := MessageDiv s body (clock E (d + dates w0))).
  assert (Hout : outcome_entry out = true)
    by (destruct Hs as [-> | ->]; reflexivity).
  set (w3 := append_node out (tick (ticks d (advance evs n w0)))).
  assert (Hchildren : children w3 = [GreetingDiv GREETING_CLEAR; out])
    by reflexivity.
  assert (Hfind : typing_indicator E w3
                  = if holds_indicator_id E out then Some out else None).
  { unfold typing_indicator. rewrite Hchildren. reflexivity. }
  assert (Hkept : children (loading_off E w3)
                  = [GreetingDiv GREETING_CLEAR;
                     if holds_indicator_id E out then strip out else out]).
  { cbn [children loading_off]. rewrite Hchildren.
    cbn [remove_indicator holds_indicator_id].
    destruct (holds_indicator_id E out); reflexivity. }
  assert (Hsteps : off_events E w3
                   = if holds_indicator_id E out then [EvTakeOut out] else []).
  { unfold off_events. rewrite Hfind.
    destruct (holds_indicator_id E out); reflexivity. }
  assert (Htimers : intervals (loading_off E w3) = intervals w3).
  { cbn [intervals loading_off]. unfold off_intervals. rewrite Hfind.
    destruct (holds_indicator_id E out); reflexivity. }
  exists (loading_off E w3),
    (if holds_indicator_id E out then strip out else out).
  split; [reflexivity|]. split; [exact Hkept|].
  split.
  { destruct (holds_indicator_id E out); [|exact Hout].
    unfold out. destruct Hs as [-> | ->]; now destruct body. }
  split; [reflexivity|]. split; [reflexivity|].
  split.
  { rewrite Htimers. cbn. apply elem_of_union_l. now apply elem_of_singleton. }
  intros evs' Hlog Hin.
  assert (Hlog' : log w ++ evs'
                  = log w ++ ([EvAppend (user_entry E w);
                               EvAppend (TypingDiv (S (next_handle w)));
                               EvSetInterval (S (next_handle w)) 500;
                               EvReplaceChildren [GreetingDiv GREETING_CLEAR]]
                                ++ evs ++ [EvAppend out]
                                ++ off_events E w3)).
  { rewrite <- Hlog. cbn [log loading_off]. unfold w3 at 1.
    cbn [log append_node tick ticks advance set_dates w0 replaced begun
         loading_on set_input_value].
    now rewrite <- !app_assoc. }
  apply app_inv_head in Hlog'. subst evs'.
  cbn [In app] in Hin.
  destruct Hin as [Hin | [Hin | [Hin | [Hin | Hin]]]]; try discriminate.
  apply in_app_or in Hin as [Hin | [Hin | Hin]]; [|discriminate|].
  2:{ rewrite Hsteps in Hin.
      destruct (holds_indicator_id E out);
        [destruct Hin as [Hin | []]; discriminate | destruct Hin]. }
  assert (Hnone : forall l h, dom_trace l = [] -> ~ In (EvClearInterval h) l).
  { clear. intros l h. induction l as [|e l IH]; [intros _ []|].
    destruct e; cbn [dom_trace]; try discriminate;
      intros Hl [He | Hl']; try discriminate; now apply IH. }
  exact (Hnone evs _ Hdom Hin).
Qed.

Lemma clear_chat_in_flight_leaks_timer_witness :
  exists (w' : world) (out : node),
    send_interrupted_by_clear (env_with (always reply_ok))
      (fresh_page (str "hi"))
    = (Normal tt, w') /\
    children w' = [GreetingDiv GREETING_CLEAR; out] /\
    1%nat ∈ intervals w'.
Proof.
  destruct (clear_chat_in_flight_leaks_timer (env_with (always reply_ok))
              (fresh_page (str "hi")))
    as (_ & w' & out & Hrun & Hchildren & _ & _ & _ & Htimer & _).
  - vm_compute. discriminate.
  - exists w', out. split; [exact Hrun|]. split; [exact Hchildren | exact Htimer].
Defined.



(** X18. The health probe never throws and never touches the page: it
    sends one request to [/api/health], without options and so without
    the session header, and answers [true] exactly when the response is
    in the 2xx range and its body parses. The load listener then shows
    one error entry exactly when the answer is [false]; the input, the
    button and the timers are as before. *)
Theorem health_probe_on_load (E : env) (w : world) :
  checkServerHealth E w
  = (Normal (healthy (net E (fetches w))),
     advance [EvFetch (Request (origin E ++ str "/api/health") None)] 1 w) /\
  exists w',
    onDOMContentLoaded E w = (Normal tt, w') /\
    children w'
    = children w
        ++ (if healthy (net E (fetches w)) then []
            else [MessageDiv Error (TextContent MSG_HEALTH)
                    (clock E (dates w))]) /\
    requests (drop (length (log w)) (log w'))
    = [Request (origin E ++ str "/api/health") None] /\
    input_value w' = input_value w /\
    input_disabled w' = input_disabled w /\
    button_disabled w' = button_disabled w /\
    intervals w' = intervals w.
Proof.
  split; [apply checkServerHealth_eq|].
  rewrite onDOMContentLoaded_eq. cbv zeta.
  eexists. split; [reflexivity|].
  destruct (healthy (net E (fetches w))).
  - cbn [children advance log]. rewrite app_nil_r, drop_app_length.
    now repeat split.
  - cbn [children advance append_node tick set_dates log].
    rewrite <- app_assoc, drop_app_length. now repeat split.
Qed.

(** X19. The listener of the form never talks to the server. With a
    blank input it does nothing. Otherwise it appends the trimmed input
    as one plain-text entry of the user, empties the input and sets one
    one-shot timer of 1000 ms; it shows no loading state: the controls,
    the interval timers and the count of requests are as before. When
    that timer is the only one pending and fires, its callback appends
    one of the five canned replies as a plain-text entry that is not
    the user's, again without a request, and no timer is left
    pending. *)
Theorem onFormSubmit_is_local (E : env) (w : world) :
  (trim (input_value w) = [] -> onFormSubmit E w = (Normal tt, w)) /\
  (trim (input_value w) <> [] ->
   exists w',
     onFormSubmit E w = (Normal tt, w') /\
     children w'
     = children w
         ++ [UIMessageDiv true (trim (input_value w)) (clock E (dates w))] /\
     input_value w' = [] /\
     pending_timeouts w' = pending_timeouts w ++ [1000] /\
     log w'
     = log w ++ [EvAppend (UIMessageDiv true (trim (input_value w))
                             (clock E (dates w)));
                 EvSetTimeout 1000] /\
     fetches w' = fetches w /\
     input_disabled w' = input_disabled w /\
     button_disabled w' = button_disabled w /\
     intervals w' = intervals w /\
     (pending_timeouts w = [] ->
      forall pick : nat,
      exists (reply : jsstring) (w'' : world),
        fireTimeout E pick w' = (Normal tt, w'') /\
        In reply responses /\
        children w''
        = children w' ++ [UIMessageDiv false reply (clock E (S (dates w)))] /\
        pending_timeouts w'' = [] /\
        input_value w'' = [] /\
        fetches w'' = fetches w /\
        intervals w'' = intervals w)).
Proof.
  split.
  - intros Hblank. unfold onFormSubmit, bind, gets. now rewrite Hblank.
  - intros Hmsg. unfold onFormSubmit, bind at 1, gets at 1.
    apply jseqb_false in Hmsg. rewrite Hmsg. cbn [negb].
    eexists. split; [reflexivity|].
    split; [reflexivity|]. split; [reflexivity|]. split; [reflexivity|].
    split; [cbn; now rewrite <- app_assoc|].
    split; [reflexivity|]. split; [reflexivity|]. split; [reflexivity|].
    split; [reflexivity|].
    intros Hpending pick.
    exists (nth (pick mod length responses) responses []).
    unfold fireTimeout, setTimeout, addUIMessage, time_stamp. run.
    rewrite Hpending. cbn [app].
    unfold onSimulatedReply, addUIMessage, time_stamp. run.
    eexists. split; [reflexivity|].
    split; [|now repeat split].
    apply nth_In. apply Nat.mod_upper_bound. discriminate.
Qed.

Lemma onFormSubmit_is_local_witness :
  exists w',
    onFormSubmit (env_with (always reply_ok)) (fresh_page (str " hi "))
    = (Normal tt, w') /\
    children w' = [UIMessageDiv true (str "hi") (str "10:30")] /\
    pending_timeouts w' = [1000] /\
    fetches w' = 0%nat /\
    exists reply w'',
      fireTimeout (env_with (always reply_ok)) 7 w' = (Normal tt, w'') /\
      In reply responses /\
      children w'' = children w' ++ [UIMessageDiv false reply (str "10:30")].
Proof.
  destruct (onFormSubmit_is_local (env_with (always reply_ok))
              (fresh_page (str " hi "))) as [_ Hsome].
  destruct Hsome
    as (w' & Hrun & Hchildren & _ & Hpending & _ & Hf & _ & _ & _ & Hfire).
  - vm_compute. discriminate.
  - destruct (Hfire eq_refl 7%nat)
      as (reply & w'' & Hrun2 & Hreply & Hchildren2 & _).
    exists w'. split; [exact Hrun|]. split; [exact Hchildren|].
    split; [exact Hpending|]. split; [exact Hf|].
    exists reply, w''. split; [exact Hrun2|]. split; [exact Hreply|].
    exact Hchildren2.
Defined.

(* ===================================================================== *)
(** * More about the session identifier *)
(* ===================================================================== *)

(** X20. Setting up the session identifier touches one item only: every
    other key of the storage keeps its value, at most the key
    [chatSessionId] is written, and when the set-up throws the storage
    is as it was. *)
Theorem initSessionId_frame
    (fragment : jsstring) (now : N) (st : storage) :
  (forall k, k <> KEY ->
     items (snd (initSessionId fragment now st)) !! k = items st !! k) /\
  (forall e st', initSessionId fragment now st = (Throw e, st') -> st' = st) /\
  (forall id st', initSessionId fragment now st = (Normal id, st') ->
     items st' !! KEY = Some id /\
     (st' = st \/ id = generateSessionId fragment now)).
Proof.
  unfold initSessionId, getItem, setItem.
  destruct (access_error st) as [ea|] eqn:Ha.
  { split; [reflexivity|]. split; [now intros e st' [= _ <-]|discriminate]. }
  destruct (absent (items st !! KEY)) eqn:Habs.
  - destruct (write_error st) as [ew|] eqn:Hw.
    + split; [reflexivity|]. split; [now intros e st' [= _ <-]|discriminate].
    + split.
      { intros k Hk. cbn [snd items]. now apply lookup_insert_ne. }
      split; [discriminate|].
      intros id st' [= <- <-]. cbn [items].
      split; [apply lookup_insert_eq | now right].
  - split; [reflexivity|]. split; [discriminate|].
    intros id st' [= <- <-].
    destruct (items st !! KEY) as [stored|]; [|discriminate].
    split; [reflexivity | now left].
Qed.

Lemma digit_is_id_char (c : N) : 48 <= c <= 57 -> is_id_char c = true.
Proof.
  intros [Hlo Hhi]. unfold is_id_char, is_base36.
  apply N.leb_le in Hlo, Hhi. now rewrite Hlo, Hhi.
Qed.

(** X21. A generated identifier is made of lower-case letters, digits
    and underscores only: no white space and no line break can get into
    the [X-Session-ID] header through it. It has the stamp of the clock
    after its last underscore. *)
Theorem generateSessionId_charset (fragment : jsstring) (now : N) :
  forallb is_base36 fragment = true ->
  forallb is_id_char (generateSessionId fragment now) = true /\
  forallb (fun c => negb (is_whitespace c)) (generateSessionId fragment now)
  = true /\
  exists head, generateSessionId fragment now = head ++ 95 :: decimal now /\
               forallb (fun c => negb (c =? 95)) (decimal now) = true.
Proof.
  intros Hfrag.
  assert (Hdec : forallb is_id_char (decimal now) = true).
  { apply forallb_forall. intros c Hc.
    pose proof (decimal_digits now) as Hd. rewrite List.Forall_forall in Hd.
    apply digit_is_id_char. now apply Hd. }
  assert (Hid : forallb is_id_char (generateSessionId fragment now) = true).
  { unfold generateSessionId. rewrite !forallb_app, Hdec.
    replace (forallb is_id_char fragment) with true.
    - reflexivity.
    - symmetry. apply forallb_forall. intros c Hc.
      rewrite forallb_forall in Hfrag. unfold is_id_char.
      now rewrite (Hfrag c Hc). }
  split; [exact Hid|]. split.
  - apply forallb_forall. intros c Hc.
    rewrite forallb_forall in Hid. specialize (Hid c Hc).
    unfold is_id_char, is_base36 in Hid.
    destruct (is_whitespace c) eqn:Hws; [|reflexivity].
    exfalso. unfold is_whitespace in Hws.
    repeat (apply orb_prop in Hws as [Hws | Hws]);
      try (apply andb_prop in Hws as [Hlo Hhi];
           apply N.leb_le in Hlo, Hhi);
      try apply N.eqb_eq in Hws;
      repeat (apply orb_prop in Hid as [Hid | Hid]);
      try (apply andb_prop in Hid as [Hlo' Hhi'];
           apply N.leb_le in Hlo', Hhi');
      try apply N.eqb_eq in Hid; lia.
  - exists (str "session_" ++ fragment). split.
    + unfold generateSessionId. now rewrite <- app_assoc.
    + apply forallb_forall. intros c Hc.
      pose proof (decimal_digits now) as Hd. rewrite List.Forall_forall in Hd.
      specialize (Hd c Hc). apply negb_true_iff, N.eqb_neq. lia.
Qed.

Lemma generateSessionId_charset_witness :
  forallb is_id_char (generateSessionId (str "k3j9x0q1z") 1700000000000)
  = true.
Proof.
  destruct (generateSessionId_charset (str "k3j9x0q1z") 1700000000000)
    as [Hid _].
  - reflexivity.
  - exact Hid.
Defined.

(* ===================================================================== *)
(** * More about the formatter *)
(* ===================================================================== *)

Section FormatterMore.

Lemma split_loop_no_sep (x : N) :
  forall (s cur : jsstring),
    forallb (fun c => negb (c =? x)) cur = true ->
    Forall (fun piece => forallb (fun c => negb (c =? x)) piece = true)
      (split_loop [x] O cur s).
Proof.
  induction s as [|c s IH]; intros cur Hcur.
  - cbn [split_loop]. constructor; [|constructor].
    now rewrite forallb_rev.
  - cbn [split_loop starts_with length Nat.pred].
    rewrite andb_true_r.
    destruct (x =? c) eqn:Hc.
    + constructor; [now rewrite forallb_rev | now apply IH].
    + apply IH. cbn [forallb]. rewrite N.eqb_sym, Hc. exact Hcur.
Qed.

Lemma join_avoids (x : N) (sep : jsstring) (pieces : list jsstring) :
  forallb (fun c => negb (c =? x)) sep = true ->
  Forall (fun piece => forallb (fun c => negb (c =? x)) piece = true) pieces ->
  forallb (fun c => negb (c =? x)) (join sep pieces) = true.
Proof.
  intros Hsep. induction 1 as [|p pieces Hp _ IH]; [reflexivity|].
  destruct pieces as [|q pieces]; [exact Hp|].
  change (join sep (p :: q :: pieces)) with (p ++ sep ++ join sep (q :: pieces)).
  now rewrite !forallb_app, Hp, Hsep, IH.
Qed.

(** The search of [replace] over a text in which the pattern matches
    nowhere, each position taken with the code unit before it. *)
Lemma replace_loop_no_match_at (ml : bool) (r : regex) (tmpl : list tpiece) :
  forall (s : jsstring) (prev : option N),
    (forall s1 s2, s = s1 ++ s2 ->
                   exec_at ml r (List.last (map Some s1) prev) s2 = None) ->
    replace_loop ml r tmpl O prev s = s.
Proof.
  induction s as [|c s IH]; intros prev Hnone.
  - cbn [replace_loop].
    change (exec_at ml r prev [])
      with (exec_at ml r (List.last (map Some []) prev) []).
    now rewrite (Hnone [] [] eq_refl).
  - cbn [replace_loop].
    change (exec_at ml r prev (c :: s))
      with (exec_at ml r (List.last (map Some []) prev) (c :: s)).
    rewrite (Hnone [] (c :: s) eq_refl).
    f_equal. apply IH. intros s1 s2 ->.
    rewrite <- (last_cons_cons prev (Some c) (map Some s1)).
    exact (Hnone (c :: s1) s2 eq_refl).
Qed.

Lemma exec_line_none (mark : N) (prev : option N) (s : jsstring) :
  match s with
  | [] => True
  | c :: s' =>
      (c =? mark) && at_line_start true prev = true ->
      match s' with
      | [] => True
      | x :: _ => is_whitespace x = false
      end
  end ->
  exec_at true (line_re mark) prev s = None.
Proof.
  intros Hs. unfold exec_at, line_re. cbn [rmatch m_prev m_rest m_cap].
  destruct (at_line_start true prev); [|reflexivity].
  destruct s as [|c s]; [reflexivity|].
  destruct (c =? mark); [|reflexivity].
  specialize (Hs eq_refl). cbn [rmatch m_prev m_rest m_cap].
  destruct s as [|x s]; [reflexivity|].
  cbn [plus_greedy]. unfold cls_space. now rewrite Hs.
Qed.

Lemma marks_literal_no_match (mark : N) (tmpl : list tpiece) :
  forall (s : jsstring) (prev : option N),
    marks_literal mark prev s = true ->
    replace_loop true (line_re mark) tmpl O prev s = s.
Proof.
  intros s prev Hlit. apply replace_loop_no_match_at.
  revert prev Hlit. induction s as [|c s IH]; intros prev Hlit s1 s2 Hs.
  - destruct s1; [|discriminate]. cbn [app] in Hs. subst s2.
    now apply exec_line_none.
  - cbn [marks_literal] in Hlit. apply andb_prop in Hlit as [Hc Hrest].
    destruct s1 as [|c1 s1].
    + cbn [app] in Hs. subst s2. cbn [map List.last].
      apply exec_line_none. intros Hmark. rewrite Hmark in Hc.
      destruct s as [|x s]; [exact I|]. now apply negb_true_iff.
    + injection Hs as <- Hs. cbn [map]. rewrite last_cons_cons.
      now apply (IH (Some c) Hrest).
Qed.

End FormatterMore.

(** X22. No line feed of the text reaches the markup: each one ends up
    in a [<br>] or in a [</p><p>]. *)
Theorem formattedText_has_no_line_feed (text : jsstring) :
  no_line_feed (formattedText text) /\ no_line_feed (bot_markup text).
Proof.
  assert (Hfmt : no_line_feed (formattedText text)).
  { unfold no_line_feed, formattedText, format_breaks.
    apply join_avoids; [reflexivity|].
    unfold split. now apply split_loop_no_sep. }
  split; [exact Hfmt|].
  unfold no_line_feed, bot_markup in *.
  now rewrite !forallb_app, Hfmt.
Qed.

(** X23. A [#] makes a header, and a [-] a bullet, only at the start of
    a line and followed by white space. A text in which no [#] is so
    placed goes through the header transform unchanged, and likewise
    for [-] and the bullet transform: [##], [#tag], a [#] or a [-]
    inside a line all stay as typed. *)
Theorem line_marks_elsewhere_stay_literal (text : jsstring) :
  (marks_literal 35 None text = true -> format_headers text = text) /\
  (marks_literal 45 None text = true -> format_bullets text = text).
Proof.
  split; intros Hlit.
  - unfold format_headers, replace_global. rewrite header_re_shape.
    now apply marks_literal_no_match.
  - unfold format_bullets, replace_global. rewrite bullet_re_shape.
    now apply marks_literal_no_match.
Qed.

Lemma line_marks_elsewhere_stay_literal_witness :
  format_headers (str "## Plan for #rocq, step # 1")
  = str "## Plan for #rocq, step # 1" /\
  format_bullets (str "-5 is well-known - or not")
  = str "-5 is well-known - or not".
Proof.
  destruct (line_marks_elsewhere_stay_literal
              (str "## Plan for #rocq, step # 1")) as [Hheaders _].
  destruct (line_marks_elsewhere_stay_literal
              (str "-5 is well-known - or not")) as [_ Hbullets].
  split; [apply Hheaders | apply Hbullets]; vm_compute; reflexivity.
Defined.

(* ===================================================================== *)
(** * The theme toggle and the section navigation *)
(* ===================================================================== *)

(** X24. Flipping the theme toggle flips the class [dark-theme] of the
    body and stores the new state of the checkbox under [darkMode],
    touching no other item. When class and checkbox agreed before, a
    page that loads later with that storage, light and unchecked as
    the markup has it, comes up with the theme and the checkbox as
    they were left. When the storage refuses the write, the theme has
    changed on screen all the same, the listener throws, and nothing is
    saved. *)
Theorem theme_toggle_round_trip (p : theme_page) (checked : bool) :
  themeToggle p = Some checked ->
  (access_error (localStorage p) = None ->
   write_error (localStorage p) = None ->
   exists p',
     userToggles p = (Normal tt, p') /\
     dark_theme p' = negb (dark_theme p) /\
     themeToggle p' = Some (negb checked) /\
     items (localStorage p') !! DARK_MODE = Some (bool_text (negb checked)) /\
     (forall k, k <> DARK_MODE ->
                items (localStorage p') !! k = items (localStorage p) !! k) /\
     (dark_theme p = checked ->
      forall q0,
        dark_theme q0 = false ->
        themeToggle q0 = Some false ->
        localStorage q0 = localStorage p' ->
        exists q,
          initTheme q0 = (Normal tt, q) /\
          dark_theme q = dark_theme p' /\
          themeToggle q = themeToggle p')) /\
  (forall e,
     access_error (localStorage p) = Some e \/
     (access_error (localStorage p) = None /\
      write_error (localStorage p) = Some e) ->
     userToggles p
     = (Throw e,
        ThemePage (negb (dark_theme p)) (Some (negb checked))
          (localStorage p))).
Proof.
  intros Htoggle. split.
  - intros Ha Hw.
    unfold userToggles, onThemeChange, setItem.
    cbn [themeToggle localStorage dark_theme]. rewrite Htoggle.
    cbn [option_map]. rewrite Ha, Hw.
    eexists. split; [reflexivity|].
    cbn [dark_theme themeToggle localStorage items].
    split; [reflexivity|]. split; [reflexivity|].
    split; [apply lookup_insert_eq|].
    split; [intros k Hk; now apply lookup_insert_ne|].
    intros Hsync q0 Hdark Hbox Hst.
    unfold initTheme, getItem. rewrite Hbox, Hst.
    cbn [access_error items]. rewrite ?Ha, lookup_insert_eq.
    rewrite Hsync.
    destruct checked; cbn [negb bool_text].
    + rewrite bool_decide_eq_false_2 by (vm_compute; discriminate).
      exists q0. now repeat split.
    + rewrite bool_decide_eq_true_2 by reflexivity.
      eexists. split; [reflexivity|]. now split.
  - intros e He.
    unfold userToggles, onThemeChange, setItem.
    cbn [themeToggle localStorage dark_theme]. rewrite Htoggle.
    cbn [option_map].
    destruct He as [Ha | [Ha Hw]].
    + now rewrite Ha.
    + now rewrite Ha, Hw.
Qed.

(** Dark is chosen on a light page with nothing stored; the next load
    comes up dark. *)
Lemma theme_toggle_round_trip_witness :
  exists p' q,
    userToggles (ThemePage false (Some false) (working ∅)) = (Normal tt, p') /\
    dark_theme p' = true /\
    initTheme (ThemePage false (Some false) (localStorage p')) = (Normal tt, q) /\
    dark_theme q = true /\
    themeToggle q = Some true.
Proof.
  destruct (theme_toggle_round_trip (ThemePage false (Some false) (working ∅))
              false eq_refl) as [Hsaved _].
  destruct (Hsaved eq_refl eq_refl)
    as (p' & Hrun & Hdark & Hbox & _ & _ & Hreload).
  destruct (Hreload eq_refl (ThemePage false (Some false) (localStorage p'))
              eq_refl eq_refl eq_refl) as (q & Hinit & Hq & Hqbox).
  exists p', q. split; [exact Hrun|]. split; [exact Hdark|].
  split; [exact Hinit|]. split.
  - now rewrite Hq, Hdark.
  - now rewrite Hqbox, Hbox.
Defined.

Section NavFacts.

Lemma first_with_id_lookup (t : jsstring) (doc : list element) (j : nat) :
  first_with_id t doc = Some j ->
  (exists e, doc !! j = Some e /\ el_id e = Some t) /\
  forall k e, (k < j)%nat -> doc !! k = Some e -> el_id e <> Some t.
Proof.
  revert j. induction doc as [|e doc IH]; intros j; [discriminate|].
  cbn [first_with_id]. destruct (bool_decide (el_id e = Some t)) eqn:He.
  - intros [= <-]. split; [|intros k e' Hk; lia].
    exists e. split; [reflexivity|].
    now apply bool_decide_eq_true in He.
  - destruct (first_with_id t doc) as [j'|]; [|discriminate].
    intros [= <-]. destruct (IH j' eq_refl) as [Hfound Hfirst].
    split; [exact Hfound|].
    intros [|k] e' Hk Hlook.
    + injection Hlook as <-. now apply bool_decide_eq_false in He.
    + apply (Hfirst k e'); [lia | exact Hlook].
Qed.

Lemma getElementById_lookup (t : jsstring) (doc : list element) (j : nat) :
  getElementById t doc = Some j ->
  t <> [] /\
  (exists e, doc !! j = Some e /\ el_id e = Some t) /\
  forall k e, (k < j)%nat -> doc !! k = Some e -> el_id e <> Some t.
Proof.
  unfold getElementById. destruct (decide (t = [])) as [-> | Hne].
  - rewrite bool_decide_eq_true_2 by reflexivity. discriminate.
  - rewrite bool_decide_eq_false_2 by exact Hne.
    intros Hfind. split; [exact Hne|].
    now apply first_with_id_lookup.
Qed.

(** The look-up depends on the ids only. *)
Lemma getElementById_ids (t : jsstring) (doc1 doc2 : list element) :
  map el_id doc1 = map el_id doc2 ->
  getElementById t doc1 = getElementById t doc2.
Proof.
  unfold getElementById. destruct (bool_decide (t = [])); [reflexivity|].
  revert doc2. induction doc1 as [|e1 doc1 IH]; intros [|e2 doc2] Hids;
    try discriminate; [reflexivity|].
  injection Hids as He Hrest. cbn [first_with_id].
  now rewrite He, (IH doc2 Hrest).
Qed.

Lemma ids_alter (b : bool) (i : nat) (doc : list element) :
  map el_id (alter (set_active b) i doc) = map el_id doc.
Proof.
  revert i. induction doc as [|e doc IH]; intros [|i]; try reflexivity.
  cbn [alter list_alter map]. f_equal. apply IH.
Qed.

Lemma ids_deactivate (doc : list element) :
  map el_id (map deactivate doc) = map el_id doc.
Proof.
  induction doc as [|e doc IH]; [reflexivity|].
  cbn [map]. f_equal; [|exact IH].
  unfold deactivate. now destruct (is_nav_link e || is_section e).
Qed.

Lemma lookup_deactivate (doc : list element) (k : nat) :
  map deactivate doc !! k = deactivate <$> doc !! k.
Proof. apply (list_lookup_fmap deactivate doc k). Qed.

(** The page after the class changes of a click on [i], with the
    target [j] when there is one. *)
Lemma lookup_clicked (doc : list element) (i k : nat) (e : element) :
  doc !! k = Some e ->
  alter (set_active true) i (map deactivate doc) !! k
  = Some (if bool_decide (k = i) then set_active true e else deactivate e).
Proof.
  intros Hk. destruct (decide (k = i)) as [-> | Hne].
  - rewrite list_lookup_alter_eq, lookup_deactivate, Hk.
    rewrite bool_decide_eq_true_2 by reflexivity.
    change (set_active true <$> (deactivate <$> Some e))
      with (Some (set_active true (deactivate e))).
    f_equal. unfold deactivate.
    now destruct (is_nav_link e || is_section e).
  - rewrite list_lookup_alter_ne by congruence.
    rewrite lookup_deactivate, Hk.
    now rewrite bool_decide_eq_false_2 by exact Hne.
Qed.

End NavFacts.

(** X25. A click on a navigation link whose target exists makes the
    link and the target active and every other link and section
    inactive; elements that are neither keep their class; the listener
    completes. The target is the first element of the document with
    the id named by [data-section], whether or not it is a section;
    that name is not empty, since [getElementById] finds nothing under
    the empty id. *)
Theorem nav_click_shows_target
    (doc : list element) (i j : nat) (link : element) :
  doc !! i = Some link ->
  is_nav_link link = true ->
  existsb is_section doc = true ->
  getElementById (attribute_text (data_section link)) doc = Some j ->
  attribute_text (data_section link) <> [] /\
  (exists target,
     doc !! j = Some target /\
     el_id target = Some (attribute_text (data_section link))) /\
  (forall k e, (k < j)%nat -> doc !! k = Some e ->
               el_id e <> Some (attribute_text (data_section link))) /\
  exists doc',
    onNavClick i doc = (Normal tt, doc') /\
    length doc' = length doc /\
    forall k e,
      doc !! k = Some e ->
      exists e',
        doc' !! k = Some e' /\
        el_id e' = el_id e /\
        is_nav_link e' = is_nav_link e /\
        is_section e' = is_section e /\
        data_section e' = data_section e /\
        active e'
        = if bool_decide (k = i \/ k = j) then true
          else if is_nav_link e || is_section e then false
          else active e.
Proof.
  intros Hi Hlink Hsections Htarget.
  destruct (getElementById_lookup _ _ _ Htarget) as (Hname & Hfound & Hfirst).
  split; [exact Hname|]. split; [exact Hfound|]. split; [exact Hfirst|].
  unfold onNavClick. rewrite Hi, Hlink, Hsections. cbn [andb]. cbv zeta.
  rewrite (getElementById_ids _ _ doc)
    by (now rewrite ids_alter, ids_deactivate).
  rewrite Htarget.
  eexists. split; [reflexivity|].
  split; [now rewrite !length_alter, length_map|].
  intros k e Hk.
  destruct (decide (k = j)) as [-> | Hj].
  - rewrite list_lookup_alter_eq, (lookup_clicked doc i j e Hk).
    eexists. split; [reflexivity|].
    rewrite (bool_decide_eq_true_2 (j = i \/ j = j)) by now right.
    destruct (bool_decide (j = i)); unfold deactivate;
      destruct (is_nav_link e || is_section e); now repeat split.
  - rewrite list_lookup_alter_ne by congruence.
    rewrite (lookup_clicked doc i k e Hk).
    eexists. split; [reflexivity|].
    destruct (decide (k = i)) as [-> | Hne].
    + rewrite bool_decide_eq_true_2 by reflexivity.
      rewrite (bool_decide_eq_true_2 (i = i \/ i = j)) by now left.
      now repeat split.
    + rewrite bool_decide_eq_false_2 by exact Hne.
      rewrite (bool_decide_eq_false_2 (k = i \/ k = j)) by tauto.
      unfold deactivate.
      destruct (is_nav_link e || is_section e) eqn:Hcls; now repeat split.
Qed.

(** On the example page, a click on the second link hides the first
    section and shows the second. *)
Lemma nav_click_shows_target_witness :
  exists doc',
    onNavClick 1 two_sections = (Normal tt, doc') /\
    map active doc' = [false; true; false; false; true].
Proof.
  destruct (nav_click_shows_target two_sections 1 4
              (Element None true false (Some (str "about")) false)
              eq_refl eq_refl eq_refl eq_refl)
    as (_ & _ & _ & doc' & Hrun & _ & _).
  exists doc'. split; [exact Hrun|].
  assert (Hfull : map active (snd (onNavClick 1 two_sections))
                  = [false; true; false; false; true])
    by (vm_compute; reflexivity).
  now rewrite Hrun in Hfull.
Defined.

(** X26. A click on a navigation link whose target does not exist (no
    element has the id named by [data-section], or the attribute is
    missing and no element has the id [null]) throws a [TypeError]
    after the classes were reset: the clicked link is active and every
    other link and every section is inactive, so that no section is
    shown. *)
Theorem nav_click_missing_target_hides_all
    (doc : list element) (i : nat) (link : element) :
  doc !! i = Some link ->
  is_nav_link link = true ->
  existsb is_section doc = true ->
  getElementById (attribute_text (data_section link)) doc = None ->
  exists doc',
    onNavClick i doc
    = (Throw (TypeError "Cannot read properties of null"), doc') /\
    forall k e,
      doc !! k = Some e ->
      exists e',
        doc' !! k = Some e' /\
        active e'
        = if bool_decide (k = i) then true
          else if is_nav_link e || is_section e then false
          else active e.
Proof.
  intros Hi Hlink Hsections Htarget.
  unfold onNavClick. rewrite Hi, Hlink, Hsections. cbn [andb]. cbv zeta.
  rewrite (getElementById_ids _ _ doc)
    by (now rewrite ids_alter, ids_deactivate).
  rewrite Htarget.
  eexists. split; [reflexivity|].
  intros k e Hk. rewrite (lookup_clicked doc i k e Hk).
  eexists. split; [reflexivity|].
  destruct (bool_decide (k = i)); [reflexivity|].
  unfold deactivate. now destruct (is_nav_link e || is_section e).
Qed.

(** On the example page, the link with the misspelt target leaves no
    section shown. *)
Lemma nav_click_missing_target_hides_all_witness :
  exists doc',
    onNavClick 2 two_sections
    = (Throw (TypeError "Cannot read properties of null"), doc') /\
    map active doc' = [false; false; true; false; false].
Proof.
  destruct (nav_click_missing_target_hides_all two_sections 2
              (Element None true false (Some (str "abuot")) false)
              eq_refl eq_refl eq_refl eq_refl)
    as (doc' & Hrun & _).
  exists doc'. split; [exact Hrun|].
  assert (Hfull : map active (snd (onNavClick 2 two_sections))
                  = [false; false; true; false; false])
    by (vm_compute; reflexivity).
  now rewrite Hrun in Hfull.
Defined.


